(** * Cerial: schema-driven binary serialization (src/serial.ts)

    A shallow embedding of [sizeof], [serialize], [Deserialize],
    [deserialize] and the decorators [serialClass] and [serialMember],
    together with the parts of the JavaScript platform they call:
    [DataView] accessors, [Uint8Array.prototype.set],
    [ArrayBuffer.prototype.slice], [Map.prototype.set], string iteration
    and the numeric conversions of ECMA-262. *)

From Stdlib Require Import ZArith Lia.
From Stdlib Require Import Floats.SpecFloat.
From stdpp Require Import gmap strings list fin_maps.

Open Scope Z_scope.

(** ** Serial types *)

(** [SerialPrimitive]: the ten directly serializable primitives. *)
Inductive SerialPrimitive :=
  | Int8 | Uint8 | Int16 | Uint16 | Int32 | Uint32
  | BigInt64 | BigUint64 | Float32 | Float64.

(** [SerialType = SerialPrimitive | typeof Serializable | string]:
    a primitive name, the literal ['string'], a serializable class (its
    name, the [littleEndian] option that [serialClass] stores on its
    [__serial__] map, and the entries of that map in insertion order), or
    any other string.  [SerialDef] is [{ type; length? }]. *)
Inductive SerialType :=
  | TPrim (p : SerialPrimitive)
  | TString
  | TClass (name : string) (littleEndian : bool)
      (__serial__ : list (string * SerialDef))
  | TOther (s : string)
with SerialDef :=
  | mkDef (type : SerialType) (length : option nat).

Definition def_type (d : SerialDef) : SerialType :=
  match d with mkDef t _ => t end.

Definition def_length (d : SerialDef) : option nat :=
  match d with mkDef _ l => l end.

(** [SerialMap = Map<string, SerialDef>], iterated in insertion order. *)
Abbreviation SerialMap := (list (string * SerialDef)).

(** ** Exceptions and completions *)

Inductive exn :=
  | Error (msg : string)
  | TypeError (msg : string)
  | RangeError (msg : string).

Inductive completion (A : Type) :=
  | Normal (a : A)
  | Throw (e : exn).
Arguments Normal {A} a.
Arguments Throw {A} e.

Definition bind {A B} (c : completion A) (k : A -> completion B) : completion B :=
  match c with
  | Normal a => k a
  | Throw e => Throw e
  end.

Notation "x <- c ; k" := (bind c (fun x => k))
  (at level 100, c at next level, right associativity).

Definition throws {A} (c : completion A) : Prop :=
  match c with Throw _ => True | Normal _ => False end.

(** ** Type guards *)

Definition isSerialPrimitive (t : SerialType) : bool :=
  match t with TPrim _ => true | _ => false end.

(** [isSerializeable(arg)] is [isSerializeableStatic(arg.constructor)] for
    an object or a function.  A string is neither; the [constructor] of a
    class is [Function], which has no [__serial__]: no [SerialType] passes. *)
Definition isSerializeable (arg : SerialType) : bool :=
  match arg with
  | TPrim _ | TString | TOther _ => false
  | TClass _ _ _ => false
  end.

Definition isSerialType (t : SerialType) : bool :=
  isSerialPrimitive t || isSerializeable t
  || match t with TString => true | _ => false end.

Definition isSerialDef (d : SerialDef) : bool := isSerialType (def_type d).

(** [isSerialMap]: every value of the map is a [SerialDef] (the keys are
    strings). *)
Definition isSerialMap (m : SerialMap) : bool :=
  forallb (fun entry => isSerialDef entry.2) m.

(** [isSerializeableStatic(arg)] is
    ['__serial__' in arg && isSerialMap(arg.__serial__)]: a class passes
    when every entry of its map passes [isSerialDef], that is, when the
    types of its entries are primitives or ['string'].  The branches
    [isSerializeableStatic(type)] of [serialize] and [Deserialize] come
    after the guard [!isSerialType(type)], which a class does not pass. *)
Definition isSerializeableStatic (arg : SerialType) : bool :=
  match arg with
  | TClass _ _ __serial__ => isSerialMap __serial__
  | _ => false
  end.

(** ** sizeof *)

Definition primitive_size (p : SerialPrimitive) : nat :=
  match p with
  | Int8 | Uint8 => 1
  | Int16 | Uint16 => 2
  | Int32 | Uint32 | Float32 => 4
  | BigInt64 | BigUint64 | Float64 => 8
  end%nat.

(** The one-character string holding a double quote. *)
Definition dquote : string := String (Ascii.ascii_of_nat 34) EmptyString.

Definition not_a_valid_type (s : string) : exn :=
  TypeError (dquote +:+ s +:+ dquote +:+ " is not a valid type").

(** [_size] of one entry of the loop of [sizeof].  A class that passes
    [isSerializeableStatic] recurses into [sizeof(type)], whose own loop is
    the inner [fix]; one that does not reaches the last branch, where
    [type.constructor.name] is ['Function']. *)
Fixpoint sizeof_type (t : SerialType) : completion nat :=
  match t with
  | TPrim p => Normal (primitive_size p)
  | TClass _ _ m =>
      if isSerialMap m then
        (fix loop (m : SerialMap) (size : nat) : completion nat :=
           match m with
           | [] => Normal size
           | (_, mkDef t len) :: rest =>
               match sizeof_type t with
               | Normal _size => loop rest (size + _size * default 1%nat len)%nat
               | Throw e => Throw e
               end
           end) m 0%nat
      else Throw (not_a_valid_type "Function")
  | TString => Normal 1%nat
  | TOther s => Throw (not_a_valid_type s)
  end.

(** The [for (const [, { type, length }] of serialMap)] loop. *)
Fixpoint sizeof_loop (m : SerialMap) (size : nat) : completion nat :=
  match m with
  | [] => Normal size
  | (_, d) :: rest =>
      _size <- sizeof_type (def_type d);
      sizeof_loop rest (size + _size * default 1%nat (def_length d))%nat
  end.

(** [SerialClassOptions] and [defaultOptions]. *)
Record SerialClassOptions := { opt_littleEndian : bool }.

Definition defaultOptions : SerialClassOptions := {| opt_littleEndian := true |}.

(** A decorated class ([typeof Serializable]): its name, the options that
    [serialClass] assigned onto [__serial__], and the entries of the
    [__serial__] map. *)
Record SerialStatic := {
  class_name : string;
  class_options : SerialClassOptions;
  class_serial : SerialMap
}.

Definition class_type (c : SerialStatic) : SerialType :=
  TClass (class_name c) (opt_littleEndian (class_options c)) (class_serial c).

(** ** JavaScript values *)

(** A [number] is an IEEE 754 binary64 value, in the canonical form of
    [SpecFloat] ([prec = 53], [emax = 1024]). *)
Abbreviation number := spec_float.

Definition number_of_Z (z : Z) : number := binary_normalize 53 1024 z 0 false.

Definition NaN : number := S754_nan.

(** [truncate(x)] for finite [x], and 0 for NaN, the zeros and the
    infinities, as in ToInt32 and its siblings. *)
Definition truncate (x : number) : Z :=
  match x with
  | S754_finite s m e => cond_Zopp s (Z.shiftl (Zpos m) e)
  | _ => 0
  end.

(** Array objects live in a heap and are referred to by location. *)
Abbreviation loc := positive.

(** The values of the model: undefined, booleans, numbers, bigints,
    strings (sequences of UTF-16 code units) and references to arrays. *)
Inductive value :=
  | VUndefined
  | VBoolean (b : bool)
  | VNumber (n : number)
  | VBigInt (z : Z)
  | VString (s : list Z)
  | VArray (l : loc).

Abbreviation heap := (gmap loc (list value)).
Abbreviation object := (gmap string value).

(** An [object] holds the own properties of an instance.  The instance
    inherits the properties of its prototype chain: [constructor] from the
    prototype of its class, [serialize] and [deserialize], which
    [serialClass] assigns to that prototype (the classes of the
    development declare no other method and extend no class), and the
    properties of [Object.prototype].  What these hold is a function, or
    an object for [__proto__]. *)
Definition inherited_names : list string :=
  [ "constructor"; "serialize"; "deserialize"; "__proto__"; "hasOwnProperty";
    "isPrototypeOf"; "propertyIsEnumerable"; "toLocaleString"; "toString"; "valueOf";
    "__defineGetter__"; "__defineSetter__"; "__lookupGetter__"; "__lookupSetter__" ]%string.

Definition inherited (key : string) : bool := bool_decide (key ∈ inherited_names).

(** [obj[key]] as [serialize] reads it.  A property that the instance
    does not have reads as [undefined]; so does here one that it inherits
    only: the function or object it holds is no number, no bigint, no
    string and no array, and fails the checks of [serialize] that
    [undefined] fails, with the same messages. *)
Definition get_property (obj : object) (key : string) : value :=
  default VUndefined (obj !! key).

Inductive js_type := Ty_undefined | Ty_boolean | Ty_number | Ty_bigint | Ty_string | Ty_object.

Definition typeof (v : value) : js_type :=
  match v with
  | VUndefined => Ty_undefined
  | VBoolean _ => Ty_boolean
  | VNumber _ => Ty_number
  | VBigInt _ => Ty_bigint
  | VString _ => Ty_string
  | VArray _ => Ty_object
  end.

Definition js_type_eqb (a b : js_type) : bool :=
  match a, b with
  | Ty_undefined, Ty_undefined | Ty_boolean, Ty_boolean | Ty_number, Ty_number
  | Ty_bigint, Ty_bigint | Ty_string, Ty_string | Ty_object, Ty_object => true
  | _, _ => false
  end.

Definition js_type_name (t : js_type) : string :=
  match t with
  | Ty_undefined => "undefined" | Ty_boolean => "boolean" | Ty_number => "number"
  | Ty_bigint => "bigint" | Ty_string => "string" | Ty_object => "object"
  end.

Definition serialPrimitiveValue (serialType : SerialPrimitive) : js_type :=
  match serialType with
  | BigInt64 | BigUint64 => Ty_bigint
  | _ => Ty_number
  end.

Definition isArray (v : value) : bool :=
  match v with VArray _ => true | _ => false end.

(** Truthiness (ToBoolean). *)
Definition truthy (v : value) : bool :=
  match v with
  | VUndefined => false
  | VBoolean b => b
  | VNumber (S754_zero _) | VNumber S754_nan => false
  | VNumber _ => true
  | VBigInt z => negb (z =? 0)
  | VString s => match s with [] => false | _ => true end
  | VArray _ => true
  end.

(** The code units of a string literal of the development. *)
Fixpoint js_string (s : string) : list Z :=
  match s with
  | EmptyString => []
  | String a r => Z.of_nat (Ascii.nat_of_ascii a) :: js_string r
  end.

(** [[...value]] on a string: one element per code point, a surrogate pair
    staying together. *)
Definition is_high_surrogate (c : Z) : bool := (55296 <=? c) && (c <=? 56319).
Definition is_low_surrogate (c : Z) : bool := (56320 <=? c) && (c <=? 57343).

Fixpoint string_iterator (s : list Z) : list (list Z) :=
  match s with
  | [] => []
  | c :: rest =>
      match rest with
      | d :: rest' =>
          if is_high_surrogate c && is_low_surrogate d
          then [c; d] :: string_iterator rest'
          else [c] :: string_iterator rest
      | [] => [[c]]
      end
  end.

(** [s.charCodeAt(0)]. *)
Definition charCodeAt0 (s : list Z) : number :=
  match s with
  | [] => NaN
  | c :: _ => number_of_Z c
  end.

(** ** sizeof of a value *)

(** [serialPrimitives], each name with its primitive. *)
Definition serialPrimitives : list (string * SerialPrimitive) :=
  [ ("Int8", Int8); ("Uint8", Uint8); ("Int16", Int16); ("Uint16", Uint16);
    ("Int32", Int32); ("Uint32", Uint32); ("BigInt64", BigInt64);
    ("BigUint64", BigUint64); ("Float32", Float32); ("Float64", Float64) ]%string.

(** The type that a value of an instance names, if [isSerialType] accepts
    the value: the name of a primitive, or ['string']. *)
Definition type_named (v : value) : option SerialType :=
  match v with
  | VString s =>
      match list_find (fun entry => bool_decide (js_string entry.1 = s)) serialPrimitives with
      | Some (_, (_, p)) => Some (TPrim p)
      | None => if bool_decide (s = js_string "string") then Some TString else None
      end
  | _ => None
  end.

(** The natural number that a number is, if it is one. *)
Definition nat_of_number (x : number) : option nat :=
  let z := truncate x in
  if (0 <=? z) && SFeqb x (number_of_Z z) then Some (Z.to_nat z) else None.

(** An instance passes [isSerialDef] when its property [type] names a
    type: [sizeof] then takes the instance itself for a [SerialDef], and
    reads its [length].  As in every [SerialDef] of the development, the
    length is [undefined] or a natural number; an instance whose [length]
    holds another value is left out (its size is no natural number, or
    comes from the conversion of a string to a number). *)
Definition SerialDef_of_instance (this : object) : option SerialDef :=
  match type_named (get_property this "type") with
  | Some type =>
      match get_property this "length" with
      | VUndefined => Some (mkDef type None)
      | VNumber x =>
          match nat_of_number x with
          | Some n => Some (mkDef type (Some n))
          | None => None
          end
      | _ => None
      end
  | None => None
  end.

(** The values [sizeof] is called on: an instance of a class with its own
    properties, a class, a [SerialDef] or a [SerialType]. *)
Inductive SizeofArg :=
  | OfInstance (constructor : SerialStatic) (this : object)
  | OfStatic (c : SerialStatic)
  | OfDef (d : SerialDef)
  | OfType (t : SerialType).

(** [sizeof(val)].  The map is [val.constructor.__serial__] for an
    instance of a class that passes [isSerializeableStatic] and
    [val.__serial__] for such a class.  Any other value is taken for a
    [SerialDef] if it passes [isSerialDef], which an instance does by its
    own [type], and is wrapped as [{ type: val }] if not: a type goes
    through the loop as the type of one entry; for an instance, a class
    or a [SerialDef] that fail their guards, the type of that entry is
    the object itself, which no branch of the loop accepts, and the
    message has the name of its constructor. *)
Definition sizeof (val : SizeofArg) : completion nat :=
  match val with
  | OfInstance c this =>
      if isSerializeableStatic (class_type c) then sizeof_loop (class_serial c) 0
      else
        match SerialDef_of_instance this with
        | Some d => sizeof_loop [(EmptyString, d)] 0
        | None => Throw (not_a_valid_type (class_name c))
        end
  | OfStatic c =>
      if isSerializeableStatic (class_type c) then sizeof_loop (class_serial c) 0
      else Throw (not_a_valid_type "Function")
  | OfDef d =>
      if isSerialDef d then sizeof_loop [(EmptyString, d)] 0
      else Throw (not_a_valid_type "Object")
  | OfType (TClass _ _ m as t) =>
      if isSerializeableStatic t then sizeof_loop m 0
      else Throw (not_a_valid_type "Function")
  | OfType t => sizeof_loop [(EmptyString, mkDef t None)] 0
  end.

(** ** Raw bytes and IEEE 754 bit patterns *)

(** The [w] low-order bytes of [z] (two's complement for negative [z]),
    least-significant first. *)
Fixpoint le_bytes (w : nat) (z : Z) : list Z :=
  match w with
  | O => []
  | S w' => z mod 256 :: le_bytes w' (z / 256)
  end.

Fixpoint le_value (bs : list Z) : Z :=
  match bs with
  | [] => 0
  | b :: r => b + 256 * le_value r
  end.

Definition raw_bytes (w : nat) (z : Z) (isLittleEndian : bool) : list Z :=
  if isLittleEndian then le_bytes w z else rev (le_bytes w z).

Definition raw_value (bs : list Z) (isLittleEndian : bool) : Z :=
  le_value (if isLittleEndian then bs else rev bs).

Definition signed (bits : Z) (z : Z) : Z :=
  if z <? 2 ^ (bits - 1) then z else z - 2 ^ bits.

Section Binary.
(** [mw] fraction bits and [ew] exponent bits: 23 and 8 for binary32,
    52 and 11 for binary64. *)
Variables mw ew : Z.

Definition join_bits (s : bool) (e m : Z) : Z :=
  ((if s then 1 else 0) * 2 ^ ew + e) * 2 ^ mw + m.

Definition bits_of_float (x : spec_float) : Z :=
  match x with
  | S754_zero s => join_bits s 0 0
  | S754_infinity s => join_bits s (2 ^ ew - 1) 0
  | S754_nan => join_bits false (2 ^ ew - 1) (2 ^ (mw - 1))
  | S754_finite s m e =>
      if Zpos m <? 2 ^ mw then join_bits s 0 (Zpos m)
      else join_bits s (e - emin (mw + 1) (2 ^ (ew - 1)) + 1) (Zpos m - 2 ^ mw)
  end.

Definition float_of_bits (b : Z) : spec_float :=
  let m := b mod 2 ^ mw in
  let e := (b / 2 ^ mw) mod 2 ^ ew in
  let s := (b / 2 ^ (mw + ew)) mod 2 =? 1 in
  if e =? 0 then
    match m with
    | Zpos p => S754_finite s p (emin (mw + 1) (2 ^ (ew - 1)))
    | _ => S754_zero s
    end
  else if e =? 2 ^ ew - 1 then
    (if m =? 0 then S754_infinity s else S754_nan)
  else
    match m + 2 ^ mw with
    | Zpos p => S754_finite s p (e + emin (mw + 1) (2 ^ (ew - 1)) - 1)
    | _ => S754_nan
    end.
End Binary.

(** Rounding of a number into the format [prec], [emax] (to nearest, ties
    to even), as [setFloat32] does with [prec = 24], [emax = 128]. *)
Definition round_to (prec emax : Z) (x : number) : spec_float :=
  match x with
  | S754_finite s m e => binary_round prec emax s m e
  | _ => x
  end.

(** ** Numeric conversions *)

(** What reaches [ToNumber] and [ToBigInt] in this program is a number, a
    bigint or (as [None]) [undefined]. *)
Inductive numeric :=
  | Num (n : number)
  | Big (z : Z).

Definition ToNumber (v : option numeric) : completion number :=
  match v with
  | None => Normal NaN
  | Some (Num n) => Normal n
  | Some (Big _) => Throw (TypeError "Cannot convert a BigInt value to a number")
  end.

Definition ToBigInt (v : option numeric) : completion Z :=
  match v with
  | Some (Big z) => Normal z
  | Some (Num _) => Throw (TypeError "Cannot convert a number to a BigInt")
  | None => Throw (TypeError "Cannot convert undefined to a BigInt")
  end.

Definition NumericToRawBytes (type : SerialPrimitive) (v : option numeric)
    (isLittleEndian : bool) : completion (list Z) :=
  match type with
  | BigInt64 | BigUint64 =>
      z <- ToBigInt v; Normal (raw_bytes 8 z isLittleEndian)
  | Float32 =>
      n <- ToNumber v;
      Normal (raw_bytes 4 (bits_of_float 23 8 (round_to 24 128 n)) isLittleEndian)
  | Float64 =>
      n <- ToNumber v; Normal (raw_bytes 8 (bits_of_float 52 11 n) isLittleEndian)
  | _ =>
      n <- ToNumber v; Normal (raw_bytes (primitive_size type) (truncate n) isLittleEndian)
  end.

Definition RawBytesToNumeric (type : SerialPrimitive) (rawBytes : list Z)
    (isLittleEndian : bool) : value :=
  let z := raw_value rawBytes isLittleEndian in
  match type with
  | Int8 => VNumber (number_of_Z (signed 8 z))
  | Int16 => VNumber (number_of_Z (signed 16 z))
  | Int32 => VNumber (number_of_Z (signed 32 z))
  | Uint8 | Uint16 | Uint32 => VNumber (number_of_Z z)
  | BigInt64 => VBigInt (signed 64 z)
  | BigUint64 => VBigInt z
  | Float32 => VNumber (round_to 53 1024 (float_of_bits 23 8 z))
  | Float64 => VNumber (float_of_bits 52 11 z)
  end.

(** ** Buffers *)

(** An [ArrayBuffer] is its sequence of bytes; [data] and [view] of
    [serialize] share one. *)
Definition write_bytes (buffer : list Z) (offset : nat) (bs : list Z) : list Z :=
  take offset buffer ++ bs ++ drop (offset + length bs) buffer.

(** [buffer.slice(begin, end)] for [begin <= end], clamped to the buffer. *)
Definition slice {A} (l : list A) (begin_ end_ : nat) : list A :=
  take (end_ - begin_) (drop begin_ l).

Definition out_of_bounds : exn :=
  RangeError "Offset is outside the bounds of the DataView".

(** [view['set' + type](byteOffset, value, littleEndian)]: the value is
    converted first, then the bounds are checked. *)
Definition DataView_set (type : SerialPrimitive) (buffer : list Z) (byteOffset : nat)
    (v : option numeric) (littleEndian : bool) : completion (list Z) :=
  bs <- NumericToRawBytes type v littleEndian;
  if (length buffer <? byteOffset + primitive_size type)%nat then Throw out_of_bounds
  else Normal (write_bytes buffer byteOffset bs).

(** [view['get' + type](byteOffset, littleEndian)]. *)
Definition DataView_get (type : SerialPrimitive) (buffer : list Z) (byteOffset : nat)
    (littleEndian : bool) : completion value :=
  if (length buffer <? byteOffset + primitive_size type)%nat then Throw out_of_bounds
  else Normal (RawBytesToNumeric type
                 (slice buffer byteOffset (byteOffset + primitive_size type))
                 littleEndian).

(** [ToUint8] of an element stored into a [Uint8Array]. *)
Definition ToUint8 (n : number) : Z := truncate n mod 256.

(** [data.set(array, offset)] on a [Uint8Array]: the length check comes
    first, then each element is converted and stored. *)
Fixpoint set_elements (data : list Z) (src : list numeric) (offset : nat)
    : completion (list Z) :=
  match src with
  | [] => Normal data
  | el :: rest =>
      n <- ToNumber (Some el);
      set_elements (<[offset := ToUint8 n]> data) rest (S offset)
  end.

Definition Uint8Array_set (data : list Z) (src : list numeric) (offset : nat)
    : completion (list Z) :=
  if (length data <? length src + offset)%nat
  then Throw (RangeError "offset is out of bounds")
  else set_elements data src offset.

(** ** serialize *)

(** The callback of [value.flatMap(...)]: it never returns an array, so
    the [flatMap] is a [map] that stops at the first throw. *)
Definition coerce_element (errorPrefix : string) (el : value) : completion numeric :=
  match el with
  | VString s => Normal (Num (charCodeAt0 s))
  | VBigInt z => Normal (Big z)
  | VNumber n => Normal (Num n)
  | VBoolean b => Normal (Num (number_of_Z (if b then 1 else 0)))
  | VUndefined => Normal (Num (number_of_Z 0))
  | VArray _ => Throw (TypeError (errorPrefix +:+ "Element is not serializeable"))
  end.

Fixpoint flatMap (errorPrefix : string) (els : list value) : completion (list numeric) :=
  match els with
  | [] => Normal []
  | el :: rest =>
      x <- coerce_element errorPrefix el;
      xs <- flatMap errorPrefix rest;
      Normal (x :: xs)
  end.

(** The elements of [value] once [value = [...value]] has been applied to
    a string; an array is read from the heap. *)
Definition elements_of (h : heap) (v : value) : list value :=
  match v with
  | VString s => VString <$> string_iterator s
  | VArray l => default [] (h !! l)
  | _ => []
  end.

(** [for (let i = 0; i < length; i++) view['set' + type](offset + i * (size / length), arrayData[i])],
    with [i] the current index and [n] the iterations left. *)
Fixpoint set_floats (type : SerialPrimitive) (buffer : list Z) (offset stride : nat)
    (arrayData : list numeric) (i n : nat) : completion (list Z) :=
  match n with
  | O => Normal buffer
  | S n' =>
      buffer' <- DataView_set type buffer (offset + i * stride) (arrayData !! i) false;
      set_floats type buffer' offset stride arrayData (S i) n'
  end.

(** [type === 'string'], [length === 0] and the truthiness of [length]. *)
Definition is_string (type : SerialType) : bool :=
  match type with TString => true | _ => false end.

Definition is_zero (length : option nat) : bool :=
  match length with Some O => true | _ => false end.

Definition is_set (length : option nat) : bool :=
  match length with Some (S _) => true | _ => false end.

Definition serialize_prefix (key name : string) : string :=
  "Can not serialize " +:+ dquote +:+ key +:+ dquote +:+ " in " +:+ name +:+ ": ".

(** The body of the loop of [serialize] for one entry [[key, def]], from
    [const size = sizeof(def)] to the write; it returns the buffer and
    [size]. *)
Definition serialize_member (h : heap) (name : string) (this : object)
    (data : list Z) (offset : nat) (key : string) (def : SerialDef)
    : completion (list Z * nat) :=
  size <- sizeof (OfDef def);
  let errorPrefix := serialize_prefix key name in
  let type := def_type def in
  let length := def_length def in
  let value := get_property this key in
  if is_zero length then
    Throw (Error (errorPrefix +:+ "0-length arrays are not yet supported"))
  else if negb (isSerialType type) then
    Throw (TypeError (errorPrefix +:+ "Invalid type"))
  else if is_string type && negb (js_type_eqb (typeof value) Ty_string) then
    Throw (TypeError (errorPrefix +:+ "Value is not a string"))
  else if is_set length && negb (isArray value) && negb (is_string type) then
    Throw (TypeError (errorPrefix +:+ "Value is not an array"))
  else
    match length, type with
    | (None | Some O), TPrim p =>
        if negb (js_type_eqb (typeof value) (serialPrimitiveValue p)) then
          Throw (TypeError (errorPrefix +:+ "Value is not a "
                            +:+ js_type_name (serialPrimitiveValue p)))
        else
          match value with
          | VNumber n =>
              data' <- DataView_set p data offset (Some (Num n)) false;
              Normal (data', size)
          | VBigInt z =>
              data' <- DataView_set p data offset (Some (Big z)) false;
              Normal (data', size)
          | _ => Throw (TypeError (errorPrefix +:+ "Value is not a "
                                   +:+ js_type_name (serialPrimitiveValue p)))
          end
    | (None | Some O), _ => Throw (TypeError (errorPrefix +:+ "Invalid type"))
    | Some length, _ =>
        arrayData <- flatMap errorPrefix (elements_of h value);
        let arrayData := take size arrayData in
        match type with
        | TPrim (Float32 as p) | TPrim (Float64 as p) =>
            data' <- set_floats p data offset (size / length)%nat arrayData 0 length;
            Normal (data', size)
        | _ =>
            data' <- Uint8Array_set data arrayData offset;
            Normal (data', size)
        end
    end.

(** The [for (const [key, def] of this.constructor.__serial__)] loop. *)
Fixpoint serialize_loop (h : heap) (name : string) (this : object)
    (m : SerialMap) (data : list Z) (offset : nat) : completion (list Z) :=
  match m with
  | [] => Normal data
  | (key, def) :: rest =>
      r <- serialize_member h name this data offset key def;
      serialize_loop h name this rest r.1 (offset + r.2)
  end.

(** [serialize.call(this)]: [h] is the heap holding the arrays of [this],
    [constructor] is [this.constructor], the class of [this] (an instance
    with a property [constructor] of its own is outside the model). *)
Definition serialize (h : heap) (constructor : SerialStatic) (this : object)
    : completion (list Z) :=
  size <- sizeof (OfInstance constructor this);
  serialize_loop h (class_name constructor) this (class_serial constructor)
    (replicate size 0) 0.

(** ** Deserialize *)

(** The mutable state of a call: the heap of arrays and the own
    properties of [instance]. *)
Record state := { st_heap : heap; st_instance : object }.

(** [instance[key] = v]: the value becomes a property of the instance.
    (Under the name [__proto__], which [Object.prototype] defines by an
    accessor, the engine stores no number, bigint or string: a field of
    that name is outside the model.) *)
Definition set_property (key : string) (v : value) (s : state) : state :=
  {| st_heap := st_heap s; st_instance := <[key := v]> (st_instance s) |}.

(** [a[i] = v] on an array: an index past the end extends it. *)
Definition array_set (a : list value) (i : nat) (v : value) : list value :=
  if (i <? length a)%nat then <[i := v]> a
  else a ++ replicate (i - length a) VUndefined ++ [v].

(** [instance[key][i] = v] (strict mode).  An element is stored in the
    array that the property holds.  A property cannot be created on a
    primitive, nor on [undefined]: the engine throws a TypeError, with a
    message of its own.  When the instance has no such property but
    inherits one, the store goes to the function or object inherited, and
    nothing changes in the instance. *)
Definition set_index (key : string) (i : nat) (v : value) (s : state)
    : state * completion unit :=
  match st_instance s !! key with
  | Some (VArray l) =>
      ({| st_heap := <[l := array_set (default [] (st_heap s !! l)) i v]> (st_heap s);
          st_instance := st_instance s |}, Normal tt)
  | Some _ => (s, Throw (TypeError "Cannot create property on a primitive value"))
  | None =>
      if inherited key then (s, Normal tt)
      else (s, Throw (TypeError "Cannot set properties of undefined"))
  end.

(** The truthiness of [instance[key]], read through the prototype chain:
    what an inherited property holds is truthy. *)
Definition truthy_property (obj : object) (key : string) : bool :=
  match obj !! key with
  | Some v => truthy v
  | None => inherited key
  end.

(** [instance[key] ||= []]: a new array becomes a property of the
    instance unless [instance[key]] is truthy. *)
Definition or_assign_array (key : string) (s : state) : state :=
  if truthy_property (st_instance s) key then s
  else
    let l := fresh (dom (st_heap s)) in
    {| st_heap := <[l := []]> (st_heap s);
       st_instance := <[key := VArray l]> (st_instance s) |}.

(** [for (let i = 0; i < length; i++) instance[key][i] = view['get' + type](offset + i * (size / length))]. *)
Fixpoint get_elements (type : SerialPrimitive) (buffer : list Z) (offset stride : nat)
    (key : string) (i n : nat) (s : state) : state * completion unit :=
  match n with
  | O => (s, Normal tt)
  | S n' =>
      match DataView_get type buffer (offset + i * stride) false with
      | Throw e => (s, Throw e)
      | Normal v =>
          match set_index key i v s with
          | (s', Normal _) => get_elements type buffer offset stride key (S i) n' s'
          | (s', Throw e) => (s', Throw e)
          end
      end
  end.

(** [charArray.reduce((index, char, i) => (char == 0 ? index : i), 0)]. *)
Definition reduce_index (charArray : list Z) : nat :=
  fold_left (fun index ic => if ic.2 =? 0 then index else ic.1)
    (zip (seq 0 (length charArray)) charArray) 0%nat.

(** [String.fromCharCode(char)]. *)
Definition fromCharCode (char : Z) : Z := char mod 65536.

(** The text branch: from the sliced bytes to the assigned string. *)
Definition decode_string (charArray : list Z) : list Z :=
  let lastChar := (reduce_index charArray + 1)%nat in
  fromCharCode <$>
    take (if (lastChar =? 0)%nat then length charArray else lastChar) charArray.

Definition deserialize_prefix (key name : string) : string :=
  "Can not deserialize " +:+ dquote +:+ key +:+ dquote +:+ " in " +:+ name +:+ ": ".

(** The body of the loop of [Deserialize] for one entry; it returns the
    state reached and, unless it throws, [size]. *)
Definition Deserialize_member (name : string) (buffer : list Z) (offset : nat)
    (key : string) (def : SerialDef) (s : state) : state * completion nat :=
  match sizeof (OfDef def) with
  | Throw e => (s, Throw e)
  | Normal size =>
      let errorPrefix := deserialize_prefix key name in
      let type := def_type def in
      let length := def_length def in
      if is_zero length then
        (s, Throw (Error (errorPrefix +:+ "0-length arrays are not yet supported")))
      else if negb (isSerialType type) then
        (s, Throw (TypeError (errorPrefix +:+ "Invalid type")))
      else
        match length, type with
        | (None | Some O), TPrim p =>
            match DataView_get p buffer offset false with
            | Throw e => (s, Throw e)
            | Normal v => (set_property key v s, Normal size)
            end
        | (None | Some O), _ => (s, Throw (TypeError (errorPrefix +:+ "Invalid type")))
        | Some length, TPrim p =>
            match get_elements p buffer offset (size / length)%nat key 0 length
                    (or_assign_array key s) with
            | (s', Normal _) => (s', Normal size)
            | (s', Throw e) => (s', Throw e)
            end
        | Some _, TString =>
            let arraybuffer := slice buffer offset (offset + size) in
            (set_property key (VString (decode_string arraybuffer)) s, Normal size)
        | Some _, _ => (s, Normal size)
        end
  end.

(** The [for (const [key, def] of this.__serial__)] loop. *)
Fixpoint Deserialize_loop (name : string) (buffer : list Z) (m : SerialMap)
    (offset : nat) (s : state) : state * completion unit :=
  match m with
  | [] => (s, Normal tt)
  | (key, def) :: rest =>
      match Deserialize_member name buffer offset key def s with
      | (s', Normal size) => Deserialize_loop name buffer rest (offset + size) s'
      | (s', Throw e) => (s', Throw e)
      end
  end.

(** The [data] argument: an [ArrayBuffer], or a view ([Uint8Array], Node
    [Buffer], [DataView]) of [byteLength] bytes at [byteOffset] of its
    underlying [buffer]. *)
Inductive BufferSource :=
  | ArrayBuffer (bytes : list Z)
  | ArrayBufferView (buffer : list Z) (byteOffset byteLength : nat).

(** ['buffer' in data ? data.buffer : data]. *)
Definition buffer_of (data : BufferSource) : list Z :=
  match data with
  | ArrayBufferView buffer _ _ => buffer
  | ArrayBuffer bytes => bytes
  end.

(** [Deserialize.call(this, data, instance)].  The state holds the own
    properties of [instance] (empty for the default [new this()]) and the
    heap; the state returned is the one reached when the call returns or
    throws, and [instance] is the value returned. *)
Definition Deserialize (this : SerialStatic) (data : BufferSource) (s : state)
    : state * completion unit :=
  let buffer := buffer_of data in
  Deserialize_loop (class_name this) buffer (class_serial this) 0 s.

(** The instance that [new this()] gives when the constructor of the
    class assigns nothing: it has no property of its own, and inherits
    those of [inherited_names]. *)
Definition new_instance (h : heap) : state := {| st_heap := h; st_instance := ∅ |}.


(** ** The layout as the specification words it *)

(** [elementWidth(kind)]: the intrinsic width of a numeric kind, 1 for a
    text slot, and recursively the size of a nested schema;
    [fieldSize(field) = elementWidth(field.kind) * (field.repeat ?? 1)];
    [size(schema)] is the sum of the field sizes. *)
Fixpoint spec_elementWidth (kind : SerialType) : nat :=
  match kind with
  | TPrim p => primitive_size p
  | TString => 1
  | TClass _ _ m =>
      (fix size (m : SerialMap) : nat :=
         match m with
         | [] => 0
         | (_, mkDef k r) :: rest => spec_elementWidth k * default 1 r + size rest
         end) m
  | TOther _ => 0
  end%nat.

Definition spec_fieldSize (field : string * SerialDef) : nat :=
  (spec_elementWidth (def_type field.2) * default 1 (def_length field.2))%nat.

Definition spec_size (schema : SerialMap) : nat := sum_list (spec_fieldSize <$> schema).

(** A well-formed schema uses recognized kinds only: numeric, text, or a
    nested schema that is itself well formed. *)
Fixpoint recognized (kind : SerialType) : bool :=
  match kind with
  | TPrim _ | TString => true
  | TClass _ _ m =>
      (fix all (m : SerialMap) : bool :=
         match m with
         | [] => true
         | (_, mkDef k _) :: rest => recognized k && all rest
         end) m
  | TOther _ => false
  end.

Definition well_formed (schema : SerialMap) : bool :=
  forallb (fun field => recognized (def_type field.2)) schema.


(** ** Value domains *)

(** The number or bigint held by a value, as the accessors receive it. *)
Definition numeric_of_value (v : value) : option numeric :=
  match v with
  | VNumber n => Some (Num n)
  | VBigInt z => Some (Big z)
  | _ => None
  end.

(** The values of the domain of a numeric kind (section 4.1 of the
    specification): the integers of its range as numbers, or as bigints for
    the 64-bit kinds; the binary32 values, widened to numbers, for Float32;
    every number for Float64. *)
Definition in_domain (type : SerialPrimitive) (v : value) : Prop :=
  match type with
  | Int8 => exists z, - 2 ^ 7 <= z < 2 ^ 7 /\ v = VNumber (number_of_Z z)
  | Uint8 => exists z, 0 <= z < 2 ^ 8 /\ v = VNumber (number_of_Z z)
  | Int16 => exists z, - 2 ^ 15 <= z < 2 ^ 15 /\ v = VNumber (number_of_Z z)
  | Uint16 => exists z, 0 <= z < 2 ^ 16 /\ v = VNumber (number_of_Z z)
  | Int32 => exists z, - 2 ^ 31 <= z < 2 ^ 31 /\ v = VNumber (number_of_Z z)
  | Uint32 => exists z, 0 <= z < 2 ^ 32 /\ v = VNumber (number_of_Z z)
  | BigInt64 => exists z, - 2 ^ 63 <= z < 2 ^ 63 /\ v = VBigInt z
  | BigUint64 => exists z, 0 <= z < 2 ^ 64 /\ v = VBigInt z
  | Float32 => exists y, valid_binary 24 128 y = true /\ v = VNumber (round_to 53 1024 y)
  | Float64 => exists x, valid_binary 53 1024 x = true /\ v = VNumber x
  end.

(** ** The bytes of one entry *)

(** What [serialize] leaves in the slot of an entry: the body of its loop
    run on a zeroed slot of [sizeof(def)] bytes. *)
Definition member_bytes (h : heap) (name : string) (this : object)
    (key : string) (def : SerialDef) : completion (list Z) :=
  size <- sizeof (OfDef def);
  r <- serialize_member h name this (replicate size 0) 0 key def;
  Normal r.1.

Fixpoint members_bytes (h : heap) (name : string) (this : object) (m : SerialMap)
    : completion (list Z) :=
  match m with
  | [] => Normal []
  | (key, def) :: rest =>
      chunk <- member_bytes h name this key def;
      chunks <- members_bytes h name this rest;
      Normal (chunk ++ chunks)
  end.

(** ** The classes of the test suite and of the examples *)

Definition serialClass (name : string) (members : SerialMap) : SerialStatic :=
  {| class_name := name; class_options := defaultOptions; class_serial := members |}.

(** [_Test] of tests/serial.test.ts: [prop1: Int16], [prop2: Float32 x 2],
    [prop3: string x 5]. *)
Definition Test : SerialStatic :=
  serialClass "_Test"
    [ ("prop1"%string, mkDef (TPrim Int16) None);
      ("prop2"%string, mkDef (TPrim Float32) (Some 2%nat));
      ("prop3"%string, mkDef TString (Some 5%nat)) ].

(** The numbers 3.14 and 2.71. *)
Definition n3_14 : number := S754_finite false 7070651414971679 (-51).
Definition n2_71 : number := S754_finite false 6102377495087022 (-51).

(** [instance.prop1 = 42; instance.prop2 = [3.14, 2.71]; instance.prop3 = 'test']. *)
Definition test_heap : heap := {[ 1%positive := [VNumber n3_14; VNumber n2_71] ]}.

Definition test_instance : object :=
  {[ "prop1"%string := VNumber (number_of_Z 42);
     "prop2"%string := VArray 1;
     "prop3"%string := VString (js_string "test") ]}.

Definition expectedSerializedData : list Z :=
  [0; 42; 64; 72; 245; 195; 64; 45; 112; 164; 116; 101; 115; 116; 0].

(** A class with one repeated Int16 field, [x: Int16 x 2]. *)
Definition Int16Pair : SerialStatic :=
  serialClass "Int16Pair" [ ("x"%string, mkDef (TPrim Int16) (Some 2%nat)) ].

(** A class with one repeated Float32 field, [b: Float32 x 2]. *)
Definition Float32Pair : SerialStatic :=
  serialClass "Float32Pair" [ ("b"%string, mkDef (TPrim Float32) (Some 2%nat)) ].

(** A class with one text field, [c: string x 5]. *)
Definition Text5 : SerialStatic :=
  serialClass "Text5" [ ("c"%string, mkDef TString (Some 5%nat)) ].

(** A class whose second field has a repeat count of 0. *)
Definition ZeroRepeat : SerialStatic :=
  serialClass "ZeroRepeat"
    [ ("a"%string, mkDef (TPrim Int8) None);
      ("b"%string, mkDef (TPrim Int8) (Some 0%nat)) ].


(** A class with a repeated field whose name its instances inherit from
    [Object.prototype], [toString: Uint8 x 2]. *)
Definition InheritedName : SerialStatic :=
  serialClass "InheritedName" [ ("toString"%string, mkDef (TPrim Uint8) (Some 2%nat)) ].



(** ** What decoding leaves for one entry *)

(** The result of [Deserialize] for the entry [[key, def]] read at
    [offset], in the state [s'] reached from a new instance: the value read
    by the accessor for a scalar, a fresh array of the [repeat] values read
    at the stride of the kind for a repeated numeric entry, the text
    recovered from the slot for a text entry. *)
Definition decoded_field (buffer : list Z) (offset : nat) (key : string)
    (def : SerialDef) (s' : state) : Prop :=
  match def with
  | mkDef (TPrim p) None =>
      exists v, DataView_get p buffer offset false = Normal v
                /\ st_instance s' !! key = Some v
  | mkDef (TPrim p) (Some n) =>
      exists l els,
        st_instance s' !! key = Some (VArray l)
        /\ st_heap s' !! l = Some els
        /\ length els = n
        /\ forall i, (i < n)%nat ->
             exists v, DataView_get p buffer (offset + i * primitive_size p) false = Normal v
                       /\ els !! i = Some v
  | mkDef TString (Some n) =>
      st_instance s' !! key
      = Some (VString (decode_string (slice buffer offset (offset + n))))
  | _ => True
  end.

(** The entries that [serialize] and [Deserialize] accept: a scalar
    numeric entry, or a numeric or text entry with a repeat count of at
    least 1. *)
Definition accepted (def : SerialDef) : bool :=
  match def with
  | mkDef (TPrim _) None => true
  | mkDef (TPrim _) (Some (S _)) => true
  | mkDef TString (Some (S _)) => true
  | _ => false
  end.

(** The entries whose value [Deserialize] stores in a property of a new
    instance: the elements of a repeated numeric entry go to what the
    instance inherits under the name of the entry, if it inherits
    something. *)
Definition stored (field : string * SerialDef) : bool :=
  match field.2 with
  | mkDef (TPrim _) (Some _) => negb (inherited field.1)
  | _ => true
  end.

(** The classes none of whose fields has a name that the instances
    inherit. *)
Definition own_names (m : SerialMap) : bool :=
  forallb (fun field => negb (inherited field.1)) m.

(** The [reduce] of [Deserialize] started at index [start] with
    accumulator [index]. *)
Definition reduce_from (start index : nat) (charArray : list Z) : nat :=
  fold_left (fun index ic => if ic.2 =? 0 then index else ic.1)
    (zip (seq start (length charArray)) charArray) index.


(** ** What the round trip reproduces *)

(** The entry [[key, def]] of [this] (whose arrays are in [h]) is
    reproduced in the decoded state [s']: a scalar of the domain of its kind
    is found again; an array of [repeat] elements of the domain of a
    one-byte or floating-point kind is found again, in a new array; a text
    of one-byte characters comes back as the NUL-seeking policy makes it
    from the zero-padded (or cut) text, that is, unchanged when it is not
    empty, fits the slot and does not end with NUL. *)
Definition reproduced (h : heap) (this : object) (s' : state) (key : string)
    (def : SerialDef) : Prop :=
  match def with
  | mkDef (TPrim p) None =>
      in_domain p (get_property this key) ->
      st_instance s' !! key = Some (get_property this key)
  | mkDef (TPrim p) (Some n) =>
      p = Int8 \/ p = Uint8 \/ p = Float32 \/ p = Float64 ->
      forall l els,
        get_property this key = VArray l -> h !! l = Some els ->
        length els = n -> Forall (in_domain p) els ->
        exists l', st_instance s' !! key = Some (VArray l')
                   /\ st_heap s' !! l' = Some els
  | mkDef TString (Some n) =>
      forall str,
        get_property this key = VString str ->
        Forall (fun ch => 0 <= ch < 256) str ->
        st_instance s' !! key
        = Some (VString (decode_string (take n (str ++ replicate (n - length str) 0))))
        /\ (forall a ch, str = a ++ [ch] -> ch <> 0 -> (length str <= n)%nat ->
            st_instance s' !! key = Some (VString str))
  | _ => True
  end.

(** A class with a nested field: [inner: _Test x 2] and [flag: Uint8]. *)
Definition Nested : SerialStatic :=
  serialClass "Nested"
    [ ("inner"%string, mkDef (class_type Test) (Some 2%nat));
      ("flag"%string, mkDef (TPrim Uint8) None) ].


(** ** deserialize *)

(** [deserialize.call(this, data)] is [this.constructor.Deserialize(data, this)]:
    the instance to fill is [this] itself. *)
Definition deserialize (constructor : SerialStatic) (this : state) (data : BufferSource)
    : state * completion unit :=
  Deserialize constructor data this.

(** ** Decorators *)

(** [Map.prototype.set]: the value of a key that is present is replaced
    where the key stands; a new key goes to the end. *)
Fixpoint Map_set (m : SerialMap) (key : string) (def : SerialDef) : SerialMap :=
  match m with
  | [] => [(key, def)]
  | (k, d) :: rest =>
      if String.eqb k key then (key, def) :: rest
      else (k, d) :: Map_set rest key def
  end.

(** A class as a decorator receives it: its name and, once [serialClass]
    has run on it, the options and the entries of its [__serial__] map. *)
Record Class := {
  cls_name : string;
  cls_serial : option (SerialClassOptions * SerialMap)
}.

(** The class once it has [__serial__]. *)
Definition static_of (target : Class) : option SerialStatic :=
  match cls_serial target with
  | Some (options, m) =>
      Some {| class_name := cls_name target; class_options := options; class_serial := m |}
  | None => None
  end.

(** [isSerializeableStatic] on a class that may have no [__serial__]. *)
Definition isSerializeableStatic_target (target : Class) : bool :=
  match static_of target with
  | Some c => isSerializeableStatic (class_type c)
  | None => false
  end.

(** The entries of [target.__serial__ || new Map()]. *)
Definition cls_entries (target : Class) : SerialMap :=
  match cls_serial target with
  | Some (_, m) => m
  | None => []
  end.

(** [serialClass(options)(target)], with [options] a
    [Partial<SerialClassOptions>]: the map is [target.__serial__ || new Map()],
    and [defaultOptions], then [options], are assigned onto it. *)
Definition _decorateSerialClass (options : option bool) (target : Class) : Class :=
  {| cls_name := cls_name target;
     cls_serial :=
       Some ({| opt_littleEndian := default (opt_littleEndian defaultOptions) options |},
             cls_entries target) |}.

Definition not_serializable (property name : string) : exn :=
  TypeError (dquote +:+ property +:+ dquote +:+ " on " +:+ name +:+ " is not serializable").

(** [serialMember(type, length)(_target, property)], where [_target] is
    the prototype of the class [target].  [value] is [_target[property]]:
    [Some K] for an object whose constructor is the class [K], [None] for
    [undefined] and for any other primitive value ([null] apart, on which
    [isSerializeable] itself throws).  The result is the class as the
    decorator leaves it, also when it throws. *)
Definition _decorateSerialMember (type : option SerialType) (length : option nat)
    (value : option Class) (property : string) (target : Class)
    : Class * completion unit :=
  let target :=
    if isSerializeableStatic_target target then target
    else _decorateSerialClass (Some (opt_littleEndian defaultOptions)) target in
  let inferred :=
    match type with
    | Some type => if isSerialType type then Some type else None
    | None => None
    end in
  let inferred :=
    match inferred with
    | Some type => Some type
    | None =>
        match value with
        | Some K =>
            if isSerializeableStatic_target K then class_type <$> static_of K else None
        | None => None
        end
    end in
  match inferred with
  | None => (target, Throw (not_serializable property (cls_name target)))
  | Some type =>
      let def := mkDef type (if is_set length then length else None) in
      ({| cls_name := cls_name target;
          cls_serial :=
            (fun serial => (serial.1, Map_set serial.2 property def)) <$> cls_serial target |},
       Normal tt)
  end.

(** The member decorators of a class body, in declaration order: each
    names a property, a type and an optional length, and finds nothing at
    the property on the prototype.  The first one that throws ends the
    definition of the class. *)
Fixpoint decorate_members (members : list (string * SerialDef)) (target : Class)
    : Class * completion unit :=
  match members with
  | [] => (target, Normal tt)
  | (property, mkDef type length) :: rest =>
      match _decorateSerialMember (Some type) length None property target with
      | (target', Normal _) => decorate_members rest target'
      | (target', Throw e) => (target', Throw e)
      end
  end.

(** ** Integers that wrap *)


(** ** Entries whose bytes and value determine each other *)

(** * Properties *)

(** ** Proof steps that come back *)

(** Run the guards at the head of the two loop bodies once the kind and the
    repeat count of the entry are known. *)
Ltac run_guards :=
  cbn [def_type def_length is_zero is_set is_string isSerialType isSerialPrimitive
       isSerializeable orb andb negb].

(** Unfold the size of an entry of known kind and repeat count. *)
Ltac field_size :=
  unfold spec_fieldSize;
  cbn [snd def_type def_length spec_elementWidth default from_option id].

Tactic Notation "field_size" "in" hyp(H) :=
  unfold spec_fieldSize in H;
  cbn [snd def_type def_length spec_elementWidth default from_option id] in H.

(** ** sizeof *)

Lemma sizeof_class_loop m acc :
  (fix loop (m : SerialMap) (size : nat) : completion nat :=
     match m with
     | [] => Normal size
     | (_, mkDef t len) :: rest =>
         match sizeof_type t with
         | Normal _size => loop rest (size + _size * default 1%nat len)%nat
         | Throw e => Throw e
         end
     end) m acc = sizeof_loop m acc.
Proof.
  revert acc. induction m as [|[k [t l]] rest IH]; intros acc.
  - reflexivity.
  - simpl. destruct (sizeof_type t); simpl; [apply IH | reflexivity].
Qed.

Lemma sizeof_type_class name le m :
  sizeof_type (TClass name le m)
  = if isSerialMap m then sizeof_loop m 0 else Throw (not_a_valid_type "Function").
Proof.
  cbn [sizeof_type]. destruct (isSerialMap m); [apply sizeof_class_loop | reflexivity].
Qed.

Lemma spec_elementWidth_class name le m :
  spec_elementWidth (TClass name le m) = spec_size m.
Proof.
  simpl. induction m as [|[k [t l]] rest IH]; [reflexivity|].
  unfold spec_size in *. simpl. rewrite IH. reflexivity.
Qed.

Lemma spec_size_cons k d rest :
  spec_size ((k, d) :: rest)
  = (spec_elementWidth (def_type d) * default 1 (def_length d) + spec_size rest)%nat.
Proof. reflexivity. Qed.

(** An entry that passes [isSerialDef] is numeric or text, and its [_size]
    is the element width of its kind. *)
Lemma sizeof_type_isSerialDef d :
  isSerialDef d = true ->
  sizeof_type (def_type d) = Normal (spec_elementWidth (def_type d)).
Proof. destruct d as [[p| |name le m|s] l]; (discriminate || reflexivity). Qed.

Lemma sizeof_loop_isSerialMap m acc :
  isSerialMap m = true -> sizeof_loop m acc = Normal (acc + spec_size m)%nat.
Proof.
  revert acc. induction m as [|[k d] rest IH]; intros acc Hm.
  - unfold spec_size. simpl. f_equal. lia.
  - cbn [isSerialMap forallb snd] in Hm. apply andb_prop in Hm as [Hd Hrest].
    cbn [sizeof_loop]. rewrite (sizeof_type_isSerialDef d Hd). cbn [bind].
    rewrite (IH _ Hrest), spec_size_cons. f_equal. lia.
Qed.

(** A map that passes [isSerialMap] is well formed; a nested entry makes a
    well-formed map fail it. *)
Lemma isSerialMap_well_formed m : isSerialMap m = true -> well_formed m = true.
Proof.
  unfold isSerialMap, well_formed. rewrite !forallb_forall.
  intros Hm [k d] Hin. specialize (Hm _ Hin). cbn [snd] in *.
  destruct d as [[p| |name le m'|s] l]; (discriminate || reflexivity).
Qed.

Lemma isSerialMap_class m key name le nested repeat :
  (key, mkDef (TClass name le nested) repeat) ∈ m -> isSerialMap m = false.
Proof.
  intros Hin. destruct (isSerialMap m) eqn:Hm; [|reflexivity].
  unfold isSerialMap in Hm. rewrite forallb_forall in Hm.
  apply list_elem_of_In in Hin. apply Hm in Hin. discriminate.
Qed.

Lemma isSerialMap_Permutation m m' :
  m ≡ₚ m' -> isSerialMap m = isSerialMap m'.
Proof.
  induction 1 as [|x l l' _ IH|x y l|l l' l'' _ IH1 _ IH2]; simpl.
  - reflexivity.
  - rewrite IH. reflexivity.
  - destruct (isSerialDef x.2), (isSerialDef y.2); reflexivity.
  - unfold isSerialMap in *. congruence.
Qed.

Lemma spec_size_app m1 m2 : spec_size (m1 ++ m2) = (spec_size m1 + spec_size m2)%nat.
Proof.
  induction m1 as [|[k d] rest IH]; [reflexivity|].
  rewrite <- app_comm_cons, !spec_size_cons, IH. lia.
Qed.

Lemma spec_size_Permutation m m' :
  m ≡ₚ m' -> spec_size m = spec_size m'.
Proof.
  induction 1 as [|[k d] l l' _ IH|[k1 d1] [k2 d2] l|l l' l'' _ IH1 _ IH2].
  - reflexivity.
  - rewrite !spec_size_cons, IH. reflexivity.
  - rewrite !spec_size_cons. lia.
  - congruence.
Qed.

(** [sizeof] on a class, on one of its instances and on the class as a
    type: the sum of the field sizes when the class passes
    [isSerializeableStatic]. *)
Lemma sizeof_isSerializeableStatic (c : SerialStatic) :
  isSerializeableStatic (class_type c) = true ->
  sizeof (OfStatic c) = Normal (spec_size (class_serial c))
  /\ (forall this, sizeof (OfInstance c this) = Normal (spec_size (class_serial c)))
  /\ sizeof (OfType (class_type c)) = Normal (spec_size (class_serial c)).
Proof.
  intros Hc. unfold class_type. cbn [sizeof]. fold (class_type c). rewrite Hc.
  cbn [isSerializeableStatic class_type] in Hc.
  rewrite (sizeof_loop_isSerialMap _ 0 Hc). repeat split.
Qed.

(** X1.  The fields of numeric and text kinds: [sizeof] returns the sum over
    the fields of [elementWidth(kind) * (repeat ?? 1)]; and a class with the
    same fields in another order has the same [sizeof], whatever the
    fields. *)
Lemma sizeof_additive_order_independent (c c' : SerialStatic) :
  class_serial c ≡ₚ class_serial c' ->
  (isSerializeableStatic (class_type c) = true ->
   sizeof (OfStatic c) = Normal (spec_size (class_serial c)))
  /\ sizeof (OfStatic c') = sizeof (OfStatic c).
Proof.
  intros Hperm. split; [intros Hc; apply (sizeof_isSerializeableStatic c Hc)|].
  cbn [sizeof isSerializeableStatic class_type].
  rewrite <- (isSerialMap_Permutation _ _ Hperm).
  destruct (isSerialMap (class_serial c)) eqn:Hc; [|reflexivity].
  rewrite (sizeof_loop_isSerialMap _ 0 Hc).
  rewrite sizeof_loop_isSerialMap by (rewrite <- (isSerialMap_Permutation _ _ Hperm); exact Hc).
  rewrite (spec_size_Permutation _ _ Hperm). reflexivity.
Qed.

Lemma sizeof_OfStatic_Normal (c : SerialStatic) n :
  sizeof (OfStatic c) = Normal n ->
  isSerialMap (class_serial c) = true /\ sizeof_loop (class_serial c) 0 = Normal n.
Proof.
  cbn [sizeof isSerializeableStatic class_type].
  destruct (isSerialMap (class_serial c)); [intros H; split; [reflexivity|exact H]|discriminate].
Qed.

(** A class with an entry whose type is a class does not pass
    [isSerializeableStatic], and [sizeof] throws on it and on its
    instances that have no property [type]. *)
Lemma sizeof_class_entry (c : SerialStatic) key name le nested repeat :
  (key, mkDef (TClass name le nested) repeat) ∈ class_serial c ->
  sizeof (OfStatic c) = Throw (not_a_valid_type "Function")
  /\ (forall this, this !! "type" = None ->
      sizeof (OfInstance c this) = Throw (not_a_valid_type (class_name c))).
Proof.
  intros Hin. cbn [sizeof isSerializeableStatic class_type].
  rewrite (isSerialMap_class _ _ _ _ _ _ Hin). split; [reflexivity|].
  intros this Hthis. unfold SerialDef_of_instance, get_property. rewrite Hthis. reflexivity.
Qed.

(** ** Bytes and numbers *)

Lemma length_le_bytes w z : length (le_bytes w z) = w.
Proof. revert z. induction w as [|w IH]; intros z; simpl; [reflexivity|]. rewrite IH. reflexivity. Qed.

Lemma le_value_le_bytes w z : le_value (le_bytes w z) = z mod 256 ^ Z.of_nat w.
Proof.
  revert z. induction w as [|w IH]; intros z.
  - simpl. rewrite Z.mod_1_r. reflexivity.
  - cbn [le_bytes le_value]. rewrite IH, Nat2Z.inj_succ, Z.pow_succ_r by lia.
    rewrite Z.rem_mul_r by lia. reflexivity.
Qed.

Lemma signed_mod bits z :
  0 < bits -> - 2 ^ (bits - 1) <= z < 2 ^ (bits - 1) -> signed bits (z mod 2 ^ bits) = z.
Proof.
  intros Hb Hz. unfold signed.
  assert (Hp : 2 ^ bits = 2 * 2 ^ (bits - 1)).
  { rewrite <- Z.pow_succ_r by lia. f_equal. lia. }
  destruct (Z.ltb_spec (z mod 2 ^ bits) (2 ^ (bits - 1))) as [Hlt|Hge].
  - destruct (Z.neg_nonneg_cases z) as [Hneg|Hpos].
    + rewrite <- (Z.mod_add z 1) in Hlt by lia. rewrite Z.mod_small in Hlt by lia. lia.
    + apply Z.mod_small. lia.
  - destruct (Z.neg_nonneg_cases z) as [Hneg|Hpos].
    + rewrite <- (Z.mod_add z 1) by lia. rewrite Z.mod_small by lia. lia.
    + rewrite Z.mod_small in Hge by lia. lia.
Qed.

Lemma digits2_pos_bounds p :
  2 ^ (Zpos (digits2_pos p) - 1) <= Zpos p < 2 ^ Zpos (digits2_pos p).
Proof.
  induction p as [p IH|p IH|]; cbn [digits2_pos].
  - rewrite Pos2Z.inj_succ. replace (Z.succ (Zpos (digits2_pos p)) - 1) with (Z.succ (Zpos (digits2_pos p) - 1)) by lia.
    rewrite !Z.pow_succ_r by lia. lia.
  - rewrite Pos2Z.inj_succ. replace (Z.succ (Zpos (digits2_pos p)) - 1) with (Z.succ (Zpos (digits2_pos p) - 1)) by lia.
    rewrite !Z.pow_succ_r by lia. lia.
  - simpl. lia.
Qed.

Lemma iter_xO_spec k p : Zpos (Pos.iter xO p k) = Zpos p * 2 ^ Zpos k.
Proof.
  induction k as [|k IH] using Pos.peano_ind.
  - simpl. lia.
  - rewrite Pos.iter_succ, Pos2Z.inj_xO, IH, Pos2Z.inj_succ, Z.pow_succ_r by lia. lia.
Qed.

Lemma digits2_pos_iter_xO k p :
  Zpos (digits2_pos (Pos.iter xO p k)) = Zpos (digits2_pos p) + Zpos k.
Proof.
  induction k as [|k IH] using Pos.peano_ind.
  - simpl. lia.
  - rewrite Pos.iter_succ. cbn [digits2_pos]. lia.
Qed.


Lemma binary_round_aux_canonical prec emax s m e :
  fexp prec emax (Zpos (digits2_pos m) + e) = e ->
  e <= emax - prec ->
  binary_round_aux prec emax s (Zpos m) e loc_Exact = S754_finite s m e.
Proof.
  intros Hc He. unfold binary_round_aux, shr_fexp. cbn [Zdigits2].
  rewrite Hc, Z.sub_diag.
  cbn [shr shr_record_of_loc shr_m loc_of_shr_record round_nearest_even Zdigits2].
  rewrite Hc, Z.sub_diag. cbn [shr shr_m].
  destruct (Z.leb_spec e (emax - prec)); [reflexivity|lia].
Qed.

(** A positive integer below 2^53 normalizes to a 53-digit mantissa. *)
Lemma binary_round_integer s p :
  Zpos p < 2 ^ 53 ->
  exists m e, binary_round 53 1024 s p 0 = S754_finite s m e
    /\ e <= 0 /\ Zpos m = Zpos p * 2 ^ (- e).
Proof.
  intros Hp.
  pose proof (digits2_pos_bounds p) as [Hlo Hhi].
  assert (Hd : Zpos (digits2_pos p) <= 53).
  { destruct (Z.le_gt_cases (Zpos (digits2_pos p)) 53) as [H|H]; [exact H|].
    exfalso. assert (2 ^ 53 <= 2 ^ (Zpos (digits2_pos p) - 1)) by (apply Z.pow_le_mono_r; lia). lia. }
  unfold binary_round, shl_align.
  assert (Hf : fexp 53 1024 (Zpos (digits2_pos p) + 0) = Zpos (digits2_pos p) - 53).
  { unfold fexp, emin. lia. }
  rewrite Hf.
  destruct (Zpos (digits2_pos p) - 53 - 0) as [|d|d] eqn:Ed; try lia.
  - exists p, 0. split; [|split; [lia|simpl; lia]].
    apply binary_round_aux_canonical; [|lia]. rewrite Hf. lia.
  - exists (Pos.iter xO p d), (Zpos (digits2_pos p) - 53).
    split; [|split; [lia|]].
    + apply binary_round_aux_canonical; [|lia].
      rewrite digits2_pos_iter_xO. unfold fexp, emin. lia.
    + rewrite iter_xO_spec. f_equal. f_equal. lia.
Qed.

Lemma truncate_number_of_Z z :
  - 2 ^ 53 < z < 2 ^ 53 -> truncate (number_of_Z z) = z.
Proof.
  intros Hz. unfold number_of_Z, binary_normalize.
  destruct z as [|p|p].
  - reflexivity.
  - destruct (binary_round_integer false p) as (m & e & -> & He & Hm); [lia|].
    cbn [truncate cond_Zopp]. rewrite Hm.
    rewrite Z.shiftl_div_pow2 by lia. rewrite Z.div_mul; [reflexivity|].
    apply Z.pow_nonzero; lia.
  - destruct (binary_round_integer true p) as (m & e & -> & He & Hm); [lia|].
    cbn [truncate cond_Zopp]. rewrite Hm.
    rewrite Z.shiftl_div_pow2 by lia. rewrite Z.div_mul; [reflexivity|].
    apply Z.pow_nonzero; lia.
Qed.


(** ** Bit patterns *)

Section Binary_roundtrip.
Variables mw ew : Z.
Hypothesis Hmw : 0 < mw.
Hypothesis Hew : 1 < ew.

Let prec := mw + 1.
Let emax := 2 ^ (ew - 1).

Lemma two_emax : 2 ^ ew = 2 * emax.
Proof. unfold emax. rewrite <- Z.pow_succ_r by lia. f_equal. lia. Qed.

Lemma split_join_bits s e m :
  0 <= m < 2 ^ mw -> 0 <= e < 2 ^ ew ->
  join_bits mw ew s e m mod 2 ^ mw = m
  /\ (join_bits mw ew s e m / 2 ^ mw) mod 2 ^ ew = e
  /\ ((join_bits mw ew s e m / 2 ^ (mw + ew)) mod 2 =? 1) = s.
Proof.
  intros Hm He. unfold join_bits.
  assert (Hpm : 0 < 2 ^ mw) by (apply Z.pow_pos_nonneg; lia).
  assert (Hpe : 0 < 2 ^ ew) by (apply Z.pow_pos_nonneg; lia).
  set (sb := if s then 1 else 0).
  assert (Hsb : 0 <= sb <= 1) by (subst sb; destruct s; lia).
  assert (H1 : ((sb * 2 ^ ew + e) * 2 ^ mw + m) mod 2 ^ mw = m).
  { rewrite Z.add_comm, Z.mod_add by lia. apply Z.mod_small. lia. }
  assert (H2 : ((sb * 2 ^ ew + e) * 2 ^ mw + m) / 2 ^ mw = sb * 2 ^ ew + e).
  { rewrite Z.add_comm, Z.div_add by lia. rewrite Z.div_small by lia. lia. }
  assert (H3 : (sb * 2 ^ ew + e) mod 2 ^ ew = e).
  { rewrite Z.add_comm, Z.mod_add by lia. apply Z.mod_small. lia. }
  assert (H4 : (sb * 2 ^ ew + e) / 2 ^ ew = sb).
  { rewrite Z.add_comm, Z.div_add by lia. rewrite Z.div_small by lia. lia. }
  rewrite Z.pow_add_r by lia. rewrite <- Z.div_div by lia.
  rewrite H1, H2, H3, H4.
  repeat split. subst sb. destruct s; reflexivity.
Qed.

Lemma join_bits_range s e m :
  0 <= m < 2 ^ mw -> 0 <= e < 2 ^ ew ->
  0 <= join_bits mw ew s e m < 2 ^ (mw + ew + 1).
Proof.
  intros Hm He. unfold join_bits.
  rewrite Z.pow_add_r, Z.pow_add_r, Z.pow_1_r by lia.
  assert (Hpm : 0 < 2 ^ mw) by (apply Z.pow_pos_nonneg; lia).
  assert (Hpe : 0 < 2 ^ ew) by (apply Z.pow_pos_nonneg; lia).
  destruct s; nia.
Qed.

(** The fields of the pattern of a valid float are in range. *)
Lemma bits_of_float_fields x :
  valid_binary prec emax x = true ->
  exists s e m, bits_of_float mw ew x = join_bits mw ew s e m
    /\ 0 <= m < 2 ^ mw /\ 0 <= e < 2 ^ ew
    /\ float_of_bits mw ew (join_bits mw ew s e m) = x.
Proof.
  intros Hv.
  assert (Hpm : 0 < 2 ^ mw) by (apply Z.pow_pos_nonneg; lia).
  assert (Hpm1 : 0 < 2 ^ (mw - 1)) by (apply Z.pow_pos_nonneg; lia).
  assert (Hpm2 : 2 ^ mw = 2 * 2 ^ (mw - 1)).
  { rewrite <- Z.pow_succ_r by lia. f_equal. lia. }
  assert (Hpe : 2 <= emax) by (unfold emax; change 2 with (2 ^ 1) at 1; apply Z.pow_le_mono_r; lia).
  pose proof two_emax as H2e.
  destruct x as [s|s| |s m e]; cbn [bits_of_float].
  - exists s, 0, 0. repeat split; try lia.
    unfold float_of_bits.
    destruct (split_join_bits s 0 0) as (-> & -> & ->); [lia|lia|]. reflexivity.
  - exists s, (2 ^ ew - 1), 0. repeat split; try lia.
    unfold float_of_bits.
    destruct (split_join_bits s (2 ^ ew - 1) 0) as (-> & -> & ->); [lia|lia|].
    destruct (Z.eqb_spec (2 ^ ew - 1) 0); [lia|]. rewrite Z.eqb_refl. reflexivity.
  - exists false, (2 ^ ew - 1), (2 ^ (mw - 1)). repeat split; try lia.
    unfold float_of_bits.
    destruct (split_join_bits false (2 ^ ew - 1) (2 ^ (mw - 1))) as (-> & -> & ->); [lia|lia|].
    destruct (Z.eqb_spec (2 ^ ew - 1) 0); [lia|]. rewrite Z.eqb_refl.
    destruct (Z.eqb_spec (2 ^ (mw - 1)) 0); [lia|]. reflexivity.
  - cbn [valid_binary] in Hv. unfold bounded, canonical_mantissa in Hv.
    apply andb_prop in Hv as [Hc Hb].
    apply Z.eqb_eq in Hc. apply Z.leb_le in Hb.
    pose proof (digits2_pos_bounds m) as [Hlo Hhi].
    fold prec emax. unfold fexp in Hc. fold prec emax in Hc.
    destruct (Z.ltb_spec (Zpos m) (2 ^ mw)) as [Hsub|Hnorm].
    + (* subnormal *)
      assert (Hd : Zpos (digits2_pos m) <= mw).
      { destruct (Z.le_gt_cases (Zpos (digits2_pos m)) mw) as [H|H]; [exact H|].
        exfalso. assert (2 ^ mw <= 2 ^ (Zpos (digits2_pos m) - 1)) by (apply Z.pow_le_mono_r; lia). lia. }
      assert (He : e = emin prec emax) by (unfold prec in *; lia).
      exists s, 0, (Zpos m). repeat split; try lia.
      unfold float_of_bits.
      destruct (split_join_bits s 0 (Zpos m)) as (-> & -> & ->); [lia|lia|].
      rewrite Z.eqb_refl. fold prec emax. rewrite He. reflexivity.
    + (* normal *)
      assert (Hd : Zpos (digits2_pos m) = prec).
      { destruct (Z.lt_trichotomy (Zpos (digits2_pos m)) prec) as [H|[H|H]].
        - exfalso. assert (2 ^ Zpos (digits2_pos m) <= 2 ^ mw) by (apply Z.pow_le_mono_r; unfold prec in *; lia). lia.
        - exact H.
        - exfalso. unfold emin in Hc. lia. }
      assert (Hm : Zpos m < 2 * 2 ^ mw).
      { rewrite Hd in Hhi. unfold prec in Hhi. rewrite Z.pow_add_r, Z.pow_1_r in Hhi by lia. lia. }
      assert (Hemin : emin prec emax <= e) by lia.
      unfold emin in Hemin |- *. 
      exists s, (e - (3 - emax - prec) + 1), (Zpos m - 2 ^ mw). repeat split; try lia.
      unfold float_of_bits.
      destruct (split_join_bits s (e - (3 - emax - prec) + 1) (Zpos m - 2 ^ mw)) as (-> & -> & ->); [lia|lia|].
      destruct (Z.eqb_spec (e - (3 - emax - prec) + 1) 0); [lia|].
      destruct (Z.eqb_spec (e - (3 - emax - prec) + 1) (2 ^ ew - 1)); [lia|].
      replace (Zpos m - 2 ^ mw + 2 ^ mw) with (Zpos m) by lia.
      fold prec emax. unfold emin. f_equal. lia.
Qed.

Lemma float_of_bits_of_float x :
  valid_binary prec emax x = true ->
  float_of_bits mw ew (bits_of_float mw ew x) = x.
Proof.
  intros Hv. destruct (bits_of_float_fields x Hv) as (s & e & m & -> & _ & _ & H). exact H.
Qed.

Lemma bits_of_float_range x :
  valid_binary prec emax x = true ->
  0 <= bits_of_float mw ew x < 2 ^ (mw + ew + 1).
Proof.
  intros Hv. destruct (bits_of_float_fields x Hv) as (s & e & m & -> & Hm & He & _).
  apply join_bits_range; assumption.
Qed.
End Binary_roundtrip.

(** ** Widening a binary32 value and rounding it back *)

Lemma iter_pos_iter {A} (f : A -> A) n x : SpecFloat.iter_pos f n x = Pos.iter f x n.
Proof.
  revert x. induction n as [n IH|n IH|]; intros x; cbn [SpecFloat.iter_pos Pos.iter].
  - rewrite !IH. rewrite <- !Pos.iter_swap. reflexivity.
  - rewrite !IH. reflexivity.
  - reflexivity.
Qed.

Lemma iter_shr_1_shifted k m :
  SpecFloat.iter_pos shr_1 k {| shr_m := Zpos (Pos.iter xO m k); shr_r := false; shr_s := false |}
  = {| shr_m := Zpos m; shr_r := false; shr_s := false |}.
Proof.
  rewrite iter_pos_iter. revert m.
  induction k as [|k IH] using Pos.peano_ind; intros m.
  - reflexivity.
  - rewrite (Pos.iter_succ k _ xO).
    rewrite Pos.iter_succ, <- Pos.iter_swap.
    cbn [shr_1 orb]. apply IH.
Qed.

Lemma round_to_binary32_widened y :
  valid_binary 24 128 y = true ->
  round_to 24 128 (round_to 53 1024 y) = y.
Proof.
  intros Hv. destruct y as [s|s| |s m e]; try reflexivity.
  cbn [valid_binary] in Hv. unfold bounded, canonical_mantissa in Hv.
  apply andb_prop in Hv as [Hc Hb]. apply Z.eqb_eq in Hc. apply Z.leb_le in Hb.
  pose proof (digits2_pos_bounds m) as [Hlo Hhi].
  assert (Hd : Zpos (digits2_pos m) <= 24 /\ -149 <= e).
  { unfold fexp, emin in Hc. lia. }
  destruct Hd as [Hd He].
  change (round_to 53 1024 (S754_finite s m e)) with (binary_round 53 1024 s m e).
  unfold binary_round, shl_align.
  assert (Hf : fexp 53 1024 (Zpos (digits2_pos m) + e) = Zpos (digits2_pos m) + e - 53).
  { unfold fexp, emin. lia. }
  rewrite Hf.
  destruct (Zpos (digits2_pos m) + e - 53 - e) as [|k|k] eqn:Ek; try lia.
  rewrite binary_round_aux_canonical.
  2:{ rewrite digits2_pos_iter_xO. unfold fexp, emin. lia. }
  2:{ lia. }
  cbn [round_to]. unfold binary_round, shl_align.
  rewrite digits2_pos_iter_xO.
  replace (Zpos (digits2_pos m) + Zpos k + (Zpos (digits2_pos m) + e - 53))
    with (Zpos (digits2_pos m) + e) by lia.
  rewrite Hc.
  destruct (e - (Zpos (digits2_pos m) + e - 53)) as [|k'|k'] eqn:Ek'; try lia.
  assert (k' = k) by lia. subst k'.
  unfold binary_round_aux, shr_fexp. cbn [Zdigits2].
  rewrite digits2_pos_iter_xO.
  replace (Zpos (digits2_pos m) + Zpos k + (Zpos (digits2_pos m) + e - 53))
    with (Zpos (digits2_pos m) + e) by lia.
  rewrite Hc, Ek'. cbn [shr shr_record_of_loc].
  rewrite iter_shr_1_shifted.
  cbn [shr_m loc_of_shr_record round_nearest_even Zdigits2 shr_record_of_loc].
  replace (Zpos (digits2_pos m) + e - 53 + Zpos k) with e by lia.
  rewrite Hc, Z.sub_diag. cbn [shr shr_m].
  destruct (Z.leb_spec e (128 - 24)); [reflexivity|lia].
Qed.

Lemma length_raw_bytes w z le : length (raw_bytes w z le) = w.
Proof. unfold raw_bytes. destruct le; [|rewrite length_rev]; apply length_le_bytes. Qed.

Lemma raw_value_raw_bytes w z le :
  raw_value (raw_bytes w z le) le = z mod 256 ^ Z.of_nat w.
Proof.
  unfold raw_value, raw_bytes. destruct le; [|rewrite rev_involutive]; apply le_value_le_bytes.
Qed.

Lemma length_NumericToRawBytes type v le bs :
  NumericToRawBytes type v le = Normal bs -> length bs = primitive_size type.
Proof.
  destruct type; cbn [NumericToRawBytes primitive_size];
    (destruct v as [[n|z]|]; cbn [ToNumber ToBigInt bind]; intros H; inversion H;
     apply length_raw_bytes).
Qed.

(** A value of the domain of a kind is written and read back unchanged,
    in either byte order. *)
Lemma numeric_roundtrip type v le :
  in_domain type v ->
  exists bs, NumericToRawBytes type (numeric_of_value v) le = Normal bs
    /\ RawBytesToNumeric type bs le = v.
Proof.
  destruct type; cbn [in_domain]; intros (z & Hz & ->);
    cbn [numeric_of_value NumericToRawBytes ToNumber ToBigInt bind primitive_size];
    eexists; (split; [reflexivity|]);
    cbn [RawBytesToNumeric]; rewrite raw_value_raw_bytes.
  1-6: rewrite truncate_number_of_Z by lia.
  - change (256 ^ Z.of_nat 1) with (2 ^ 8). rewrite signed_mod by lia. reflexivity.
  - change (256 ^ Z.of_nat 1) with (2 ^ 8). rewrite Z.mod_small by lia. reflexivity.
  - change (256 ^ Z.of_nat 2) with (2 ^ 16). rewrite signed_mod by lia. reflexivity.
  - change (256 ^ Z.of_nat 2) with (2 ^ 16). rewrite Z.mod_small by lia. reflexivity.
  - change (256 ^ Z.of_nat 4) with (2 ^ 32). rewrite signed_mod by lia. reflexivity.
  - change (256 ^ Z.of_nat 4) with (2 ^ 32). rewrite Z.mod_small by lia. reflexivity.
  - change (256 ^ Z.of_nat 8) with (2 ^ 64). rewrite signed_mod by lia. reflexivity.
  - change (256 ^ Z.of_nat 8) with (2 ^ 64). rewrite Z.mod_small by lia. reflexivity.
  - rewrite round_to_binary32_widened by exact Hz.
    change (256 ^ Z.of_nat 4) with (2 ^ (23 + 8 + 1)).
    rewrite Z.mod_small by (apply bits_of_float_range; [lia|lia|exact Hz]).
    rewrite float_of_bits_of_float by (lia || exact Hz). reflexivity.
  - change (256 ^ Z.of_nat 8) with (2 ^ (52 + 11 + 1)).
    rewrite Z.mod_small by (apply bits_of_float_range; [lia|lia|exact Hz]).
    rewrite float_of_bits_of_float by (lia || exact Hz). reflexivity.
Qed.

(** ** Writes stay inside the slot of their field *)

Lemma length_write_bytes buffer offset bs :
  (offset + length bs <= length buffer)%nat ->
  length (write_bytes buffer offset bs) = length buffer.
Proof.
  intros H. unfold write_bytes. rewrite !length_app, length_take, length_drop. lia.
Qed.

Lemma write_bytes_frame pre slot post k bs :
  (k + length bs <= length slot)%nat ->
  write_bytes (pre ++ slot ++ post) (length pre + k) bs
  = pre ++ write_bytes slot k bs ++ post.
Proof.
  intros H. unfold write_bytes.
  rewrite take_app_add, (take_app_le slot) by lia.
  rewrite <- Nat.add_assoc, drop_app_add, (drop_app_le slot) by lia.
  rewrite <- !app_assoc. reflexivity.
Qed.

Lemma DataView_set_length type buffer offset v le buffer' :
  DataView_set type buffer offset v le = Normal buffer' ->
  length buffer' = length buffer.
Proof.
  unfold DataView_set. destruct (NumericToRawBytes type v le) as [bs|] eqn:E; [|discriminate].
  cbn [bind]. apply length_NumericToRawBytes in E.
  destruct (Nat.ltb_spec (length buffer) (offset + primitive_size type)); [discriminate|].
  intros [= <-]. apply length_write_bytes. lia.
Qed.

Lemma DataView_set_frame type pre slot post k v le :
  (k + primitive_size type <= length slot)%nat ->
  DataView_set type (pre ++ slot ++ post) (length pre + k) v le
  = (slot' <- DataView_set type slot k v le; Normal (pre ++ slot' ++ post)).
Proof.
  intros H. unfold DataView_set.
  destruct (NumericToRawBytes type v le) as [bs|] eqn:E; [|reflexivity].
  cbn [bind]. apply length_NumericToRawBytes in E.
  rewrite !length_app.
  destruct (Nat.ltb_spec (length pre + (length slot + length post))
              (length pre + k + primitive_size type)); [lia|].
  destruct (Nat.ltb_spec (length slot) (k + primitive_size type)); [lia|].
  cbn [bind]. rewrite write_bytes_frame by lia. reflexivity.
Qed.

Lemma set_floats_length type buffer offset stride arrayData i n buffer' :
  set_floats type buffer offset stride arrayData i n = Normal buffer' ->
  length buffer' = length buffer.
Proof.
  revert buffer i. induction n as [|n IH]; intros buffer i; cbn [set_floats].
  - intros [= <-]. reflexivity.
  - destruct (DataView_set type buffer (offset + i * stride) (arrayData !! i) false)
      as [b|] eqn:E; [|discriminate].
    cbn [bind]. intros H. apply IH in H. apply DataView_set_length in E. lia.
Qed.

Lemma set_floats_frame type pre slot post arrayData i n :
  ((i + n) * primitive_size type <= length slot)%nat ->
  set_floats type (pre ++ slot ++ post) (length pre) (primitive_size type) arrayData i n
  = (slot' <- set_floats type slot 0 (primitive_size type) arrayData i n;
     Normal (pre ++ slot' ++ post)).
Proof.
  revert slot i. induction n as [|n IH]; intros slot i H; cbn [set_floats].
  - reflexivity.
  - rewrite DataView_set_frame by lia. cbn [Nat.add].
    destruct (DataView_set type slot (i * primitive_size type) (arrayData !! i) false)
      as [slot1|] eqn:E; [|reflexivity].
    cbn [bind]. apply DataView_set_length in E.
    rewrite IH by lia. reflexivity.
Qed.

Lemma set_elements_length data src offset data' :
  set_elements data src offset = Normal data' -> length data' = length data.
Proof.
  revert data offset. induction src as [|el rest IH]; intros data offset; cbn [set_elements].
  - intros [= <-]. reflexivity.
  - destruct (ToNumber (Some el)) as [n|]; [|discriminate]. cbn [bind].
    intros H. apply IH in H. rewrite length_insert in H. exact H.
Qed.

Lemma set_elements_frame pre slot post src k :
  (k + length src <= length slot)%nat ->
  set_elements (pre ++ slot ++ post) src (length pre + k)
  = (slot' <- set_elements slot src k; Normal (pre ++ slot' ++ post)).
Proof.
  revert slot k. induction src as [|el rest IH]; intros slot k H; cbn [set_elements].
  - reflexivity.
  - destruct (ToNumber (Some el)) as [n|]; [|reflexivity]. cbn [bind].
    cbn [length] in H.
    rewrite insert_app_r, insert_app_l by lia.
    replace (S (length pre + k)) with (length pre + S k)%nat by lia.
    rewrite IH by (rewrite length_insert; lia). reflexivity.
Qed.

Lemma Uint8Array_set_length data src offset data' :
  Uint8Array_set data src offset = Normal data' -> length data' = length data.
Proof.
  unfold Uint8Array_set. destruct (_ <? _)%nat; [discriminate|]. apply set_elements_length.
Qed.

Lemma Uint8Array_set_frame pre slot post src :
  (length src <= length slot)%nat ->
  Uint8Array_set (pre ++ slot ++ post) src (length pre)
  = (slot' <- Uint8Array_set slot src 0; Normal (pre ++ slot' ++ post)).
Proof.
  intros H. unfold Uint8Array_set. rewrite !length_app.
  destruct (Nat.ltb_spec (length pre + (length slot + length post))
              (length src + length pre)); [lia|].
  destruct (Nat.ltb_spec (length slot) (length src + 0)); [lia|].
  pose proof (set_elements_frame pre slot post src 0) as Hf.
  rewrite Nat.add_0_r in Hf. apply Hf. lia.
Qed.

Lemma DataView_set_frame0 type pre slot post v le :
  (primitive_size type <= length slot)%nat ->
  DataView_set type (pre ++ slot ++ post) (length pre) v le
  = (slot' <- DataView_set type slot 0 v le; Normal (pre ++ slot' ++ post)).
Proof.
  intros H. pose proof (DataView_set_frame type pre slot post 0 v le) as Hf.
  rewrite Nat.add_0_r in Hf. apply Hf. lia.
Qed.

Lemma primitive_size_pos type : (0 < primitive_size type)%nat.
Proof. destruct type; cbn; lia. Qed.

(** [sizeof(def)] succeeds on numeric and text entries only. *)
Lemma sizeof_OfDef_Normal def size :
  sizeof (OfDef def) = Normal size ->
  (exists p, def_type def = TPrim p
             /\ size = (primitive_size p * default 1 (def_length def))%nat)
  \/ (def_type def = TString /\ size = default 1%nat (def_length def)).
Proof.
  destruct def as [[p| |name le m|s] len]; cbn; intros H; try discriminate.
  - left. exists p. split; [reflexivity|]. inversion H. reflexivity.
  - right. split; [reflexivity|]. inversion H. lia.
Qed.

Lemma serialize_member_frame h name this pre slot post key def :
  sizeof (OfDef def) = Normal (length slot) ->
  serialize_member h name this (pre ++ slot ++ post) (length pre) key def
  = (r <- serialize_member h name this slot 0 key def;
     Normal (pre ++ r.1 ++ post, r.2)).
Proof.
  intros Hsize. unfold serialize_member. rewrite Hsize. cbn [bind].
  apply sizeof_OfDef_Normal in Hsize as [(p & Ht & Hs)|[Ht Hs]];
    destruct def as [t [[|len]|]]; cbn [def_type def_length default from_option id] in *;
    subst t;
    cbn [is_zero is_set is_string isSerialType isSerialPrimitive isSerializeable
         negb orb andb]; try reflexivity.
  - (* repeated numeric *)
    destruct (negb (isArray (get_property this key))); [reflexivity|].
    destruct (flatMap _ _) as [arrayData|]; [|reflexivity]. cbn [bind].
    assert (Hdiv : (length slot / S len = primitive_size p)%nat).
    { rewrite Hs. apply Nat.div_mul. lia. }
    assert (Hfl : forall q, q = p ->
      (data' <- set_floats q (pre ++ slot ++ post) (length pre) (length slot / S len)
                  (take (length slot) arrayData) 0 (S len);
       Normal (data', length slot))
      = (r <- (data' <- set_floats q slot 0 (length slot / S len)
                           (take (length slot) arrayData) 0 (S len);
               Normal (data', length slot));
         Normal (pre ++ r.1 ++ post, r.2))).
    { intros q ->. rewrite Hdiv, set_floats_frame by (rewrite Hs; cbn [Nat.add]; nia).
      destruct (set_floats p slot 0 _ _ 0 (S len)); reflexivity. }
    assert (Hu :
      (data' <- Uint8Array_set (pre ++ slot ++ post) (take (length slot) arrayData) (length pre);
       Normal (data', length slot))
      = (r <- (data' <- Uint8Array_set slot (take (length slot) arrayData) 0;
               Normal (data', length slot));
         Normal (pre ++ r.1 ++ post, r.2))).
    { rewrite Uint8Array_set_frame by (rewrite length_take; lia).
      destruct (Uint8Array_set slot _ 0); reflexivity. }
    destruct p; first [exact Hu | apply Hfl; reflexivity].
  - (* scalar numeric *)
    destruct (negb _); [reflexivity|].
    destruct (get_property this key); try reflexivity;
      (rewrite DataView_set_frame0 by lia;
       destruct (DataView_set p slot 0 _ false); reflexivity).
  - (* text *)
    destruct (negb (js_type_eqb _ _)); [reflexivity|].
    rewrite andb_false_r.
    destruct (flatMap _ _) as [arrayData|]; [|reflexivity]. cbn [bind].
    rewrite Uint8Array_set_frame by (rewrite length_take; lia).
    destruct (Uint8Array_set slot _ 0); reflexivity.
  - destruct (negb (js_type_eqb _ _)); reflexivity.
Qed.

(** ** serialize as the concatenation of the bytes of its entries *)

Lemma serialize_member_Normal h name this data offset key def r :
  serialize_member h name this data offset key def = Normal r ->
  sizeof (OfDef def) = Normal r.2 /\ length r.1 = length data.
Proof.
  unfold serialize_member.
  destruct (sizeof (OfDef def)) as [size|] eqn:Hsize; [|discriminate]. cbn [bind].
  destruct (is_zero (def_length def)); [discriminate|].
  destruct (negb (isSerialType (def_type def))); [discriminate|].
  destruct (is_string (def_type def) && _); [discriminate|].
  destruct (is_set (def_length def) && _ && _); [discriminate|].
  assert (Hscalar : forall p,
    (if negb (js_type_eqb (typeof (get_property this key)) (serialPrimitiveValue p))
     then Throw (TypeError (serialize_prefix key name +:+ "Value is not a "
                            +:+ js_type_name (serialPrimitiveValue p)))
     else match get_property this key with
          | VNumber n =>
              data' <- DataView_set p data offset (Some (Num n)) false; Normal (data', size)
          | VBigInt z =>
              data' <- DataView_set p data offset (Some (Big z)) false; Normal (data', size)
          | _ => Throw (TypeError (serialize_prefix key name +:+ "Value is not a "
                                   +:+ js_type_name (serialPrimitiveValue p)))
          end) = Normal r -> Normal size = Normal r.2 /\ length r.1 = length data).
  { intros p. destruct (negb _); [discriminate|].
    destruct (get_property this key); try discriminate;
      (destruct (DataView_set p data offset _ false) as [d|] eqn:E; [|discriminate];
       cbn [bind]; intros [= <-]; split; [reflexivity|];
       apply DataView_set_length in E; exact E). }
  assert (Hu : forall arrayData,
    (data' <- Uint8Array_set data arrayData offset; Normal (data', size)) = Normal r ->
    Normal size = Normal r.2 /\ length r.1 = length data).
  { intros a. destruct (Uint8Array_set data a offset) as [d|] eqn:E; [|discriminate].
    cbn [bind]. intros [= <-]. split; [reflexivity|].
    apply Uint8Array_set_length in E. exact E. }
  assert (Hf : forall p stride arrayData n,
    (data' <- set_floats p data offset stride arrayData 0 n; Normal (data', size)) = Normal r ->
    Normal size = Normal r.2 /\ length r.1 = length data).
  { intros p stride a n. destruct (set_floats p data offset stride a 0 n) as [d|] eqn:E; [|discriminate].
    cbn [bind]. intros [= <-]. split; [reflexivity|].
    apply set_floats_length in E. exact E. }
  destruct (def_length def) as [[|len]|]; destruct (def_type def) as [p| |cn le m|s];
    try discriminate; try apply Hscalar;
    (destruct (flatMap _ _) as [arrayData|]; [|discriminate]; cbn [bind]);
    try apply Hu.
  destruct p; first [apply Hu | apply Hf].
Qed.

Lemma sizeof_loop_acc m acc :
  sizeof_loop m acc = (n <- sizeof_loop m 0; Normal (acc + n)%nat).
Proof.
  revert acc. induction m as [|[k d] rest IH]; intros acc; cbn [sizeof_loop].
  - cbn. f_equal. lia.
  - destruct (sizeof_type (def_type d)) as [w|]; [|reflexivity]. cbn [bind].
    rewrite IH. rewrite (IH (0 + _)%nat).
    destruct (sizeof_loop rest 0) as [n|]; [|reflexivity]. cbn. f_equal. lia.
Qed.

Lemma sizeof_OfDef_serial def :
  isSerialDef def = true ->
  sizeof (OfDef def)
  = (w <- sizeof_type (def_type def); Normal (w * default 1 (def_length def))%nat).
Proof.
  intros H. cbn [sizeof]. rewrite H. cbn [sizeof_loop].
  destruct (sizeof_type (def_type def)); reflexivity.
Qed.

Lemma serialize_member_not_serial h name this data offset key def :
  isSerialDef def = false ->
  serialize_member h name this data offset key def = Throw (not_a_valid_type "Object").
Proof. intros H. unfold serialize_member. cbn [sizeof]. rewrite H. reflexivity. Qed.

Lemma serialize_loop_members h name this m : forall pre post n,
  sizeof_loop m 0 = Normal n ->
  serialize_loop h name this m (pre ++ replicate n 0 ++ post) (length pre)
  = (bs <- members_bytes h name this m; Normal (pre ++ bs ++ post)).
Proof.
  induction m as [|[key def] rest IH]; intros pre post n Hn.
  - cbn in Hn. injection Hn as <-. reflexivity.
  - cbn [sizeof_loop] in Hn.
    destruct (sizeof_type (def_type def)) as [w|] eqn:Hw; [|discriminate].
    cbn [bind] in Hn. rewrite sizeof_loop_acc in Hn.
    destruct (sizeof_loop rest 0) as [n'|] eqn:Hn'; [|discriminate].
    cbn [bind] in Hn. injection Hn as <-.
    cbn [serialize_loop members_bytes].
    destruct (isSerialDef def) eqn:Hd.
    + pose proof (sizeof_OfDef_serial def Hd) as Hsz. rewrite Hw in Hsz. cbn [bind] in Hsz.
      set (share := (w * default 1%nat (def_length def))%nat) in *.
      replace (0 + share + n')%nat with (share + n')%nat by lia.
      rewrite replicate_add, <- app_assoc.
      rewrite serialize_member_frame by (rewrite length_replicate; exact Hsz).
      unfold member_bytes. rewrite Hsz. cbn [bind].
      destruct (serialize_member h name this (replicate share 0) 0 key def)
        as [[slot' sz]|] eqn:Hm; [|reflexivity].
      cbn [bind fst snd].
      apply serialize_member_Normal in Hm as [Hsz' Hlen]. cbn [fst snd] in *.
      rewrite Hsz in Hsz'. injection Hsz' as <-. rewrite length_replicate in Hlen.
      specialize (IH (pre ++ slot') post n' eq_refl).
      rewrite length_app, Hlen, <- app_assoc in IH. rewrite IH.
      destruct (members_bytes h name this rest); cbn [bind]; [|reflexivity].
      rewrite <- !app_assoc. reflexivity.
    + rewrite serialize_member_not_serial by exact Hd.
      unfold member_bytes. cbn [sizeof]. rewrite Hd. reflexivity.
Qed.

Lemma serialize_loop_throws h name this m key def :
  (forall data offset, throws (serialize_member h name this data offset key def)) ->
  (key, def) ∈ m ->
  forall data offset, throws (serialize_loop h name this m data offset).
Proof.
  intros Hmember. induction m as [|[k d] rest IH]; intros Hin data offset.
  - apply elem_of_nil in Hin. contradiction.
  - cbn [serialize_loop]. apply elem_of_cons in Hin as [Heq|Hin].
    + injection Heq as <- <-.
      specialize (Hmember data offset).
      destruct (serialize_member _ _ _ _ _ _ _); [contradiction|exact I].
    + destruct (serialize_member h name this data offset k d) as [r|]; [|exact I].
      cbn [bind]. apply IH, Hin.
Qed.

Lemma serialize_throws h c this key def :
  (forall data offset,
     throws (serialize_member h (class_name c) this data offset key def)) ->
  (key, def) ∈ class_serial c ->
  throws (serialize h c this).
Proof.
  intros Hmember Hin. unfold serialize.
  destruct (sizeof (OfInstance c this)) as [size|]; [|exact I].
  cbn [bind]. eapply serialize_loop_throws; eassumption.
Qed.

Lemma isSerialMap_false m :
  isSerialMap m = false -> exists key def, (key, def) ∈ m /\ isSerialDef def = false.
Proof.
  induction m as [|[k d] rest IH]; [discriminate|].
  unfold isSerialMap. cbn [forallb snd]. intros H.
  apply andb_false_iff in H as [H|H].
  - exists k, d. split; [apply list_elem_of_here|exact H].
  - destruct (IH H) as (key & def & Hin & Hdef).
    exists key, def. split; [apply list_elem_of_further, Hin|exact Hdef].
Qed.

(** [serialize] throws on the instances of a class that does not pass
    [isSerializeableStatic], whatever [sizeof(this)] does: the loop reaches
    an entry that does not pass [isSerialDef], if it does not throw
    before. *)
Lemma serialize_not_serializable h c this :
  isSerialMap (class_serial c) = false -> throws (serialize h c this).
Proof.
  intros Hm. destruct (isSerialMap_false _ Hm) as (key & def & Hin & Hdef).
  eapply serialize_throws; [|exact Hin].
  intros data offset. rewrite serialize_member_not_serial by exact Hdef. exact I.
Qed.

Lemma serialize_Normal_isSerialMap h c this data :
  serialize h c this = Normal data -> isSerialMap (class_serial c) = true.
Proof.
  intros Hser. destruct (isSerialMap (class_serial c)) eqn:Hm; [reflexivity|].
  pose proof (serialize_not_serializable h c this Hm) as Ht.
  rewrite Hser in Ht. contradiction.
Qed.

(** [serialize] returns the bytes of its entries, one after the other. *)
Lemma serialize_isSerialMap h c this :
  isSerialMap (class_serial c) = true ->
  serialize h c this = members_bytes h (class_name c) this (class_serial c).
Proof.
  intros Hm. unfold serialize. cbn [sizeof isSerializeableStatic class_type]. rewrite Hm.
  rewrite (sizeof_loop_isSerialMap _ 0 Hm). cbn [bind].
  pose proof (serialize_loop_members h (class_name c) this (class_serial c) [] []
                _ (sizeof_loop_isSerialMap _ 0 Hm)) as H.
  cbn [app length] in H. rewrite app_nil_r in H. rewrite H.
  destruct (members_bytes _ _ _ _); cbn [bind]; [rewrite app_nil_r|]; reflexivity.
Qed.

Lemma serialize_members h c this data :
  serialize h c this = Normal data ->
  members_bytes h (class_name c) this (class_serial c) = Normal data.
Proof.
  intros Hser. rewrite <- Hser. symmetry.
  apply serialize_isSerialMap, (serialize_Normal_isSerialMap _ _ _ _ Hser).
Qed.

(** ** Reads look at the slot of their field only *)

Lemma slice_frame {A} (pre slot post : list A) k w :
  (k + w <= length slot)%nat ->
  slice (pre ++ slot ++ post) (length pre + k) (length pre + k + w) = slice slot k (k + w).
Proof.
  intros H. unfold slice.
  replace (length pre + k + w - (length pre + k))%nat with w by lia.
  replace (k + w - k)%nat with w by lia.
  rewrite drop_app_add, drop_app, take_app_le by (rewrite length_drop; lia).
  reflexivity.
Qed.

Lemma slice_all {A} (l : list A) : slice l 0 (0 + length l) = l.
Proof. unfold slice. cbn [drop]. rewrite Nat.add_0_l, Nat.sub_0_r. apply take_ge. lia. Qed.

(** ** What a member of the loop of Deserialize may change *)

Lemma sizeof_OfDef_spec key def size :
  sizeof (OfDef def) = Normal size -> size = spec_fieldSize (key, def).
Proof.
  intros H. apply sizeof_OfDef_Normal in H as [(p & Ht & ->)|[Ht ->]];
    unfold spec_fieldSize; cbn [snd]; rewrite Ht; cbn [spec_elementWidth]; lia.
Qed.

Lemma Deserialize_member_size name buffer offset key def s s' size :
  Deserialize_member name buffer offset key def s = (s', Normal size) ->
  sizeof (OfDef def) = Normal size.
Proof.
  unfold Deserialize_member.
  destruct (sizeof (OfDef def)) as [sz|] eqn:E; [|intros [= <-]; discriminate].
  destruct (is_zero _); [intros [=]|].
  destruct (negb _); [intros [=]|].
  destruct (def_length def) as [[|len]|]; destruct (def_type def) as [p| |cn le m|o];
    try (intros [=]; congruence).
  - destruct (DataView_get p buffer offset false); intros [=]; congruence.
  - destruct (get_elements _ _ _ _ _ _ _ _) as [s1 [[]|e]]; intros [=]; congruence.
  - destruct (DataView_get p buffer offset false); intros [=]; congruence.
Qed.

Lemma Deserialize_loop_app name buffer m1 m2 : forall offset s,
  Deserialize_loop name buffer (m1 ++ m2) offset s
  = match Deserialize_loop name buffer m1 offset s with
    | (s1, Normal _) => Deserialize_loop name buffer m2 (offset + spec_size m1) s1
    | (s1, Throw e) => (s1, Throw e)
    end.
Proof.
  induction m1 as [|[key def] rest IH]; intros offset s.
  - cbn. rewrite Nat.add_0_r. reflexivity.
  - cbn [app Deserialize_loop].
    destruct (Deserialize_member name buffer offset key def s) as [s1 [size|e]] eqn:E;
      [|reflexivity].
    apply Deserialize_member_size in E. apply (sizeof_OfDef_spec key) in E.
    rewrite IH. rewrite spec_size_cons. unfold spec_fieldSize in E. cbn [snd] in E.
    rewrite <- E, Nat.add_assoc. reflexivity.
Qed.

Lemma set_index_array key i v s l :
  get_property (st_instance s) key = VArray l ->
  set_index key i v s
  = ({| st_heap := <[l := array_set (default [] (st_heap s !! l)) i v]> (st_heap s);
        st_instance := st_instance s |}, Normal tt).
Proof.
  unfold set_index, get_property.
  destruct (st_instance s !! key) as [[]|]; cbn; intros [=]. subst. reflexivity.
Qed.

Lemma truthy_property_get obj key :
  truthy (get_property obj key) = true -> truthy_property obj key = true.
Proof.
  unfold truthy_property, get_property. destruct (obj !! key); [trivial|discriminate].
Qed.

Lemma or_assign_array_kept key s :
  truthy (get_property (st_instance s) key) = true -> or_assign_array key s = s.
Proof. intros H. unfold or_assign_array. rewrite truthy_property_get by exact H. reflexivity. Qed.

Lemma or_assign_array_new key s :
  st_instance s !! key = None ->
  inherited key = false ->
  or_assign_array key s
  = {| st_heap := <[fresh (dom (st_heap s)) := []]> (st_heap s);
       st_instance := <[key := VArray (fresh (dom (st_heap s)))]> (st_instance s) |}.
Proof. intros Hk Hi. unfold or_assign_array, truthy_property. rewrite Hk, Hi. reflexivity. Qed.

Lemma set_index_instance key i v s s' r :
  set_index key i v s = (s', r) -> st_instance s' = st_instance s.
Proof.
  unfold set_index.
  destruct (st_instance s !! key) as [[]|]; [..|destruct (inherited key)];
    intros [= <- <-]; reflexivity.
Qed.

Lemma set_index_heap key i v s s' r l0 :
  set_index key i v s = (s', r) ->
  get_property (st_instance s) key <> VArray l0 ->
  st_heap s' !! l0 = st_heap s !! l0.
Proof.
  unfold set_index, get_property.
  destruct (st_instance s !! key) as [[| | | | |l]|]; [..|destruct (inherited key)];
    intros [= <- <-] Hne; try reflexivity.
  cbn in *. apply lookup_insert_ne. congruence.
Qed.

Lemma set_index_dom key i v s s' r :
  set_index key i v s = (s', r) -> dom (st_heap s) ⊆ dom (st_heap s').
Proof.
  unfold set_index.
  destruct (st_instance s !! key) as [[| | | | |l]|]; [..|destruct (inherited key)];
    intros [= <- <-]; try reflexivity.
  cbn. rewrite dom_insert. apply union_subseteq_r.
Qed.

Lemma get_elements_other type buffer offset stride key n : forall i s s' r,
  get_elements type buffer offset stride key i n s = (s', r) ->
  st_instance s' = st_instance s
  /\ dom (st_heap s) ⊆ dom (st_heap s')
  /\ forall l0, get_property (st_instance s) key <> VArray l0 ->
       st_heap s' !! l0 = st_heap s !! l0.
Proof.
  induction n as [|n IH]; intros i s s' r; cbn [get_elements].
  - intros [= <- <-]. repeat split; reflexivity.
  - destruct (DataView_get type buffer (offset + i * stride) false) as [v|];
      [|intros [= <- <-]; repeat split; reflexivity].
    destruct (set_index key i v s) as [s1 [[]|e]] eqn:E.
    + intros H. apply IH in H as (Hi & Hd & Hh).
      pose proof (set_index_instance _ _ _ _ _ _ E) as Hi1.
      split; [congruence|]. split.
      * etrans; [eapply set_index_dom, E|exact Hd].
      * intros l0 Hne. rewrite Hh by (rewrite Hi1; exact Hne).
        eapply set_index_heap; eauto.
    + intros [= <- <-]. split; [eapply set_index_instance, E|]. split.
      * eapply set_index_dom, E.
      * intros l0 Hne. eapply set_index_heap; eauto.
Qed.

Lemma get_property_insert_eq (obj : object) key v :
  get_property (<[key := v]> obj) key = v.
Proof. unfold get_property. rewrite lookup_insert_eq. reflexivity. Qed.

(** Decoding the entry [key] leaves the other properties alone, and the
    arrays other than the one [instance[key]] refers to. *)
Lemma Deserialize_member_other name buffer offset key def s s' r :
  Deserialize_member name buffer offset key def s = (s', r) ->
  (forall key0, key0 <> key -> st_instance s' !! key0 = st_instance s !! key0)
  /\ dom (st_heap s) ⊆ dom (st_heap s')
  /\ forall l0, l0 ∈ dom (st_heap s) ->
       get_property (st_instance s) key <> VArray l0 ->
       st_heap s' !! l0 = st_heap s !! l0.
Proof.
  unfold Deserialize_member.
  assert (Hid : forall r0, (s, r0) = (s', r) ->
    (forall key0, key0 <> key -> st_instance s' !! key0 = st_instance s !! key0)
    /\ dom (st_heap s) ⊆ dom (st_heap s')
    /\ forall l0, l0 ∈ dom (st_heap s) ->
         get_property (st_instance s) key <> VArray l0 ->
         st_heap s' !! l0 = st_heap s !! l0).
  { intros r0 [= <- <-]. repeat split; reflexivity. }
  assert (Hset : forall v r0, (set_property key v s, r0) = (s', r) ->
    (forall key0, key0 <> key -> st_instance s' !! key0 = st_instance s !! key0)
    /\ dom (st_heap s) ⊆ dom (st_heap s')
    /\ forall l0, l0 ∈ dom (st_heap s) ->
         get_property (st_instance s) key <> VArray l0 ->
         st_heap s' !! l0 = st_heap s !! l0).
  { intros v r0 [= <- <-]. cbn. repeat split; try reflexivity.
    intros key0 Hne. apply lookup_insert_ne. congruence. }
  destruct (sizeof (OfDef def)) as [size|]; [|apply Hid].
  destruct (is_zero _); [apply Hid|].
  destruct (negb _); [apply Hid|].
  destruct (def_length def) as [[|len]|]; destruct (def_type def) as [p| |cn le m|o];
    try apply Hid; try apply Hset;
    try (destruct (DataView_get p buffer offset false); [apply Hset|apply Hid]).
  destruct (get_elements p buffer offset (size / S len) key 0 (S len) (or_assign_array key s))
    as [s1 r1] eqn:E.
  apply get_elements_other in E as (Hi & Hd & Hh).
  intros Heq. assert (s1 = s') by (destruct r1; congruence). subst s1. clear Heq.
  unfold or_assign_array in *.
  destruct (truthy_property (st_instance s) key) eqn:Ht.
  - split; [intros; rewrite Hi; reflexivity|]. split; [exact Hd|].
    intros l0 _ Hne. apply Hh, Hne.
  - cbn in Hi, Hd, Hh. rewrite get_property_insert_eq in Hh.
    split; [intros key0 Hne; rewrite Hi; apply lookup_insert_ne; congruence|].
    split; [etrans; [|exact Hd]; rewrite dom_insert; apply union_subseteq_r|].
    intros l0 Hin _.
    assert (Hfresh : l0 <> fresh (dom (st_heap s))).
    { intros ->. exact (is_fresh _ Hin). }
    rewrite Hh by congruence. apply lookup_insert_ne. congruence.
Qed.

Lemma Deserialize_loop_other name buffer m : forall offset s s' r key0 l0,
  Deserialize_loop name buffer m offset s = (s', r) ->
  NoDup m.*1 ->
  (key0 ∉ m.*1 -> st_instance s' !! key0 = st_instance s !! key0)
  /\ dom (st_heap s) ⊆ dom (st_heap s')
  /\ (l0 ∈ dom (st_heap s) ->
      (forall key, key ∈ m.*1 -> get_property (st_instance s) key <> VArray l0) ->
      st_heap s' !! l0 = st_heap s !! l0).
Proof.
  induction m as [|[key def] rest IH]; intros offset s s' r key0 l0 H Hnd.
  - cbn in H. injection H as <- <-. repeat split; reflexivity.
  - cbn [Deserialize_loop] in H. cbn [fmap list_fmap fst] in Hnd |- *.
    apply NoDup_cons in Hnd as [Hnotin Hnd].
    destruct (Deserialize_member name buffer offset key def s) as [s1 [size|e]] eqn:E;
      apply Deserialize_member_other in E as (Hi & Hd & Hh).
    + apply (IH _ _ _ _ key0 l0) in H as (Hi' & Hd' & Hh'); [|exact Hnd].
      split; [|split].
      * intros Hk. apply not_elem_of_cons in Hk as [Hne Hk].
        rewrite Hi' by exact Hk. apply Hi, Hne.
      * etrans; eassumption.
      * intros Hin Hno. rewrite Hh'.
        -- apply Hh; [exact Hin|]. apply Hno. left.
        -- apply Hd, Hin.
        -- intros k Hk. unfold get_property. rewrite Hi.
           ++ apply Hno. right. exact Hk.
           ++ intros ->. contradiction.
    + injection H as <- <-. split; [|split].
      * intros Hk. apply not_elem_of_cons in Hk as [Hne Hk]. apply Hi, Hne.
      * exact Hd.
      * intros Hin Hno. apply Hh; [exact Hin|]. apply Hno. left.
Qed.

(** ** Filling an array in place *)

Lemma array_set_lookup (a : list value) i v j :
  (i <= length a)%nat ->
  array_set a i v !! j = if decide (j = i) then Some v else a !! j.
Proof.
  intros Hi. unfold array_set. destruct (Nat.ltb_spec i (length a)) as [Hlt|Hge].
  - destruct (decide (j = i)) as [->|Hne].
    + apply list_lookup_insert_eq. exact Hlt.
    + apply list_lookup_insert_ne. congruence.
  - assert (i = length a) by lia. subst i. rewrite Nat.sub_diag. cbn [replicate app].
    destruct (decide (j = length a)) as [->|Hne].
    + rewrite lookup_app_r by lia. rewrite Nat.sub_diag. reflexivity.
    + destruct (Nat.lt_ge_cases j (length a)) as [Hlt|Hge'].
      * apply lookup_app_l. exact Hlt.
      * rewrite !lookup_ge_None_2; [reflexivity|lia|rewrite length_app; cbn; lia].
Qed.

Lemma length_array_set (a : list value) i v :
  (i <= length a)%nat -> length (array_set a i v) = max (length a) (S i).
Proof.
  intros Hi. unfold array_set. destruct (Nat.ltb_spec i (length a)) as [Hlt|Hge].
  - rewrite length_insert. lia.
  - rewrite !length_app, length_replicate. cbn. lia.
Qed.

Lemma get_elements_target type buffer offset stride key l n : forall i s s' r old,
  get_property (st_instance s) key = VArray l ->
  st_heap s !! l = Some old ->
  (i <= length old)%nat ->
  get_elements type buffer offset stride key i n s = (s', r) ->
  exists new, st_heap s' !! l = Some new
    /\ (forall j, (j < i \/ i + n <= j)%nat -> new !! j = old !! j)
    /\ (r = Normal tt ->
        length new = max (length old) (i + n)
        /\ forall j, (i <= j < i + n)%nat ->
             exists v, DataView_get type buffer (offset + j * stride) false = Normal v
                       /\ new !! j = Some v).
Proof.
  induction n as [|n IH]; intros i s s' r old Hk Hl Hi; cbn [get_elements].
  - intros [= <- <-]. exists old. split; [exact Hl|]. split; [reflexivity|].
    intros _. split; [lia|]. intros j Hj. lia.
  - destruct (DataView_get type buffer (offset + i * stride) false) as [v|] eqn:Hg.
    2:{ intros [= <- <-]. exists old. split; [exact Hl|]. split; [reflexivity|]. discriminate. }
    rewrite (set_index_array _ _ _ _ _ Hk).
    set (s1 := {| st_heap := <[l := array_set (default [] (st_heap s !! l)) i v]> (st_heap s);
                  st_instance := st_instance s |}).
    intros H.
    apply (IH (S i) s1 s' r (array_set old i v)) in H.
    + destruct H as (new & Hnew & Hframe & Hok).
      exists new. split; [exact Hnew|]. split.
      * intros j Hj. rewrite Hframe by lia. rewrite array_set_lookup by exact Hi.
        destruct (decide (j = i)); [lia|reflexivity].
      * intros Hr. destruct (Hok Hr) as [Hlen Hall]. split.
        -- rewrite Hlen, length_array_set by exact Hi. lia.
        -- intros j Hj. destruct (decide (j = i)) as [->|Hne].
           ++ exists v. split; [exact Hg|]. rewrite Hframe by lia.
              rewrite array_set_lookup by exact Hi. rewrite decide_True by reflexivity.
              reflexivity.
           ++ apply Hall. lia.
    + exact Hk.
    + subst s1. cbn. rewrite Hl. cbn. apply lookup_insert_eq.
    + rewrite length_array_set by exact Hi. lia.
Qed.

Lemma sizeof_OfDef_repeated p n :
  sizeof (OfDef (mkDef (TPrim p) (Some n))) = Normal (primitive_size p * n)%nat.
Proof. cbn. f_equal. Qed.



(** ** The slot of a field in the serialized buffer *)

Lemma member_bytes_length h name this key def chunk :
  member_bytes h name this key def = Normal chunk ->
  sizeof (OfDef def) = Normal (length chunk)
  /\ length chunk = spec_fieldSize (key, def).
Proof.
  unfold member_bytes. destruct (sizeof (OfDef def)) as [size|] eqn:Hs; [|discriminate].
  cbn [bind].
  destruct (serialize_member h name this (replicate size 0) 0 key def) as [r|] eqn:Hm;
    [|discriminate].
  cbn [bind]. intros [= <-].
  apply serialize_member_Normal in Hm as [Hs' Hlen].
  rewrite length_replicate in Hlen. rewrite Hlen.
  split; [reflexivity|]. apply sizeof_OfDef_spec. exact Hs.
Qed.

Lemma members_bytes_length h name this m : forall bs,
  members_bytes h name this m = Normal bs -> length bs = spec_size m.
Proof.
  induction m as [|[key def] rest IH]; intros bs; cbn [members_bytes].
  - intros [= <-]. reflexivity.
  - destruct (member_bytes h name this key def) as [chunk|] eqn:Hc; [|discriminate].
    destruct (members_bytes h name this rest) as [chunks|]; [|discriminate].
    cbn [bind]. intros [= <-].
    apply member_bytes_length in Hc as [_ Hc].
    rewrite length_app, spec_size_cons, (IH chunks eq_refl), Hc. reflexivity.
Qed.

Lemma members_bytes_app h name this m1 m2 :
  members_bytes h name this (m1 ++ m2)
  = (bs1 <- members_bytes h name this m1;
     bs2 <- members_bytes h name this m2;
     Normal (bs1 ++ bs2)).
Proof.
  induction m1 as [|[key def] rest IH]; cbn [app members_bytes bind].
  - destruct (members_bytes h name this m2); reflexivity.
  - destruct (member_bytes h name this key def) as [chunk|]; [|reflexivity].
    cbn [bind]. rewrite IH.
    destruct (members_bytes h name this rest) as [bs1|]; [|reflexivity]. cbn [bind].
    destruct (members_bytes h name this m2) as [bs2|]; [|reflexivity]. cbn [bind].
    rewrite app_assoc. reflexivity.
Qed.

(** In the buffer returned by [serialize], the slot of an entry starts at
    the sum of the sizes of the entries before it and holds the bytes of
    the entry. *)
Lemma serialize_slot h c this data pre key def post :
  serialize h c this = Normal data ->
  class_serial c = pre ++ (key, def) :: post ->
  length data = spec_size (class_serial c)
  /\ member_bytes h (class_name c) this key def
     = Normal (slice data (spec_size pre) (spec_size pre + spec_fieldSize (key, def))).
Proof.
  intros Hser Hm. apply serialize_members in Hser.
  split; [eapply members_bytes_length, Hser|].
  rewrite Hm, members_bytes_app in Hser. cbn [members_bytes] in Hser.
  destruct (members_bytes h (class_name c) this pre) as [bs1|] eqn:H1; [|discriminate].
  cbn [bind] in Hser.
  destruct (member_bytes h (class_name c) this key def) as [chunk|] eqn:Hc; [|discriminate].
  cbn [bind] in Hser.
  destruct (members_bytes h (class_name c) this post) as [bs2|] eqn:H2; [|discriminate].
  cbn [bind] in Hser. injection Hser as <-.
  apply members_bytes_length in H1. apply member_bytes_length in Hc as [_ Hc].
  f_equal. rewrite <- H1, <- Hc.
  pose proof (slice_frame bs1 chunk bs2 0 (length chunk)) as Hsl.
  rewrite !Nat.add_0_r in Hsl. rewrite Hsl by lia.
  symmetry. pose proof (slice_all chunk) as Ha. rewrite Nat.add_0_l in Ha |- *. exact Ha.
Qed.

(** ** The bytes of an entry, by kind of entry *)

Lemma write_bytes_all (bs buffer : list Z) :
  length buffer = length bs -> write_bytes buffer 0 bs = bs.
Proof.
  intros H. unfold write_bytes. cbn [take Nat.add app].
  rewrite drop_ge by lia. apply app_nil_r.
Qed.

Lemma DataView_set_zeros type v le :
  DataView_set type (replicate (primitive_size type) 0) 0 v le = NumericToRawBytes type v le.
Proof.
  unfold DataView_set. destruct (NumericToRawBytes type v le) as [bs|] eqn:E; [|reflexivity].
  cbn [bind]. apply length_NumericToRawBytes in E. rewrite length_replicate.
  destruct (Nat.ltb_spec (primitive_size type) (0 + primitive_size type)); [lia|].
  rewrite write_bytes_all by (rewrite length_replicate; lia). reflexivity.
Qed.

(** A scalar numeric entry holds the raw bytes of its value, in the byte
    order of [littleEndian = false]. *)
Lemma member_bytes_scalar h name this key p chunk :
  member_bytes h name this key (mkDef (TPrim p) None) = Normal chunk ->
  typeof (get_property this key) = serialPrimitiveValue p
  /\ NumericToRawBytes p (numeric_of_value (get_property this key)) false = Normal chunk.
Proof.
  unfold member_bytes, serialize_member.
  change (sizeof (OfDef (mkDef (TPrim p) None))) with (Normal (0 + primitive_size p * 1)%nat).
  cbn [bind def_type def_length is_zero is_set is_string isSerialType isSerialPrimitive
       isSerializeable orb andb negb Nat.add].
  rewrite Nat.mul_1_r.
  destruct (js_type_eqb (typeof (get_property this key)) (serialPrimitiveValue p)) eqn:Hty;
    cbn [negb]; [|discriminate]. intros H.
  assert (Hty' : typeof (get_property this key) = serialPrimitiveValue p).
  { destruct (typeof (get_property this key)), (serialPrimitiveValue p);
      first [reflexivity | discriminate]. }
  split; [exact Hty'|]. clear Hty Hty'.
  destruct (get_property this key) as [| |n|z| |]; try discriminate;
    cbn [numeric_of_value]; rewrite DataView_set_zeros in H;
    (destruct (NumericToRawBytes p _ false) as [bs|]; [|discriminate]);
    cbn [bind fst] in H; congruence.
Qed.

Lemma slice_write_bytes_same buffer offset bs :
  (offset + length bs <= length buffer)%nat ->
  slice (write_bytes buffer offset bs) offset (offset + length bs) = bs.
Proof.
  intros H. pose proof (slice_frame (take offset buffer) bs (drop (offset + length bs) buffer)
                          0 (length bs)) as Hsl.
  rewrite length_take_le, !Nat.add_0_r in Hsl by lia.
  unfold write_bytes. rewrite Hsl by lia.
  pose proof (slice_all bs) as Ha. rewrite Nat.add_0_l in Ha |- *. exact Ha.
Qed.

Lemma slice_write_bytes_before buffer offset bs a b :
  (b <= offset)%nat -> (offset + length bs <= length buffer)%nat ->
  slice (write_bytes buffer offset bs) a b = slice buffer a b.
Proof.
  intros Hb Hlen. unfold slice, write_bytes.
  apply list_eq. intros i.
  destruct (Nat.lt_ge_cases i (b - a)) as [Hi|Hi].
  - rewrite !lookup_take_lt, !lookup_drop by lia.
    rewrite lookup_app_l by (rewrite length_take; lia).
    apply lookup_take_lt. lia.
  - rewrite !lookup_take_ge by lia. reflexivity.
Qed.

(** The slots written by the loop over a repeated Float32 or Float64
    entry. *)
Lemma set_floats_slots type arrayData n : forall i buffer buffer',
  set_floats type buffer 0 (primitive_size type) arrayData i n = Normal buffer' ->
  ((i + n) * primitive_size type <= length buffer)%nat ->
  (forall j, (i <= j < i + n)%nat ->
     NumericToRawBytes type (arrayData !! j) false
     = Normal (slice buffer' (j * primitive_size type)
                 (j * primitive_size type + primitive_size type)))
  /\ (forall a b, (b <= i * primitive_size type)%nat -> slice buffer' a b = slice buffer a b).
Proof.
  induction n as [|n IH]; intros i buffer buffer'; cbn [set_floats].
  - intros [= <-] _. split; [intros j Hj; lia|reflexivity].
  - cbn [Nat.add]. unfold DataView_set at 1.
    destruct (NumericToRawBytes type (arrayData !! i) false) as [bs|] eqn:Ebs; [|discriminate].
    cbn [bind]. pose proof (length_NumericToRawBytes _ _ _ _ Ebs) as Hlen.
    destruct (Nat.ltb_spec (length buffer) (i * primitive_size type + primitive_size type));
      [discriminate|].
    cbn [bind]. intros Hrest Hfit.
    apply IH in Hrest as [Hslots Hbefore].
    2:{ rewrite length_write_bytes by lia. lia. }
    split.
    + intros j Hj. destruct (decide (j = i)) as [->|Hne].
      * rewrite Hbefore by (cbn [Nat.mul]; lia).
        pose proof (slice_write_bytes_same buffer (i * primitive_size type) bs) as Hs.
        rewrite Hlen in Hs. rewrite Hs by lia. exact Ebs.
      * apply Hslots. lia.
    + intros a b Hb. rewrite Hbefore by (cbn [Nat.mul]; lia).
      apply slice_write_bytes_before; lia.
Qed.

(** What [data.set(arrayData, offset)] stores: one byte per element. *)
Lemma set_elements_Normal src : forall data k data',
  set_elements data src k = Normal data' ->
  (k + length src <= length data)%nat ->
  exists xs, src = Num <$> xs
    /\ data' = take k data ++ (ToUint8 <$> xs) ++ drop (k + length xs) data.
Proof.
  induction src as [|el rest IH]; intros data k data'; cbn [set_elements].
  - intros [= <-] _. exists []. split; [reflexivity|].
    cbn [fmap list_fmap app length]. rewrite Nat.add_0_r, take_drop. reflexivity.
  - destruct el as [x|z]; cbn [ToNumber bind]; [|discriminate].
    intros H Hlen. cbn [length] in Hlen.
    apply IH in H as (xs & -> & ->); [|rewrite length_insert; lia].
    exists (x :: xs). split; [reflexivity|].
    rewrite length_fmap in Hlen.
    rewrite take_insert_lt, drop_insert_lt by lia.
    rewrite (take_S_r data k (default 0 (data !! k))).
    2:{ destruct (lookup_lt_is_Some_2 data k) as [b Hb]; [lia|]. rewrite Hb. reflexivity. }
    rewrite insert_app_r_alt by (rewrite length_take; lia).
    rewrite length_take_le, Nat.sub_diag by lia. cbn [insert list_insert].
    cbn [fmap list_fmap length]. rewrite <- !app_assoc. cbn [app].
    replace (S k + length xs)%nat with (k + S (length xs))%nat by lia. reflexivity.
Qed.

(** ** Decoding into a new instance *)

Lemma get_property_None (obj : object) key :
  obj !! key = None -> get_property obj key = VUndefined.
Proof. unfold get_property. intros ->. reflexivity. Qed.

Lemma serialize_member_accepted h name this data offset key def r :
  serialize_member h name this data offset key def = Normal r -> accepted def = true.
Proof.
  unfold serialize_member. destruct (sizeof (OfDef def)) as [size|]; [|discriminate].
  cbn [bind]. destruct def as [[p| |cn le m|o] [[|len]|]];
    cbn [def_type def_length is_zero is_set is_string isSerialType isSerialPrimitive
         isSerializeable orb andb negb accepted];
    try discriminate; try reflexivity.
  destruct (negb _); discriminate.
Qed.

Lemma Deserialize_member_accepted name buffer offset key def s s' size :
  Deserialize_member name buffer offset key def s = (s', Normal size) ->
  accepted def = true.
Proof.
  unfold Deserialize_member. destruct (sizeof (OfDef def)) as [sz|]; [|intros [=]].
  destruct def as [[p| |cn le m|o] [[|len]|]];
    cbn [def_type def_length is_zero is_set is_string isSerialType isSerialPrimitive
         isSerializeable orb andb negb accepted];
    try (intros [=]; fail); reflexivity.
Qed.

Lemma member_bytes_accepted h name this key def chunk :
  member_bytes h name this key def = Normal chunk -> accepted def = true.
Proof.
  unfold member_bytes. destruct (sizeof (OfDef def)) as [size|]; [|discriminate].
  cbn [bind].
  destruct (serialize_member h name this (replicate size 0) 0 key def) as [r|] eqn:E;
    [|discriminate].
  intros _. eapply serialize_member_accepted, E.
Qed.

Lemma get_elements_succeeds type buffer offset key l n : forall i s,
  get_property (st_instance s) key = VArray l ->
  (offset + (i + n) * primitive_size type <= length buffer)%nat ->
  exists s', get_elements type buffer offset (primitive_size type) key i n s
             = (s', Normal tt).
Proof.
  induction n as [|n IH]; intros i s Hk Hfit; cbn [get_elements].
  - exists s. reflexivity.
  - unfold DataView_get at 1.
    destruct (Nat.ltb_spec (length buffer)
                (offset + i * primitive_size type + primitive_size type)); [lia|].
    rewrite (set_index_array _ _ _ _ _ Hk).
    apply IH; [exact Hk|lia].
Qed.

Lemma stored_inherited key def : inherited key = false -> stored (key, def) = true.
Proof.
  intros H. unfold stored. cbn [fst snd]. rewrite H.
  destruct def as [[] []]; reflexivity.
Qed.

Lemma get_elements_inherited type buffer offset stride key n : forall i s,
  st_instance s !! key = None ->
  inherited key = true ->
  (offset + (i + n) * stride <= length buffer)%nat ->
  (primitive_size type <= stride)%nat ->
  get_elements type buffer offset stride key i n s = (s, Normal tt).
Proof.
  induction n as [|n IH]; intros i s Hk Hinh Hfit Hstride; cbn [get_elements];
    [reflexivity|].
  unfold DataView_get.
  destruct (Nat.ltb_spec (length buffer) (offset + i * stride + primitive_size type)); [nia|].
  unfold set_index. rewrite Hk, Hinh. apply IH; [exact Hk|exact Hinh|nia|exact Hstride].
Qed.

(** On an accepted entry whose property is not set yet, [Deserialize]
    returns as soon as the slot lies inside the buffer, and it leaves what
    [decoded_field] says if the entry is stored in the instance. *)
Lemma Deserialize_member_fresh name buffer offset key def s :
  accepted def = true ->
  st_instance s !! key = None ->
  (offset + spec_fieldSize (key, def) <= length buffer)%nat ->
  exists s', Deserialize_member name buffer offset key def s
             = (s', Normal (spec_fieldSize (key, def)))
    /\ (stored (key, def) = true -> decoded_field buffer offset key def s').
Proof.
  intros Hacc Hk Hfit. unfold Deserialize_member, spec_fieldSize in *. cbn [snd] in *.
  destruct def as [[p| |cn le m|o] [[|len]|]]; try discriminate;
    cbn [def_type def_length default from_option id spec_elementWidth] in *.
  - (* repeated numeric *)
    rewrite sizeof_OfDef_repeated.
    run_guards.
    rewrite Nat.div_mul by lia.
    destruct (inherited key) eqn:Hinh.
    { exists s. split; [|unfold stored; cbn [fst snd]; rewrite Hinh; discriminate].
      unfold or_assign_array, truthy_property. rewrite Hk, Hinh.
      rewrite get_elements_inherited; [reflexivity|exact Hk|exact Hinh|lia|lia]. }
    rewrite (or_assign_array_new _ _ Hk Hinh).
    set (l := fresh (dom (st_heap s))).
    set (s0 := {| st_heap := <[l := []]> (st_heap s);
                  st_instance := <[key := VArray l]> (st_instance s) |}).
    assert (Hgp : get_property (st_instance s0) key = VArray l)
      by apply get_property_insert_eq.
    assert (Hl0 : st_heap s0 !! l = Some []) by apply lookup_insert_eq.
    destruct (get_elements_succeeds p buffer offset key l (S len) 0 s0 Hgp) as [s1 E];
      [cbn [Nat.add]; lia|].
    rewrite E.
    pose proof (get_elements_other _ _ _ _ _ _ _ _ _ _ E) as (Hi & _ & _).
    pose proof (get_elements_target _ _ _ _ _ _ _ _ _ _ _ _ Hgp Hl0 (Nat.le_0_l _) E)
      as (new & Hnew & _ & Hall).
    destruct (Hall eq_refl) as [Hlen Hels].
    exists s1. split; [reflexivity|]. intros _.
    exists l, new. split; [rewrite Hi; apply lookup_insert_eq|].
    split; [exact Hnew|]. split; [cbn [length] in Hlen; lia|].
    intros i Hi'. apply Hels. lia.
  - (* scalar numeric *)
    change (sizeof (OfDef (mkDef (TPrim p) None)))
      with (Normal (0 + primitive_size p * 1)%nat).
    cbn [is_zero isSerialType isSerialPrimitive orb negb Nat.add].
    assert (Hg : DataView_get p buffer offset false
                 = Normal (RawBytesToNumeric p
                             (slice buffer offset (offset + primitive_size p)) false)).
    { unfold DataView_get.
      destruct (Nat.ltb_spec (length buffer) (offset + primitive_size p)); [lia|reflexivity]. }
    rewrite Hg. eexists. split; [reflexivity|]. intros _.
    eexists. split; [exact Hg|]. apply lookup_insert_eq.
  - (* text *)
    change (sizeof (OfDef (mkDef TString (Some (S len)))))
      with (Normal (0 + 1 * S len)%nat).
    cbn [is_zero isSerialType isSerialPrimitive isSerializeable orb negb Nat.add].
    rewrite Nat.mul_1_l.
    eexists. split; [reflexivity|]. intros _. cbn [decoded_field set_property st_instance].
    apply lookup_insert_eq.
Qed.

Lemma decoded_field_stable buffer offset key def s1 s' :
  decoded_field buffer offset key def s1 ->
  st_instance s' !! key = st_instance s1 !! key ->
  (forall l, l ∈ dom (st_heap s1) -> st_heap s' !! l = st_heap s1 !! l) ->
  decoded_field buffer offset key def s'.
Proof.
  intros Hd Hi Hh. destruct def as [[p| |cn le m|o] [len|]]; cbn [decoded_field] in *;
    try exact I.
  - destruct Hd as (l & els & Hk & Hl & Hlen & Hels).
    exists l, els. split; [congruence|]. split; [|split; assumption].
    rewrite Hh; [exact Hl|]. apply elem_of_dom. eauto.
  - destruct Hd as (v & Hg & Hk). exists v. split; [exact Hg|congruence].
  - congruence.
Qed.

(** [Deserialize] on a schema of accepted entries with distinct keys, from
    a state where none of the keys is set: it returns when the buffer is
    long enough, and every entry that is stored in the instance is decoded
    from its own offset. *)
Lemma Deserialize_loop_new name buffer m : forall offset s,
  forallb (fun field => accepted field.2) m = true ->
  NoDup m.*1 ->
  (forall k, k ∈ m.*1 -> st_instance s !! k = None) ->
  (offset + spec_size m <= length buffer)%nat ->
  exists s', Deserialize_loop name buffer m offset s = (s', Normal tt)
    /\ forall pre key def post, m = pre ++ (key, def) :: post ->
         stored (key, def) = true ->
         decoded_field buffer (offset + spec_size pre) key def s'.
Proof.
  induction m as [|[key def] rest IH]; intros offset s Hacc Hnd Hfresh Hfit.
  - exists s. split; [reflexivity|]. intros pre k d post H.
    destruct pre; discriminate.
  - cbn [forallb snd] in Hacc. apply andb_prop in Hacc as [Hacc_def Hacc_rest].
    cbn [fmap list_fmap fst] in Hnd, Hfresh. apply NoDup_cons in Hnd as [Hnotin Hnd].
    rewrite spec_size_cons in Hfit. fold (spec_fieldSize (key, def)) in Hfit.
    destruct (Deserialize_member_fresh name buffer offset key def s Hacc_def)
      as (s1 & E & Hd).
    { apply Hfresh. left. }
    { change (spec_fieldSize (key, def))
        with (spec_elementWidth (def_type def) * default 1 (def_length def))%nat. lia. }
    pose proof (Deserialize_member_other _ _ _ _ _ _ _ _ E) as (Hi1 & Hd1 & Hh1).
    destruct (IH (offset + spec_fieldSize (key, def))%nat s1 Hacc_rest Hnd)
      as (s' & Erest & Hall).
    { intros k Hk. rewrite Hi1; [apply Hfresh; right; exact Hk|]. intros ->. contradiction. }
    { change (spec_fieldSize (key, def))
        with (spec_elementWidth (def_type def) * default 1 (def_length def))%nat. lia. }
    exists s'. split.
    { cbn [Deserialize_loop]. rewrite E. exact Erest. }
    intros pre k d post Hm Hst. destruct pre as [|f pre].
    + cbn [app] in Hm. injection Hm as <- <- <-.
      change (spec_size []) with 0%nat. rewrite Nat.add_0_r.
      apply (decoded_field_stable _ _ _ _ s1); [exact (Hd Hst)| |].
      * apply (Deserialize_loop_other _ _ _ _ _ _ _ key 1%positive Erest Hnd). exact Hnotin.
      * intros l Hl.
        apply (Deserialize_loop_other _ _ _ _ _ _ _ key l Erest Hnd); [exact Hl|].
        intros k Hk. rewrite get_property_None; [discriminate|].
        rewrite Hi1; [apply Hfresh; right; exact Hk|]. intros ->. contradiction.
    + cbn [app] in Hm. injection Hm as <- ->.
      rewrite spec_size_cons. fold (spec_fieldSize (key, def)).
      rewrite Nat.add_assoc. apply (Hall pre k d post); [reflexivity|exact Hst].
Qed.

(** ** The NUL-seeking policy *)

Lemma reduce_index_from charArray : reduce_index charArray = reduce_from 0 0 charArray.
Proof. reflexivity. Qed.

Lemma reduce_from_cons start index c rest :
  reduce_from start index (c :: rest)
  = reduce_from (S start) (if c =? 0 then index else start) rest.
Proof. reflexivity. Qed.

Lemma reduce_from_app a : forall start index b,
  reduce_from start index (a ++ b)
  = reduce_from (start + length a) (reduce_from start index a) b.
Proof.
  induction a as [|c a IH]; intros start index b.
  - cbn [app length]. rewrite Nat.add_0_r. reflexivity.
  - cbn [app]. rewrite !reduce_from_cons, IH. cbn [length].
    rewrite Nat.add_succ_r. reflexivity.
Qed.

Lemma reduce_from_zeros k start index :
  reduce_from start index (replicate k 0) = index.
Proof.
  revert start. induction k as [|k IH]; intros start; [reflexivity|].
  cbn [replicate]. rewrite reduce_from_cons. apply IH.
Qed.

Lemma reduce_from_last_nonzero a c k start index :
  c <> 0 -> reduce_from start index (a ++ c :: replicate k 0) = (start + length a)%nat.
Proof.
  intros Hc. rewrite reduce_from_app, reduce_from_cons, reduce_from_zeros.
  destruct (Z.eqb_spec c 0); [contradiction|reflexivity].
Qed.

(** A slot whose last non-zero byte is [c]: the text is the bytes up to
    and including [c]. *)
Lemma decode_string_last_nonzero a c k :
  c <> 0 ->
  decode_string (a ++ c :: replicate k 0) = fromCharCode <$> (a ++ [c]).
Proof.
  intros Hc. unfold decode_string. rewrite reduce_index_from.
  rewrite reduce_from_last_nonzero by exact Hc. cbn [Nat.add].
  replace (length a + 1 =? 0)%nat with false by (symmetry; apply Nat.eqb_neq; lia).
  f_equal. replace (a ++ c :: replicate k 0) with ((a ++ [c]) ++ replicate k 0)
    by (rewrite <- app_assoc; reflexivity).
  apply take_app_length'. rewrite length_app. cbn. lia.
Qed.

(** A slot of zero bytes only: the text is one NUL character, whatever
    the length of the slot. *)
Lemma decode_string_zeros k : decode_string (replicate (S k) 0) = [0].
Proof.
  unfold decode_string. rewrite reduce_index_from, reduce_from_zeros. reflexivity.
Qed.

Lemma fromCharCode_byte c : 0 <= c < 256 -> fromCharCode c = c.
Proof. intros H. unfold fromCharCode. apply Z.mod_small. lia. Qed.

Lemma fmap_fromCharCode_bytes l :
  Forall (fun c => 0 <= c < 256) l -> fromCharCode <$> l = l.
Proof.
  induction 1 as [|c l Hc _ IH]; [reflexivity|].
  cbn [fmap list_fmap]. rewrite fromCharCode_byte by exact Hc. f_equal. exact IH.
Qed.

(** ** Repeated entries *)

Lemma slice_slice {A} (l : list A) a s b w :
  (b + w <= s)%nat ->
  slice (slice l a (a + s)) b (b + w) = slice l (a + b) (a + b + w).
Proof.
  intros H. unfold slice.
  replace (a + s - a)%nat with s by lia.
  replace (b + w - b)%nat with w by lia.
  replace (a + b + w - (a + b))%nat with w by lia.
  replace s with (b + (s - b))%nat at 1 by lia.
  rewrite <- take_drop_commute, take_take, drop_drop.
  f_equal. lia.
Qed.

(** A repeated Float32 or Float64 entry: slot [i] holds the raw bytes of
    [arrayData[i]], in the byte order of [littleEndian = false]. *)
Lemma member_bytes_floats h name this key p n chunk :
  p = Float32 \/ p = Float64 ->
  member_bytes h name this key (mkDef (TPrim p) (Some (S n))) = Normal chunk ->
  exists arrayData,
    flatMap (serialize_prefix key name) (elements_of h (get_property this key))
    = Normal arrayData
    /\ forall i, (i < S n)%nat ->
         NumericToRawBytes p (arrayData !! i) false
         = Normal (slice chunk (i * primitive_size p)
                     (i * primitive_size p + primitive_size p)).
Proof.
  intros Hp. unfold member_bytes, serialize_member.
  rewrite sizeof_OfDef_repeated.
  cbn [bind def_type def_length is_zero is_set is_string isSerialType isSerialPrimitive
       isSerializeable orb andb negb].
  destruct (negb (isArray (get_property this key))); cbn [andb]; [discriminate|].
  destruct (flatMap _ _) as [arrayData|]; [|discriminate]. cbn [bind].
  rewrite Nat.div_mul by lia.
  intros H. exists arrayData. split; [reflexivity|].
  assert (Hf : exists r, set_floats p (replicate (primitive_size p * S n) 0) 0
                           (primitive_size p) (take (primitive_size p * S n) arrayData)
                           0 (S n) = Normal r /\ r = chunk).
  { destruct Hp as [-> | ->]; cbn [bind] in H;
      (destruct (set_floats _ _ 0 _ _ 0 (S n)) as [r|]; [|discriminate]);
      cbn [bind fst] in H; exists r; (split; [reflexivity|congruence]). }
  destruct Hf as (r & Hf & ->).
  apply set_floats_slots in Hf as [Hslots _].
  2:{ rewrite length_replicate. cbn [Nat.add]. lia. }
  intros i Hi. rewrite <- Hslots by lia.
  rewrite lookup_take_lt; [reflexivity|].
  pose proof (primitive_size_pos p). nia.
Qed.

(** A repeated entry of another numeric kind, or a text entry: each of
    the first [size] elements gives one byte, and the rest of the slot is
    zero. *)
Lemma member_bytes_bytes h name this key t n chunk :
  t <> TPrim Float32 -> t <> TPrim Float64 ->
  member_bytes h name this key (mkDef t (Some (S n))) = Normal chunk ->
  exists arrayData xs,
    flatMap (serialize_prefix key name) (elements_of h (get_property this key))
    = Normal arrayData
    /\ take (length chunk) arrayData = Num <$> xs
    /\ chunk = (ToUint8 <$> xs) ++ replicate (length chunk - length xs) 0.
Proof.
  intros Hf32 Hf64 H.
  pose proof (member_bytes_length _ _ _ _ _ _ H) as [Hsize _].
  revert H. unfold member_bytes, serialize_member. rewrite Hsize.
  cbn [bind def_type def_length is_zero is_set].
  destruct (negb (isSerialType t)); [discriminate|].
  destruct (is_string t && _); [discriminate|].
  destruct (true && negb (isArray (get_property this key)) && negb (is_string t));
    [discriminate|].
  destruct (flatMap _ _) as [arrayData|]; [|discriminate]. cbn [bind].
  intros H. exists arrayData.
  assert (Hu : exists r, Uint8Array_set (replicate (length chunk) 0)
                           (take (length chunk) arrayData) 0 = Normal r /\ r = chunk).
  { destruct t as [[]| | |]; try contradiction;
      (destruct (Uint8Array_set _ _ 0) as [r|]; [|discriminate]);
      cbn [bind fst] in H; exists r; (split; [reflexivity|congruence]). }
  destruct Hu as (r & Hu & Hr). unfold Uint8Array_set in Hu.
  destruct (_ <? _)%nat; [discriminate|].
  apply set_elements_Normal in Hu as (xs & Hxs & Hdata).
  2:{ rewrite length_replicate, length_take. lia. }
  exists xs. split; [reflexivity|]. split; [exact Hxs|].
  rewrite <- Hr at 1. rewrite Hdata.
  cbn [take app Nat.add]. rewrite drop_replicate. reflexivity.
Qed.

(** ** What a returning call of Deserialize has decoded *)

Lemma Deserialize_member_decoded name buffer offset key def s s' size :
  stored (key, def) = true ->
  st_instance s !! key = None ->
  Deserialize_member name buffer offset key def s = (s', Normal size) ->
  decoded_field buffer offset key def s'.
Proof.
  intros Hst Hk H. pose proof (Deserialize_member_accepted _ _ _ _ _ _ _ _ H) as Hacc.
  revert H. unfold Deserialize_member.
  destruct def as [[p| |cn le m|o] [[|len]|]]; try discriminate;
    cbn [def_type def_length decoded_field].
  - rewrite sizeof_OfDef_repeated.
    run_guards.
    rewrite Nat.div_mul by lia.
    unfold stored in Hst. cbn [fst snd] in Hst. apply negb_true_iff in Hst.
    rewrite (or_assign_array_new _ _ Hk Hst).
    set (l := fresh (dom (st_heap s))).
    set (s0 := {| st_heap := <[l := []]> (st_heap s);
                  st_instance := <[key := VArray l]> (st_instance s) |}).
    assert (Hgp : get_property (st_instance s0) key = VArray l)
      by apply get_property_insert_eq.
    assert (Hl0 : st_heap s0 !! l = Some []) by apply lookup_insert_eq.
    destruct (get_elements p buffer offset (primitive_size p) key 0 (S len) s0)
      as [s1 [[]|e]] eqn:E; [|discriminate].
    intros [= <- _].
    pose proof (get_elements_other _ _ _ _ _ _ _ _ _ _ E) as (Hi & _ & _).
    pose proof (get_elements_target _ _ _ _ _ _ _ _ _ _ _ _ Hgp Hl0 (Nat.le_0_l _) E)
      as (new & Hnew & _ & Hall).
    destruct (Hall eq_refl) as [Hlen Hels].
    exists l, new. split; [rewrite Hi; apply lookup_insert_eq|].
    split; [exact Hnew|]. split; [cbn [length] in Hlen; lia|].
    intros i Hi'. apply Hels. lia.
  - change (sizeof (OfDef (mkDef (TPrim p) None)))
      with (Normal (0 + primitive_size p * 1)%nat).
    cbn [is_zero isSerialType isSerialPrimitive orb negb Nat.add].
    destruct (DataView_get p buffer offset false) as [v|]; [|discriminate].
    intros [= <- _]. exists v. split; [reflexivity|]. apply lookup_insert_eq.
  - change (sizeof (OfDef (mkDef TString (Some (S len)))))
      with (Normal (0 + 1 * S len)%nat).
    cbn [is_zero isSerialType isSerialPrimitive isSerializeable orb negb Nat.add].
    rewrite Nat.mul_1_l. intros [= <- _]. apply lookup_insert_eq.
Qed.

Lemma Deserialize_loop_decoded name buffer m : forall offset s s',
  NoDup m.*1 ->
  (forall k, k ∈ m.*1 -> st_instance s !! k = None) ->
  Deserialize_loop name buffer m offset s = (s', Normal tt) ->
  forall pre key def post, m = pre ++ (key, def) :: post ->
    stored (key, def) = true ->
    decoded_field buffer (offset + spec_size pre) key def s'.
Proof.
  induction m as [|[key def] rest IH];
    intros offset s s' Hnd Hfresh H pre k d post Hm Hst_def.
  - destruct pre; discriminate.
  - cbn [fmap list_fmap fst] in Hnd, Hfresh. apply NoDup_cons in Hnd as [Hnotin Hnd].
    cbn [Deserialize_loop] in H.
    destruct (Deserialize_member name buffer offset key def s) as [s1 [size|e]] eqn:E;
      [|discriminate].
    pose proof (Deserialize_member_other _ _ _ _ _ _ _ _ E) as (Hi1 & Hd1 & Hh1).
    assert (Hfresh1 : forall k0, k0 ∈ rest.*1 -> st_instance s1 !! k0 = None).
    { intros k0 Hk0. rewrite Hi1; [apply Hfresh; right; exact Hk0|].
      intros ->. contradiction. }
    destruct pre as [|f pre].
    + cbn [app] in Hm. injection Hm as <- <- <-.
      change (spec_size []) with 0%nat. rewrite Nat.add_0_r.
      apply (decoded_field_stable _ _ _ _ s1).
      * eapply Deserialize_member_decoded; [exact Hst_def| |exact E]. apply Hfresh. left.
      * apply (Deserialize_loop_other _ _ _ _ _ _ _ key 1%positive H Hnd). exact Hnotin.
      * intros l Hl.
        apply (Deserialize_loop_other _ _ _ _ _ _ _ key l H Hnd); [exact Hl|].
        intros k0 Hk0. rewrite get_property_None; [discriminate|]. apply Hfresh1, Hk0.
    + cbn [app] in Hm. injection Hm as <- ->.
      rewrite spec_size_cons.
      pose proof (Deserialize_member_size _ _ _ _ _ _ _ _ E) as Hsz.
      apply (sizeof_OfDef_spec key) in Hsz. unfold spec_fieldSize in Hsz. cbn [snd] in Hsz.
      rewrite <- Hsz, Nat.add_assoc.
      apply (IH _ _ _ Hnd Hfresh1 H pre k d post); [reflexivity|exact Hst_def].
Qed.

(** Writing with [littleEndian = false] is writing the reverse of the
    least-significant-first bytes. *)
Lemma NumericToRawBytes_reversed type v bs :
  NumericToRawBytes type v false = Normal bs ->
  exists bytes, NumericToRawBytes type v true = Normal bytes /\ bs = rev bytes.
Proof.
  destruct type; cbn [NumericToRawBytes];
    (destruct v as [[x|z]|]; cbn [ToNumber ToBigInt bind]; try discriminate;
     intros [= <-]; eexists; (split; [reflexivity|reflexivity])).
Qed.

Lemma DataView_get_Normal type buffer offset le v :
  DataView_get type buffer offset le = Normal v ->
  v = RawBytesToNumeric type (slice buffer offset (offset + primitive_size type)) le.
Proof.
  unfold DataView_get. destruct (_ <? _)%nat; [discriminate|]. intros [= <-]. reflexivity.
Qed.


(** ** The round trip, entry by entry *)

Lemma slice_singleton {A} (l : list A) i x :
  l !! i = Some x -> slice l i (i + 1) = [x].
Proof.
  intros H. unfold slice. replace (i + 1 - i)%nat with 1%nat by lia.
  rewrite (drop_S l x i H). reflexivity.
Qed.

Lemma flatMap_lookup prefix els arrayData i el :
  flatMap prefix els = Normal arrayData ->
  els !! i = Some el ->
  exists x, coerce_element prefix el = Normal x /\ arrayData !! i = Some x.
Proof.
  revert arrayData i. induction els as [|e rest IH]; intros arrayData i; cbn [flatMap].
  - intros _ H. rewrite lookup_nil in H. discriminate.
  - destruct (coerce_element prefix e) as [x|] eqn:Ex; [|discriminate]. cbn [bind].
    destruct (flatMap prefix rest) as [xs|]; [|discriminate]. cbn [bind].
    intros [= <-] Hi. destruct i as [|i].
    + cbn in Hi. injection Hi as <-. exists x. split; [exact Ex|reflexivity].
    + cbn in Hi. apply (IH xs i eq_refl Hi).
Qed.

(** For the one-byte kinds [data.set] stores what the accessor would. *)
Lemma NumericToRawBytes_byte p v :
  p = Int8 \/ p = Uint8 ->
  NumericToRawBytes p v false
  = (n <- ToNumber v; Normal [ToUint8 n]).
Proof. intros [-> | ->]; destruct v as [[x|z]|]; reflexivity. Qed.

(** A repeated entry of a one-byte or floating-point kind: slot [i] holds
    the raw bytes of [arrayData[i]]. *)
Lemma member_bytes_slots h name this key p n chunk :
  p = Int8 \/ p = Uint8 \/ p = Float32 \/ p = Float64 ->
  member_bytes h name this key (mkDef (TPrim p) (Some (S n))) = Normal chunk ->
  exists arrayData,
    flatMap (serialize_prefix key name) (elements_of h (get_property this key))
    = Normal arrayData
    /\ forall i, (i < S n)%nat ->
         NumericToRawBytes p (arrayData !! i) false
         = Normal (slice chunk (i * primitive_size p)
                     (i * primitive_size p + primitive_size p)).
Proof.
  intros Hp Hchunk.
  assert (Hcases : (p = Int8 \/ p = Uint8) \/ (p = Float32 \/ p = Float64)) by tauto.
  destruct Hcases as [Hbyte|Hfloat]; [|eapply member_bytes_floats; eassumption].
  pose proof (member_bytes_length _ _ _ _ _ _ Hchunk) as [_ Hlen].
  assert (Hw : primitive_size p = 1%nat) by (destruct Hbyte as [-> | ->]; reflexivity).
  field_size in Hlen.
  rewrite Hw, Nat.mul_1_l in Hlen.
  apply member_bytes_bytes in Hchunk as (arrayData & xs & Hfm & Htake & Hbytes);
    [|destruct Hbyte as [-> | ->]; discriminate..].
  exists arrayData. split; [exact Hfm|]. intros i Hi.
  rewrite Hw, Nat.mul_1_r, (NumericToRawBytes_byte p _ Hbyte).
  assert (Hxs : (length xs <= S n)%nat).
  { apply (f_equal length) in Htake. rewrite length_take, length_fmap, Hlen in Htake. lia. }
  assert (Hi' : arrayData !! i = take (length chunk) arrayData !! i).
  { rewrite lookup_take_lt by lia. reflexivity. }
  rewrite Hi', Htake, list_lookup_fmap.
  destruct (xs !! i) as [x|] eqn:Ex; cbn [fmap option_fmap option_map ToNumber bind].
  - f_equal. symmetry. apply slice_singleton. rewrite Hbytes.
    rewrite lookup_app_l by (rewrite length_fmap; eapply lookup_lt_Some, Ex).
    rewrite list_lookup_fmap, Ex. reflexivity.
  - f_equal. symmetry. apply slice_singleton. rewrite Hbytes.
    apply lookup_ge_None in Ex.
    rewrite lookup_app_r by (rewrite length_fmap; exact Ex).
    apply lookup_replicate_2. rewrite length_fmap. lia.
Qed.

(** Encoding then decoding one element of a kind in its domain. *)
Lemma slot_roundtrip p prefix el x chunk v :
  in_domain p el ->
  coerce_element prefix el = Normal x ->
  NumericToRawBytes p (Some x) false = Normal chunk ->
  v = RawBytesToNumeric p chunk false ->
  v = el.
Proof.
  intros Hdom Hx Hbytes ->.
  destruct (numeric_roundtrip p el false Hdom) as (bs & Hbs & Hback).
  assert (Hnum : numeric_of_value el = Some x).
  { destruct p; cbn [in_domain] in Hdom; destruct Hdom as (z & _ & ->);
      cbn in Hx |- *; congruence. }
  rewrite Hnum in Hbs. congruence.
Qed.

(** ** Text of one-byte characters *)

Lemma string_iterator_bytes (str : list Z) :
  Forall (fun ch => 0 <= ch < 256) str ->
  string_iterator str = (fun ch => [ch]) <$> str.
Proof.
  induction 1 as [|ch rest Hch Hrest IH]; [reflexivity|].
  cbn [string_iterator]. destruct rest as [|d rest']; [reflexivity|].
  assert (Hs : is_high_surrogate ch = false).
  { unfold is_high_surrogate. destruct (Z.leb_spec 55296 ch); [lia|reflexivity]. }
  rewrite Hs. cbn [andb]. rewrite IH. reflexivity.
Qed.

Lemma ToUint8_number_of_Z ch : 0 <= ch < 256 -> ToUint8 (number_of_Z ch) = ch.
Proof.
  intros H. unfold ToUint8. rewrite truncate_number_of_Z by lia. apply Z.mod_small. lia.
Qed.

Lemma flatMap_text prefix str :
  Forall (fun ch => 0 <= ch < 256) str ->
  flatMap prefix (elements_of ∅ (VString str)) = Normal (Num <$> (number_of_Z <$> str)).
Proof.
  intros H. cbn [elements_of]. rewrite string_iterator_bytes by exact H.
  clear H. induction str as [|ch rest IH]; [reflexivity|].
  cbn [fmap list_fmap flatMap coerce_element charCodeAt0 bind] in *.
  rewrite IH. reflexivity.
Qed.

Lemma elements_of_string h h' str : elements_of h (VString str) = elements_of h' (VString str).
Proof. reflexivity. Qed.

Lemma fmap_Num_inj (xs ys : list number) : Num <$> xs = Num <$> ys -> xs = ys.
Proof.
  revert ys. induction xs as [|x xs IH]; intros [|y ys]; cbn; try discriminate.
  - reflexivity.
  - intros [= -> H]. f_equal. apply IH, H.
Qed.

Lemma fmap_ToUint8_bytes str :
  Forall (fun ch => 0 <= ch < 256) str ->
  ToUint8 <$> (number_of_Z <$> str) = str.
Proof.
  induction 1 as [|ch rest Hch _ IH]; [reflexivity|].
  cbn [fmap list_fmap]. rewrite ToUint8_number_of_Z by exact Hch. f_equal. exact IH.
Qed.

(** The slot of a text entry: the characters that fit, then zeros. *)
Lemma member_bytes_text h name this key n chunk str :
  member_bytes h name this key (mkDef TString (Some (S n))) = Normal chunk ->
  get_property this key = VString str ->
  Forall (fun ch => 0 <= ch < 256) str ->
  chunk = take (S n) (str ++ replicate (S n - length str) 0).
Proof.
  intros Hchunk Hv Hstr.
  pose proof (member_bytes_length _ _ _ _ _ _ Hchunk) as [_ Hlen].
  field_size in Hlen.
  rewrite Nat.mul_1_l in Hlen.
  apply member_bytes_bytes in Hchunk as (arrayData & xs & Hfm & Htake & Hbytes);
    [|discriminate..].
  rewrite Hv, (elements_of_string h ∅), flatMap_text in Hfm by exact Hstr.
  injection Hfm as <-.
  rewrite <- !fmap_take in Htake. apply fmap_Num_inj in Htake. subst xs.
  rewrite Hbytes, Hlen.
  rewrite fmap_ToUint8_bytes by (apply Forall_take; exact Hstr).
  rewrite length_fmap, length_take.
  destruct (Nat.le_gt_cases (length str) (S n)) as [Hfit|Hlong].
  - rewrite (take_ge str) by lia. rewrite take_app_ge by lia.
    rewrite take_replicate. f_equal. f_equal. lia.
  - rewrite take_app_le by lia.
    replace (S n - S n `min` length str)%nat with 0%nat by lia.
    cbn [replicate]. apply app_nil_r.
Qed.

Lemma members_bytes_accepted h name this m bs :
  members_bytes h name this m = Normal bs ->
  forallb (fun field => accepted field.2) m = true.
Proof.
  revert bs. induction m as [|[key def] rest IH]; intros bs; cbn [members_bytes forallb snd].
  - reflexivity.
  - destruct (member_bytes h name this key def) as [chunk|] eqn:Hc; [|discriminate].
    destruct (members_bytes h name this rest) as [chunks|]; [|discriminate].
    intros _. rewrite (member_bytes_accepted _ _ _ _ _ _ Hc). apply (IH chunks eq_refl).
Qed.

Lemma reproduced_scalar h name this s' key p data offset :
  member_bytes h name this key (mkDef (TPrim p) None)
  = Normal (slice data offset (offset + spec_fieldSize (key, mkDef (TPrim p) None))) ->
  decoded_field data offset key (mkDef (TPrim p) None) s' ->
  reproduced h this s' key (mkDef (TPrim p) None).
Proof.
  intros Hchunk (v & Hg & Hk) Hdom. cbn [reproduced].
  apply member_bytes_scalar in Hchunk as [_ Hbytes].
  apply DataView_get_Normal in Hg.
  destruct (numeric_roundtrip p _ false Hdom) as (bs & Hbs & Hback).
  rewrite Hk. f_equal. rewrite Hg, <- Hback. f_equal.
  rewrite Hbs in Hbytes. injection Hbytes as ->.
  field_size. rewrite Nat.mul_1_r. reflexivity.
Qed.

Lemma reproduced_array h name this s' key p n data offset :
  member_bytes h name this key (mkDef (TPrim p) (Some (S n)))
  = Normal (slice data offset (offset + spec_fieldSize (key, mkDef (TPrim p) (Some (S n))))) ->
  decoded_field data offset key (mkDef (TPrim p) (Some (S n))) s' ->
  reproduced h this s' key (mkDef (TPrim p) (Some (S n))).
Proof.
  intros Hchunk (l' & els' & Hk & Hl' & Hlen' & Hels') Hp l els Hv Hl Hlen Hdom.
  exists l'. split; [exact Hk|]. rewrite Hl'. f_equal.
  apply (list_eq_same_length _ _ (S n)); [exact Hlen|exact Hlen'|].
  intros i x y Hi Hx Hy.
  destruct (member_bytes_slots _ _ _ _ _ _ _ Hp Hchunk) as (arrayData & Hfm & Hslots).
  rewrite Hv in Hfm. cbn [elements_of] in Hfm. rewrite Hl in Hfm. cbn [default] in Hfm.
  destruct (flatMap_lookup _ _ _ _ _ Hfm Hy) as (num & Hnum & Hai).
  destruct (Hels' i Hi) as (v & Hg & Hv').
  assert (x = v) by congruence. subst v.
  apply DataView_get_Normal in Hg.
  specialize (Hslots i Hi). rewrite Hai in Hslots.
  eapply (slot_roundtrip p _ y num).
  - eapply Forall_lookup_1; eassumption.
  - exact Hnum.
  - exact Hslots.
  - rewrite Hg. f_equal. symmetry. apply slice_slice.
    field_size. nia.
Qed.

Lemma reproduced_text h name this s' key n data offset :
  member_bytes h name this key (mkDef TString (Some (S n)))
  = Normal (slice data offset (offset + spec_fieldSize (key, mkDef TString (Some (S n))))) ->
  decoded_field data offset key (mkDef TString (Some (S n))) s' ->
  reproduced h this s' key (mkDef TString (Some (S n))).
Proof.
  intros Hchunk Hk str Hv Hstr. cbn [decoded_field] in Hk.
  pose proof (member_bytes_text _ _ _ _ _ _ _ Hchunk Hv Hstr) as Hbytes.
  field_size in Hbytes.
  rewrite Nat.mul_1_l in Hbytes. rewrite Hbytes in Hk.
  split; [exact Hk|].
  intros a ch -> Hch Hfit. rewrite Hk. do 2 f_equal.
  rewrite take_ge by (rewrite length_app, length_replicate; lia).
  rewrite <- app_assoc. cbn [app].
  rewrite decode_string_last_nonzero by exact Hch.
  apply fmap_fromCharCode_bytes, Hstr.
Qed.

(** ** The test suite *)

Example sizeof_Test : sizeof (OfStatic Test) = Normal 15%nat.
Proof. reflexivity. Qed.

Example serialize_Test :
  serialize test_heap Test test_instance = Normal expectedSerializedData.
Proof. vm_compute. reflexivity. Qed.

Example Deserialize_Test :
  let r := Deserialize Test (ArrayBuffer expectedSerializedData) (new_instance ∅) in
  r.2 = Normal tt
  /\ st_instance r.1 !! "prop1"%string = Some (VNumber (number_of_Z 42))
  /\ st_instance r.1 !! "prop2"%string = Some (VArray 1)
  /\ st_heap r.1 !! 1%positive
     = Some [VNumber (round_to 53 1024 (round_to 24 128 n3_14));
             VNumber (round_to 53 1024 (round_to 24 128 n2_71))]
  /\ st_instance r.1 !! "prop3"%string = Some (VString (js_string "test")).
Proof. vm_compute. repeat split. Qed.

(** C1.  [serialize] and [Deserialize] never read the [littleEndian]
    option: two classes that differ in it only are encoded and decoded
    alike.  With the default options ([littleEndian] true) the Int16 value
    42 of the test suite is written as [00 2A], most-significant byte
    first, not as [2A 00], and the bytes [2A 00] are read back as 10752. *)
Theorem littleEndian_option_ignored :
  (forall h name options options' members this,
     serialize h {| class_name := name; class_options := options;
                    class_serial := members |} this
     = serialize h {| class_name := name; class_options := options';
                      class_serial := members |} this)
  /\ (forall name options options' members data s,
        Deserialize {| class_name := name; class_options := options;
                       class_serial := members |} data s
        = Deserialize {| class_name := name; class_options := options';
                         class_serial := members |} data s)
  /\ class_options Test = defaultOptions
  /\ opt_littleEndian defaultOptions = true
  /\ serialize test_heap Test test_instance = Normal expectedSerializedData
  /\ slice expectedSerializedData 0 2 = [0; 42]
  /\ raw_bytes 2 42 true = [42; 0]
  /\ st_instance
       (Deserialize Test (ArrayBuffer (raw_bytes 2 42 true ++ drop 2 expectedSerializedData))
          (new_instance ∅)).1 !! "prop1"%string
     = Some (VNumber (number_of_Z 10752)).
Proof.
  split; [reflexivity|]. split; [reflexivity|]. vm_compute. repeat split.
Qed.

(** The instance of the test suite: the array [[3.14, 2.71]] of its field
    [prop2: Float32 x 2] comes back as the two binary32 values nearest to
    3.14 and 2.71, which are the values of the domain of Float32 that the
    slot can hold. *)
Example roundtrip_Test :
  serialize test_heap Test test_instance = Normal expectedSerializedData
  /\ let r := Deserialize Test (ArrayBuffer expectedSerializedData) (new_instance ∅) in
     r.2 = Normal tt
     /\ st_instance r.1 !! "prop2"%string = Some (VArray 1)
     /\ st_heap r.1 !! 1%positive
        = Some [VNumber (S754_finite false 7070651651194880 (-51));
                VNumber (S754_finite false 6102377580986368 (-51))].
Proof. vm_compute. repeat split. Qed.

(** C2.  The round trip does not reproduce an array of a multi-byte integer
    kind.  With [x: Int16 x 2] and [x = [1, 2]], two values of the domain
    of Int16 in an array of [repeat] elements, [serialize] returns
    [01 02 00 00], one byte per element, and [Deserialize] reads two
    elements of two bytes each from it: the new instance holds
    [[258, 0]].  The bytes of two elements of two bytes each,
    [00 01 00 02], are decoded as [[1, 2]]. *)
Theorem roundtrip_Int16_array :
  let els := [VNumber (number_of_Z 1); VNumber (number_of_Z 2)] in
  let h : heap := {[ 1%positive := els ]} in
  let this : object := {[ "x"%string := VArray 1 ]} in
  class_serial Int16Pair = [("x"%string, mkDef (TPrim Int16) (Some 2%nat))]
  /\ Forall (in_domain Int16) els
  /\ serialize h Int16Pair this = Normal [1; 2; 0; 0]
  /\ (let r := Deserialize Int16Pair (ArrayBuffer [1; 2; 0; 0]) (new_instance ∅) in
      r.2 = Normal tt
      /\ st_instance r.1 !! "x"%string = Some (VArray 1)
      /\ st_heap r.1 !! 1%positive
         = Some [VNumber (number_of_Z 258); VNumber (number_of_Z 0)])
  /\ [VNumber (number_of_Z 258); VNumber (number_of_Z 0)] <> els
  /\ raw_bytes 2 1 false ++ raw_bytes 2 2 false = [0; 1; 0; 2]
  /\ (let r := Deserialize Int16Pair (ArrayBuffer [0; 1; 0; 2]) (new_instance ∅) in
      r.2 = Normal tt
      /\ st_instance r.1 !! "x"%string = Some (VArray 1)
      /\ st_heap r.1 !! 1%positive = Some els).
Proof.
  cbv zeta. split; [reflexivity|]. split.
  { apply List.Forall_cons; [exists 1; split; [lia|reflexivity]|].
    apply List.Forall_cons; [exists 2; split; [lia|reflexivity]|]. apply List.Forall_nil. }
  vm_compute. repeat split. discriminate.
Qed.

(** C3.  With [x: Int16 x 2] and [x = [1, 2, 3]], [serialize] keeps three
    elements and writes each as one byte, [01 02 03 00]; two elements of
    two bytes each would be [00 01 00 02] (or [01 00 02 00]). *)
Theorem serialize_Int16_array_bytes :
  let h : heap :=
    {[ 1%positive := [VNumber (number_of_Z 1); VNumber (number_of_Z 2);
                      VNumber (number_of_Z 3)] ]} in
  let this : object := {[ "x"%string := VArray 1 ]} in
  serialize h Int16Pair this = Normal [1; 2; 3; 0]
  /\ raw_bytes 2 1 false ++ raw_bytes 2 2 false = [0; 1; 0; 2]
  /\ raw_bytes 2 1 true ++ raw_bytes 2 2 true = [1; 0; 2; 0].
Proof. vm_compute. repeat split. Qed.

(** C4, counterexample.  [sizeof] returns 1 on a class with a field of
    repeat count 0; [serialize] writes the first field and [Deserialize]
    reads it into the instance before they throw at the second. *)
Lemma zero_repeat_counterexample :
  sizeof (OfStatic ZeroRepeat) = Normal 1%nat
  /\ serialize_member ∅ "ZeroRepeat" {[ "a"%string := VNumber (number_of_Z 7) ]}
       [0] 0 "a" (mkDef (TPrim Int8) None) = Normal ([7], 1%nat)
  /\ throws (serialize ∅ ZeroRepeat {[ "a"%string := VNumber (number_of_Z 7) ]})
  /\ let r := Deserialize ZeroRepeat (ArrayBuffer [7]) (new_instance ∅) in
     throws r.2 /\ st_instance r.1 !! "a"%string = Some (VNumber (number_of_Z 7)).
Proof. vm_compute. repeat split. Qed.

(** C5.  A text slot of zero bytes only is decoded as the one-character
    string holding NUL, whatever its length: five zero bytes give a string
    of length 1, not 5. *)
Theorem Deserialize_zero_text :
  (forall k, decode_string (replicate (S k) 0) = [0])
  /\ let r := Deserialize Text5 (ArrayBuffer [0; 0; 0; 0; 0]) (new_instance ∅) in
     r.2 = Normal tt /\ st_instance r.1 !! "c"%string = Some (VString [0]).
Proof. split; [apply decode_string_zeros|]. vm_compute. split; reflexivity. Qed.


(** C7.  With [b: Float32 x 2] and [b = [1.5]] the second slot holds the
    bytes of NaN, [7F C0 00 00], and is decoded as NaN. *)
Theorem serialize_short_Float32_array :
  let h : heap := {[ 1%positive := [VNumber (S754_finite false 6755399441055744 (-52))] ]} in
  let this : object := {[ "b"%string := VArray 1 ]} in
  serialize h Float32Pair this = Normal [63; 192; 0; 0; 127; 192; 0; 0]
  /\ let r := Deserialize Float32Pair (ArrayBuffer [63; 192; 0; 0; 127; 192; 0; 0])
                (new_instance ∅) in
     r.2 = Normal tt
     /\ st_heap r.1 !! 1%positive
        = Some [VNumber (S754_finite false 6755399441055744 (-52)); VNumber NaN].
Proof. vm_compute. repeat split. Qed.

(** C8.  [Nested] has the fields [inner: _Test x 2] and [flag: Uint8]: its
    schema is well formed and its field sizes add up to 15 * 2 + 1 = 31,
    [sizeof] of [_Test] being 15.  [sizeof] throws on [Nested] and on its
    instances (an instance of [Nested] has no property [type]): the class
    [_Test] does not pass [isSerialType], so the entry [inner] does not
    pass [isSerialDef] and [Nested] does not pass [isSerializeableStatic];
    [sizeof] then takes [Nested], or the instance, for a type, which no
    branch of its loop accepts. *)
Theorem sizeof_nested_class :
  well_formed (class_serial Nested) = true
  /\ spec_size (class_serial Nested) = 31%nat
  /\ sizeof (OfStatic Test) = Normal 15%nat
  /\ isSerialType (class_type Test) = false
  /\ isSerialDef (mkDef (class_type Test) (Some 2%nat)) = false
  /\ isSerializeableStatic (class_type Nested) = false
  /\ sizeof (OfStatic Nested) = Throw (not_a_valid_type "Function")
  /\ (forall this, this !! "type"%string = None ->
      sizeof (OfInstance Nested this) = Throw (not_a_valid_type "Nested"))
  /\ sizeof (OfDef (mkDef (class_type Test) (Some 2%nat)))
     = Throw (not_a_valid_type "Object").
Proof.
  repeat split. intros this Hthis. cbn [sizeof].
  unfold SerialDef_of_instance, get_property. rewrite Hthis. reflexivity.
Qed.

(** C9.  [Deserialize] reads the underlying buffer of a view from its
    byte 0, whatever the [byteOffset] and [byteLength] of the view: the
    result is the one for the buffer itself; on a class of accepted
    entries with distinct names it returns as soon as the underlying
    buffer has [sizeof] bytes, however short the view, and a new instance
    then holds, for each entry, what is read in the underlying buffer at
    the sum of the sizes of the entries before it (when the instance
    inherits nothing under the name of the entry).  A two-byte view at
    offset 13 of the 15 bytes of the test suite is decoded as the whole
    buffer: [prop1] is 42, from the bytes 0 and 1 of the buffer. *)
Theorem Deserialize_ignores_view_window (this : SerialStatic) (buffer : list Z)
    (byteOffset byteLength : nat) :
  (forall s, Deserialize this (ArrayBufferView buffer byteOffset byteLength) s
             = Deserialize this (ArrayBuffer buffer) s)
  /\ (forallb (fun field => accepted field.2) (class_serial this) = true ->
      NoDup (class_serial this).*1 ->
      (spec_size (class_serial this) <= length buffer)%nat ->
      forall h0, exists s',
        Deserialize this (ArrayBufferView buffer byteOffset byteLength) (new_instance h0)
        = (s', Normal tt)
        /\ forall pre key def post,
             class_serial this = pre ++ (key, def) :: post ->
             inherited key = false ->
             decoded_field buffer (spec_size pre) key def s')
  /\ (let r := Deserialize Test (ArrayBufferView expectedSerializedData 13 2)
                 (new_instance ∅) in
      r.2 = Normal tt
      /\ slice expectedSerializedData 0 2 = [0; 42]
      /\ slice expectedSerializedData 13 15 = [116; 0]
      /\ st_instance r.1 !! "prop1"%string = Some (VNumber (number_of_Z 42))
      /\ st_instance r.1 !! "prop3"%string = Some (VString (js_string "test"))).
Proof.
  split; [reflexivity|]. split; [|vm_compute; repeat split].
  intros Hacc Hnd Hfit h0. unfold Deserialize. cbn [buffer_of].
  destruct (Deserialize_loop_new (class_name this) buffer (class_serial this) 0
              (new_instance h0) Hacc Hnd) as (s' & Hloop & Hall).
  { intros k _. apply lookup_empty. }
  { lia. }
  exists s'. split; [exact Hloop|].
  intros pre key def post Hm Hinh. apply (Hall pre key def post Hm).
  apply stored_inherited, Hinh.
Qed.
(** ** Fields of repeat count 0 *)

Lemma serialize_member_zero h name this data offset key t :
  throws (serialize_member h name this data offset key (mkDef t (Some 0%nat))).
Proof.
  unfold serialize_member. destruct (sizeof _); exact I.
Qed.

Lemma Deserialize_member_zero name buffer offset key t s :
  throws (Deserialize_member name buffer offset key (mkDef t (Some 0%nat)) s).2
  /\ (Deserialize_member name buffer offset key (mkDef t (Some 0%nat)) s).1 = s.
Proof.
  unfold Deserialize_member. destruct (sizeof _); split; first [exact I | reflexivity].
Qed.

Lemma serialize_loop_zero h name this m key t : forall data offset,
  (key, mkDef t (Some 0%nat)) ∈ m ->
  throws (serialize_loop h name this m data offset).
Proof.
  induction m as [|[k d] rest IH]; intros data offset Hin.
  - apply elem_of_nil in Hin. contradiction.
  - cbn [serialize_loop]. apply elem_of_cons in Hin as [Heq|Hin].
    + injection Heq as <- <-.
      pose proof (serialize_member_zero h name this data offset key t) as H.
      destruct (serialize_member _ _ _ _ _ _ _); [contradiction|exact I].
    + destruct (serialize_member h name this data offset k d) as [r|]; [|exact I].
      cbn [bind]. apply IH, Hin.
Qed.

Lemma Deserialize_loop_zero name buffer m key t : forall offset s,
  (key, mkDef t (Some 0%nat)) ∈ m ->
  throws (Deserialize_loop name buffer m offset s).2.
Proof.
  induction m as [|[k d] rest IH]; intros offset s Hin.
  - apply elem_of_nil in Hin. contradiction.
  - cbn [Deserialize_loop]. apply elem_of_cons in Hin as [Heq|Hin].
    + injection Heq as <- <-.
      pose proof (Deserialize_member_zero name buffer offset key t s) as [H _].
      destruct (Deserialize_member _ _ _ _ _ _) as [s1 [size|e]]; [contradiction|exact I].
    + destruct (Deserialize_member name buffer offset k d s) as [s1 [size|e]]; [|exact I].
      apply IH, Hin.
Qed.

Lemma member_zero_Error h name this data offset key t s :
  isSerialType t = true ->
  serialize_member h name this data offset key (mkDef t (Some 0%nat))
  = Throw (Error (serialize_prefix key name +:+ "0-length arrays are not yet supported"))
  /\ Deserialize_member name data offset key (mkDef t (Some 0%nat)) s
     = (s, Throw (Error (deserialize_prefix key name
                         +:+ "0-length arrays are not yet supported"))).
Proof.
  destruct t as [p| |cn le m|o]; try discriminate; intros _; split; reflexivity.
Qed.

(** C4, amended.  For every schema containing a field whose repeat count
    is exactly 0, [serialize] and [Deserialize] throw, whatever the
    instance and the buffer; when the field is numeric or text, what their
    loops throw on reaching it is the Error "0-length arrays are not yet
    supported".  [sizeof] does not throw on that account: on a schema of
    numeric and text fields it returns the sum of the field sizes, to which
    the field contributes 0. *)
Theorem zero_repeat_rejected (h : heap) (c : SerialStatic) (this : object)
    (data : BufferSource) (s : state) (key : string) (t : SerialType) :
  (key, mkDef t (Some 0%nat)) ∈ class_serial c ->
  throws (serialize h c this)
  /\ throws (Deserialize c data s).2
  /\ (isSerialType t = true ->
      forall buffer offset s1,
        serialize_member h (class_name c) this buffer offset key (mkDef t (Some 0%nat))
        = Throw (Error (serialize_prefix key (class_name c)
                        +:+ "0-length arrays are not yet supported"))
        /\ Deserialize_member (class_name c) buffer offset key (mkDef t (Some 0%nat)) s1
           = (s1, Throw (Error (deserialize_prefix key (class_name c)
                                +:+ "0-length arrays are not yet supported"))))
  /\ spec_fieldSize (key, mkDef t (Some 0%nat)) = 0%nat
  /\ (isSerializeableStatic (class_type c) = true ->
      sizeof (OfStatic c) = Normal (spec_size (class_serial c))).
Proof.
  intros Hin. split; [|split; [|split; [|split]]].
  - unfold serialize. destruct (sizeof (OfInstance c this)) as [size|]; [|exact I].
    cbn [bind]. eapply serialize_loop_zero, Hin.
  - unfold Deserialize. eapply Deserialize_loop_zero, Hin.
  - intros Ht buffer offset s1. apply member_zero_Error, Ht.
  - unfold spec_fieldSize. cbn. lia.
  - intros Hc. apply (sizeof_isSerializeableStatic c Hc).
Qed.

(** ** Buffers that end before the slot of a numeric field *)






(** ** An instance whose repeated field already holds an array *)



(** X6.  The byte order of the accessors as they are called.  Whatever the
    [littleEndian] option of the class, [serialize] writes every scalar
    numeric field, and every element of a repeated Float32 or Float64
    field, most-significant byte first: the slot holds the reverse of the
    least-significant-first bytes of the value.  [Deserialize] reads every
    numeric field, scalar or repeated, most-significant byte first, at the
    stride of its kind; a new instance that inherits nothing under the
    name of the field then holds the values read. *)
Lemma numeric_fields_most_significant_first (c : SerialStatic)
    (pre post : SerialMap) (key : string) (p : SerialPrimitive) (repeat : option nat) :
  class_serial c = pre ++ (key, mkDef (TPrim p) repeat) :: post ->
  NoDup (class_serial c).*1 ->
  (forall h this data, serialize h c this = Normal data ->
     match repeat with
     | None =>
         exists bytes,
           NumericToRawBytes p (numeric_of_value (get_property this key)) true = Normal bytes
           /\ slice data (spec_size pre) (spec_size pre + primitive_size p) = rev bytes
     | Some n =>
         p = Float32 \/ p = Float64 ->
         exists arrayData,
           flatMap (serialize_prefix key (class_name c)) (elements_of h (get_property this key))
           = Normal arrayData
           /\ forall i, (i < n)%nat ->
                exists bytes,
                  NumericToRawBytes p (arrayData !! i) true = Normal bytes
                  /\ slice data (spec_size pre + i * primitive_size p)
                       (spec_size pre + i * primitive_size p + primitive_size p)
                     = rev bytes
     end)
  /\ (forall data h0 s',
        inherited key = false ->
        Deserialize c data (new_instance h0) = (s', Normal tt) ->
        match repeat with
        | None =>
            st_instance s' !! key
            = Some (RawBytesToNumeric p
                      (rev (slice (buffer_of data) (spec_size pre)
                              (spec_size pre + primitive_size p))) true)
        | Some n =>
            exists l els,
              st_instance s' !! key = Some (VArray l)
              /\ st_heap s' !! l = Some els
              /\ length els = n
              /\ forall i, (i < n)%nat ->
                   els !! i
                   = Some (RawBytesToNumeric p
                             (rev (slice (buffer_of data)
                                     (spec_size pre + i * primitive_size p)
                                     (spec_size pre + i * primitive_size p
                                      + primitive_size p))) true)
        end).
Proof.
  intros Hm Hnd. split.
  - intros h this data Hser.
    destruct (serialize_slot _ _ _ _ _ _ _ _ Hser Hm) as [_ Hchunk].
    destruct repeat as [n|].
    + intros Hp. destruct n as [|n].
      { apply member_bytes_accepted in Hchunk. discriminate. }
      destruct (member_bytes_floats _ _ _ _ _ _ _ Hp Hchunk) as (arrayData & Hfm & Hslots).
      exists arrayData. split; [exact Hfm|]. intros i Hi.
      specialize (Hslots i Hi).
      apply NumericToRawBytes_reversed in Hslots as (bytes & Hb & Hrev).
      exists bytes. split; [exact Hb|]. rewrite <- Hrev.
      symmetry. apply slice_slice.
      field_size. nia.
    + apply member_bytes_scalar in Hchunk as [_ Hbytes].
      apply NumericToRawBytes_reversed in Hbytes as (bytes & Hb & Hrev).
      exists bytes. split; [exact Hb|]. rewrite <- Hrev.
      field_size.
      rewrite Nat.mul_1_r. reflexivity.
  - intros data h0 s' Hinh Hdes. unfold Deserialize in Hdes.
    assert (Hd : decoded_field (buffer_of data) (0 + spec_size pre) key
                   (mkDef (TPrim p) repeat) s').
    { eapply Deserialize_loop_decoded;
        [exact Hnd| |exact Hdes|exact Hm|apply stored_inherited, Hinh].
      intros k _. apply lookup_empty. }
    cbn [Nat.add decoded_field] in Hd. destruct repeat as [n|].
    + destruct Hd as (l & els & Hk & Hl & Hlen & Hels).
      exists l, els. repeat (split; [assumption|]).
      intros i Hi. destruct (Hels i Hi) as (v & Hg & Hv).
      apply DataView_get_Normal in Hg. rewrite Hv, Hg. reflexivity.
    + destruct Hd as (v & Hg & Hk).
      apply DataView_get_Normal in Hg. rewrite Hk, Hg. reflexivity.
Qed.

(** X27.  The round trip.  For every schema with distinct field names, none
    of which the instances inherit, and every instance that [serialize]
    accepts, [Deserialize] returns on the buffer produced, and in the new
    instance it fills: every scalar numeric field whose value lies in the
    domain of its kind is reproduced exactly; so is every repeated Int8,
    Uint8, Float32 or Float64 field whose array has exactly [repeat]
    elements of the domain; and a text field of one-byte characters is
    what the NUL-seeking policy recovers from the zero-padded text, the
    text itself when it is not empty, fits and does not end with NUL. *)
Theorem roundtrip (h : heap) (c : SerialStatic) (this : object) (data : list Z)
    (h0 : heap) :
  NoDup (class_serial c).*1 ->
  own_names (class_serial c) = true ->
  serialize h c this = Normal data ->
  exists s', Deserialize c (ArrayBuffer data) (new_instance h0) = (s', Normal tt)
    /\ forall key def, (key, def) ∈ class_serial c -> reproduced h this s' key def.
Proof.
  intros Hnd Hown Hser.
  pose proof (serialize_members _ _ _ _ Hser) as Hmem.
  pose proof (members_bytes_accepted _ _ _ _ _ Hmem) as Hacc.
  pose proof (members_bytes_length _ _ _ _ _ Hmem) as Hlen.
  destruct (Deserialize_loop_new (class_name c) data (class_serial c) 0 (new_instance h0)
              Hacc Hnd) as (s' & Hloop & Hall).
  { intros k _. apply lookup_empty. }
  { lia. }
  exists s'. split; [exact Hloop|].
  intros key def Hin.
  assert (Hinh : inherited key = false).
  { unfold own_names in Hown. rewrite forallb_forall in Hown.
    apply list_elem_of_In, Hown in Hin. apply negb_true_iff in Hin. exact Hin. }
  apply list_elem_of_split in Hin as (pre & post & Hm).
  specialize (Hall pre key def post Hm (stored_inherited _ _ Hinh)). cbn [Nat.add] in Hall.
  destruct (serialize_slot _ _ _ _ _ _ _ _ Hser Hm) as [_ Hchunk].
  pose proof (member_bytes_accepted _ _ _ _ _ _ Hchunk) as Hdef.
  destruct def as [[p| |cn le m|o] [[|n]|]]; try discriminate.
  - eapply reproduced_array; eassumption.
  - eapply reproduced_scalar; eassumption.
  - eapply reproduced_text; eassumption.
Qed.
(** ** The theorems at the classes of the test suite *)

(** The field names of [_Test] are distinct. *)
Lemma Test_NoDup : NoDup (class_serial Test).*1.
Proof. apply (bool_decide_unpack (NoDup (class_serial Test).*1)). vm_compute. exact I. Qed.

(** [sizeof] of [_Test], and of a class with the fields of [_Test] in
    another order. *)
Lemma sizeof_additive_order_independent_Test :
  sizeof (OfStatic Test) = Normal (spec_size (class_serial Test))
  /\ sizeof (OfStatic (serialClass "_Test" (rev (class_serial Test))))
     = sizeof (OfStatic Test).
Proof.
  destruct (sizeof_additive_order_independent Test
              (serialClass "_Test" (rev (class_serial Test)))) as [Hsum Hsame].
  - apply Permutation_rev.
  - split; [apply Hsum; reflexivity|exact Hsame].
Defined.

(** The slot of [prop1] in the bytes of the test suite, and what is read
    from it. *)
Lemma numeric_fields_most_significant_first_Test :
  (exists bytes,
     NumericToRawBytes Int16 (numeric_of_value (get_property test_instance "prop1")) true
     = Normal bytes
     /\ slice expectedSerializedData 0 2 = rev bytes)
  /\ st_instance (Deserialize Test (ArrayBuffer expectedSerializedData) (new_instance ∅)).1
       !! "prop1"%string
     = Some (RawBytesToNumeric Int16 (rev (slice expectedSerializedData 0 2)) true).
Proof.
  destruct (numeric_fields_most_significant_first Test []
              [ ("prop2"%string, mkDef (TPrim Float32) (Some 2%nat));
                ("prop3"%string, mkDef TString (Some 5%nat)) ]
              "prop1" Int16 None eq_refl Test_NoDup) as [Hser Hdes].
  split.
  - apply (Hser test_heap test_instance expectedSerializedData). vm_compute. reflexivity.
  - apply (Hdes (ArrayBuffer expectedSerializedData) ∅
             (Deserialize Test (ArrayBuffer expectedSerializedData) (new_instance ∅)).1).
    + vm_compute. reflexivity.
    + vm_compute. reflexivity.
Defined.

(** The round trip of the instance of the test suite: [prop1 = 42] and
    [prop3 = 'test'] are found again. *)
Lemma roundtrip_witness :
  exists s',
    Deserialize Test (ArrayBuffer expectedSerializedData) (new_instance ∅) = (s', Normal tt)
    /\ st_instance s' !! "prop1"%string = Some (VNumber (number_of_Z 42))
    /\ st_instance s' !! "prop3"%string = Some (VString (js_string "test")).
Proof.
  destruct (roundtrip test_heap Test test_instance expectedSerializedData ∅)
    as (s' & Hdes & Hall).
  - exact Test_NoDup.
  - vm_compute. reflexivity.
  - vm_compute. reflexivity.
  - exists s'. split; [exact Hdes|]. split.
    + apply (Hall "prop1"%string (mkDef (TPrim Int16) None)).
      * apply list_elem_of_here.
      * exists 42. split; [lia|reflexivity].
    + assert (Hbytes : Forall (fun ch => 0 <= ch < 256) (js_string "test")).
      { change (js_string "test") with [116; 101; 115; 116].
        repeat (apply List.Forall_cons; [lia|]). apply List.Forall_nil. }
      destruct (Hall "prop3"%string (mkDef TString (Some 5%nat))
                  (list_elem_of_further _ _ _
                     (list_elem_of_further _ _ _ (list_elem_of_here _ _)))
                  (js_string "test") eq_refl Hbytes) as [_ Hsame].
      apply (Hsame (js_string "tes") 116); [reflexivity|discriminate|cbn; lia].
Defined.

(** A class whose second field has a repeat count of 0. *)
Lemma zero_repeat_rejected_witness :
  throws (serialize ∅ ZeroRepeat ∅)
  /\ throws (Deserialize ZeroRepeat (ArrayBuffer [7]) (new_instance ∅)).2
  /\ Deserialize_member "ZeroRepeat" [7] 1 "b" (mkDef (TPrim Int8) (Some 0%nat))
       (new_instance ∅)
     = (new_instance ∅,
        Throw (Error (deserialize_prefix "b" "ZeroRepeat"
                      +:+ "0-length arrays are not yet supported")))
  /\ sizeof (OfStatic ZeroRepeat) = Normal (spec_size (class_serial ZeroRepeat)).
Proof.
  destruct (zero_repeat_rejected ∅ ZeroRepeat ∅ (ArrayBuffer [7]) (new_instance ∅)
              "b" (TPrim Int8)) as (Hser & Hdes & Hmember & _ & Hsize).
  - apply list_elem_of_further, list_elem_of_here.
  - split; [exact Hser|]. split; [exact Hdes|]. split.
    + apply (Hmember eq_refl [7] 1%nat (new_instance ∅)).
    + apply Hsize. reflexivity.
Defined.


(** * Further properties of the code *)

Tactic Notation "run_guards" "in" hyp(H) :=
  cbn [def_type def_length is_zero is_set is_string isSerialType isSerialPrimitive
       isSerializeable orb andb negb] in H.

(** ** Further properties of [sizeof] *)

Lemma type_named_cases v t :
  type_named v = Some t -> (exists p, t = TPrim p) \/ t = TString.
Proof.
  unfold type_named. destruct v as [| | | |str|]; try discriminate.
  destruct (list_find _ _) as [[i [name p]]|].
  - intros [= <-]. left. exists p. reflexivity.
  - destruct (bool_decide _); [|discriminate]. intros [= <-]. right. reflexivity.
Qed.

Lemma SerialDef_of_instance_None (this : object) :
  this !! "type"%string = None -> SerialDef_of_instance this = None.
Proof. intros H. unfold SerialDef_of_instance, get_property. rewrite H. reflexivity. Qed.

(** X2.  [sizeof] returns a number on a class exactly when the class passes
    [isSerializeableStatic], and on a [SerialDef] exactly when it passes
    [isSerialDef]; the number is then the sum of the field sizes.  On an
    instance of a class that passes, it returns the sum for the class; on
    an instance of a class that does not, it throws with the name of the
    class if the instance has no property [type], and it returns the size
    of one element of the type if the property [type] of the instance
    names a type and the instance has no property [length]: 1 for an
    instance of [Nested] whose [type] is ['Int8']. *)
Theorem sizeof_returns_iff_guard (c : SerialStatic) (def : SerialDef) :
  (sizeof (OfStatic c)
   = if isSerializeableStatic (class_type c) then Normal (spec_size (class_serial c))
     else Throw (not_a_valid_type "Function"))
  /\ (forall this,
        isSerializeableStatic (class_type c) = true ->
        sizeof (OfInstance c this) = Normal (spec_size (class_serial c)))
  /\ (forall this,
        isSerializeableStatic (class_type c) = false ->
        this !! "type"%string = None ->
        sizeof (OfInstance c this) = Throw (not_a_valid_type (class_name c)))
  /\ (forall this type,
        isSerializeableStatic (class_type c) = false ->
        type_named (get_property this "type") = Some type ->
        this !! "length"%string = None ->
        sizeof (OfInstance c this) = Normal (spec_elementWidth type))
  /\ sizeof (OfInstance Nested {[ "type"%string := VString (js_string "Int8") ]})
     = Normal 1%nat
  /\ (sizeof (OfDef def)
      = if isSerialDef def then Normal (spec_fieldSize (EmptyString, def))
        else Throw (not_a_valid_type "Object"))
  /\ ((exists n, sizeof (OfStatic c) = Normal n)
      <-> isSerializeableStatic (class_type c) = true)
  /\ ((exists n, sizeof (OfDef def) = Normal n) <-> isSerialDef def = true).
Proof.
  assert (Hc : sizeof (OfStatic c)
               = if isSerializeableStatic (class_type c)
                 then Normal (spec_size (class_serial c))
                 else Throw (not_a_valid_type "Function")).
  { destruct (isSerializeableStatic (class_type c)) eqn:E.
    - apply (sizeof_isSerializeableStatic c E).
    - cbn [sizeof]. rewrite E. reflexivity. }
  assert (Hd : sizeof (OfDef def)
               = if isSerialDef def then Normal (spec_fieldSize (EmptyString, def))
                 else Throw (not_a_valid_type "Object")).
  { destruct (isSerialDef def) eqn:E.
    - destruct (sizeof (OfDef def)) as [n|e] eqn:Hn.
      + f_equal. apply sizeof_OfDef_spec, Hn.
      + cbn [sizeof] in Hn. rewrite E in Hn. cbn [sizeof_loop] in Hn.
        rewrite (sizeof_type_isSerialDef def E) in Hn. discriminate.
    - cbn [sizeof]. rewrite E. reflexivity. }
  split; [exact Hc|]. split.
  { intros this E. apply (sizeof_isSerializeableStatic c E). }
  split.
  { intros this E Htype. cbn [sizeof]. rewrite E.
    rewrite SerialDef_of_instance_None by exact Htype. reflexivity. }
  split.
  { intros this type E Htype Hlength. cbn [sizeof]. rewrite E.
    unfold SerialDef_of_instance. rewrite Htype.
    unfold get_property at 1. rewrite Hlength. cbn [default from_option].
    destruct (type_named_cases _ _ Htype) as [[p ->]| ->]; cbn; f_equal; lia. }
  split; [reflexivity|].
  split; [exact Hd|]. split.
  - rewrite Hc. destruct (isSerializeableStatic (class_type c)).
    + split; [reflexivity|]. intros _. eexists. reflexivity.
    + split; [intros [n Hn]; discriminate | discriminate].
  - rewrite Hd. destruct (isSerialDef def).
    + split; [reflexivity|]. intros _. eexists. reflexivity.
    + split; [intros [n Hn]; discriminate | discriminate].
Qed.

Lemma Deserialize_loop_throws name buffer m key def :
  (forall offset s, throws (Deserialize_member name buffer offset key def s).2) ->
  (key, def) ∈ m ->
  forall offset s, throws (Deserialize_loop name buffer m offset s).2.
Proof.
  intros Hmember. induction m as [|[k d] rest IH]; intros Hin offset s.
  - apply elem_of_nil in Hin. contradiction.
  - cbn [Deserialize_loop]. apply elem_of_cons in Hin as [Heq|Hin].
    + injection Heq as <- <-.
      specialize (Hmember offset s).
      destruct (Deserialize_member _ _ _ _ _ _) as [s1 [size|e]]; [contradiction|exact I].
    + destruct (Deserialize_member name buffer offset k d s) as [s1 [size|e]]; [|exact I].
      apply IH, Hin.
Qed.

(** X3.  A class with an entry that does not pass [isSerialDef] (its type is a
    class, or a string that names no type) is not serializable: [sizeof]
    throws on the class, [serialize] throws on every instance and
    [Deserialize] throws on every buffer.  On an instance that has no
    property [type], [sizeof] throws with the name of the class, and that
    is what [serialize] throws. *)
Theorem unserializable_entry_rejected (h : heap) (c : SerialStatic) (this : object)
    (data : BufferSource) (s : state) (key : string) (def : SerialDef) :
  (key, def) ∈ class_serial c ->
  isSerialDef def = false ->
  sizeof (OfStatic c) = Throw (not_a_valid_type "Function")
  /\ throws (serialize h c this)
  /\ throws (Deserialize c data s).2
  /\ (this !! "type"%string = None ->
      sizeof (OfInstance c this) = Throw (not_a_valid_type (class_name c))
      /\ serialize h c this = Throw (not_a_valid_type (class_name c))).
Proof.
  intros Hin Hdef.
  assert (Hc : isSerializeableStatic (class_type c) = false).
  { cbn [isSerializeableStatic class_type].
    destruct (isSerialMap (class_serial c)) eqn:Hm; [|reflexivity].
    unfold isSerialMap in Hm. rewrite forallb_forall in Hm.
    apply list_elem_of_In in Hin. apply Hm in Hin. cbn [snd] in Hin. congruence. }
  split; [cbn [sizeof]; rewrite Hc; reflexivity|].
  split; [apply serialize_not_serializable, Hc|].
  split.
  - unfold Deserialize. eapply Deserialize_loop_throws; [|exact Hin].
    intros offset s0. unfold Deserialize_member. cbn [sizeof]. rewrite Hdef. exact I.
  - intros Htype. unfold serialize. cbn [sizeof]. rewrite Hc.
    rewrite SerialDef_of_instance_None by exact Htype. split; reflexivity.
Qed.

Lemma unserializable_entry_rejected_Nested :
  sizeof (OfStatic Nested) = Throw (not_a_valid_type "Function")
  /\ throws (serialize ∅ Nested ∅)
  /\ throws (Deserialize Nested (ArrayBuffer (replicate 31 0)) (new_instance ∅)).2
  /\ sizeof (OfInstance Nested ∅) = Throw (not_a_valid_type "Nested")
  /\ serialize ∅ Nested ∅ = Throw (not_a_valid_type "Nested").
Proof.
  destruct (unserializable_entry_rejected ∅ Nested ∅ (ArrayBuffer (replicate 31 0))
              (new_instance ∅) "inner" (mkDef (class_type Test) (Some 2%nat)))
    as (Hsize & Hser & Hdes & Hthis).
  - apply list_elem_of_here.
  - reflexivity.
  - split; [exact Hsize|]. split; [exact Hser|]. split; [exact Hdes|].
    apply Hthis. apply lookup_empty.
Defined.

(** ** Further properties of [serialize] *)

(** X4.  The buffer that [serialize] returns has exactly [sizeof(this)] bytes,
    the sum of the field sizes. *)
Theorem serialize_length (h : heap) (c : SerialStatic) (this : object) (data : list Z) :
  serialize h c this = Normal data ->
  sizeof (OfInstance c this) = Normal (length data)
  /\ sizeof (OfStatic c) = Normal (length data)
  /\ length data = spec_size (class_serial c).
Proof.
  intros Hser. pose proof (serialize_members _ _ _ _ Hser) as Hmem.
  apply members_bytes_length in Hmem.
  pose proof (serialize_Normal_isSerialMap _ _ _ _ Hser) as Hc.
  destruct (sizeof_isSerializeableStatic c Hc) as (Hstatic & Hinstance & _).
  rewrite Hmem. repeat split; [apply Hinstance|exact Hstatic].
Qed.

Lemma serialize_length_Test :
  sizeof (OfInstance Test test_instance) = Normal (length expectedSerializedData)
  /\ sizeof (OfStatic Test) = Normal (length expectedSerializedData)
  /\ length expectedSerializedData = spec_size (class_serial Test).
Proof.
  apply (serialize_length test_heap Test test_instance expectedSerializedData).
  vm_compute. reflexivity.
Defined.

(** The bytes of an entry depend on the value of its property only. *)
Lemma member_bytes_ext h1 h2 name this1 this2 key def :
  get_property this1 key = get_property this2 key ->
  elements_of h1 (get_property this1 key) = elements_of h2 (get_property this2 key) ->
  member_bytes h1 name this1 key def = member_bytes h2 name this2 key def.
Proof.
  intros Hv Hels. unfold member_bytes, serialize_member.
  rewrite Hels, Hv. reflexivity.
Qed.

(** X5.  The slot of a field in the buffer of [serialize] depends on the value
    of that field only: two instances of a class that hold the same value
    at a property (the same elements, for an array) have the same bytes in
    its slot, whatever their other properties hold. *)
Theorem serialize_slot_local (h1 h2 : heap) (c : SerialStatic) (this1 this2 : object)
    (data1 data2 : list Z) (pre post : SerialMap) (key : string) (def : SerialDef) :
  class_serial c = pre ++ (key, def) :: post ->
  serialize h1 c this1 = Normal data1 ->
  serialize h2 c this2 = Normal data2 ->
  get_property this1 key = get_property this2 key ->
  elements_of h1 (get_property this1 key) = elements_of h2 (get_property this2 key) ->
  slice data1 (spec_size pre) (spec_size pre + spec_fieldSize (key, def))
  = slice data2 (spec_size pre) (spec_size pre + spec_fieldSize (key, def)).
Proof.
  intros Hm Hser1 Hser2 Hv Hels.
  destruct (serialize_slot _ _ _ _ _ _ _ _ Hser1 Hm) as [_ Hchunk1].
  destruct (serialize_slot _ _ _ _ _ _ _ _ Hser2 Hm) as [_ Hchunk2].
  rewrite (member_bytes_ext h1 h2 _ this1 this2 key def Hv Hels) in Hchunk1.
  congruence.
Qed.

(** The slot of [prop3] of [_Test], for the instance of the test suite and
    for one with another [prop1] and another array at [prop2]. *)
Lemma serialize_slot_local_Test :
  slice expectedSerializedData 10 15
  = slice [255; 249; 63; 192; 0; 0; 0; 0; 0; 0; 116; 101; 115; 116; 0] 10 15.
Proof.
  apply (serialize_slot_local test_heap
           {[ 2%positive := [VNumber (S754_finite false 6755399441055744 (-52));
                             VNumber (number_of_Z 0)] ]}
           Test test_instance
           {[ "prop1"%string := VNumber (number_of_Z (-7));
              "prop2"%string := VArray 2;
              "prop3"%string := VString (js_string "test") ]}
           expectedSerializedData
           [255; 249; 63; 192; 0; 0; 0; 0; 0; 0; 116; 101; 115; 116; 0]
           [ ("prop1"%string, mkDef (TPrim Int16) None);
             ("prop2"%string, mkDef (TPrim Float32) (Some 2%nat)) ]
           [] "prop3" (mkDef TString (Some 5%nat))).
  - reflexivity.
  - vm_compute. reflexivity.
  - vm_compute. reflexivity.
  - reflexivity.
  - reflexivity.
Defined.

(** X7.  [serialize] checks the JavaScript type of each value against its
    entry: a scalar numeric field whose value is no number (no bigint, for
    the 64-bit integer kinds), a text field whose value is no string and a
    repeated numeric field whose value is no array each make it throw.  A
    property that is missing reads as [undefined] and fails the same
    checks.  What the loop throws on reaching such an entry is a TypeError
    whose message starts with the name of the property and of the class. *)
Theorem serialize_rejects_wrong_type (h : heap) (c : SerialStatic) (this : object)
    (key : string) (type : SerialType) (length : option nat) :
  (key, mkDef type length) ∈ class_serial c ->
  (exists p, type = TPrim p /\ length = None
             /\ typeof (get_property this key) <> serialPrimitiveValue p)
  \/ (type = TString /\ length <> Some 0%nat /\ typeof (get_property this key) <> Ty_string)
  \/ (exists p n, type = TPrim p /\ length = Some (S n)
                  /\ isArray (get_property this key) = false) ->
  throws (serialize h c this)
  /\ forall data offset,
       exists msg,
         serialize_member h (class_name c) this data offset key (mkDef type length)
         = Throw (TypeError (serialize_prefix key (class_name c) +:+ msg)).
Proof.
  intros Hin Hcase.
  assert (Hmember : forall data offset,
            exists msg,
              serialize_member h (class_name c) this data offset key (mkDef type length)
              = Throw (TypeError (serialize_prefix key (class_name c) +:+ msg))).
  { intros data offset. unfold serialize_member.
    destruct Hcase as [(p & -> & -> & Hty)|[(-> & Hlen & Hty)|(p & n & -> & -> & Harr)]].
    - cbn [sizeof isSerialDef def_type isSerialType isSerialPrimitive orb sizeof_loop
           sizeof_type bind]. run_guards.
      destruct (get_property this key) as [|b|x|z|str|l] eqn:Hv;
        destruct p; cbn [typeof serialPrimitiveValue js_type_eqb negb isArray] in *;
        try congruence; eexists; reflexivity.
    - cbn [sizeof isSerialDef def_type isSerialType isSerialPrimitive isSerializeable orb
           sizeof_loop sizeof_type bind].
      destruct length as [[|n]|]; [congruence| |]; run_guards;
        destruct (get_property this key) as [|b|x|z|str|l] eqn:Hv;
        cbn [typeof js_type_eqb negb andb] in *; try congruence; eexists; reflexivity.
    - cbn [sizeof isSerialDef def_type isSerialType isSerialPrimitive orb sizeof_loop
           sizeof_type bind]. run_guards.
      destruct (get_property this key) as [|b|x|z|str|l] eqn:Hv;
        cbn [typeof js_type_eqb negb andb isArray] in *; try congruence;
        eexists; reflexivity. }
  split; [|exact Hmember].
  eapply serialize_throws; [|exact Hin].
  intros data offset. destruct (Hmember data offset) as [msg ->]. exact I.
Qed.

(** An instance of [_Test] without [prop1]. *)
Lemma serialize_rejects_wrong_type_missing :
  throws (serialize test_heap Test (delete "prop1"%string test_instance))
  /\ forall data offset,
       exists msg,
         serialize_member test_heap "_Test" (delete "prop1"%string test_instance)
           data offset "prop1" (mkDef (TPrim Int16) None)
         = Throw (TypeError (serialize_prefix "prop1" "_Test" +:+ msg)).
Proof.
  apply (serialize_rejects_wrong_type test_heap Test (delete "prop1"%string test_instance)
           "prop1" (TPrim Int16) None).
  - apply list_elem_of_here.
  - left. exists Int16. split; [reflexivity|]. split; [reflexivity|].
    vm_compute. discriminate.
Defined.

(** X8.  A text field declared without a length is counted as one byte by
    [sizeof], and neither [serialize] nor [Deserialize] accepts it: the
    loop of [serialize] throws a TypeError on reaching it, whatever the
    value, and the loop of [Deserialize] throws 'Invalid type'. *)
Theorem text_without_length_rejected (h : heap) (c : SerialStatic) (this : object)
    (data : BufferSource) (s : state) (key : string) :
  (key, mkDef TString None) ∈ class_serial c ->
  sizeof (OfDef (mkDef TString None)) = Normal 1%nat
  /\ throws (serialize h c this)
  /\ throws (Deserialize c data s).2
  /\ (forall str buffer offset,
        get_property this key = VString str ->
        serialize_member h (class_name c) this buffer offset key (mkDef TString None)
        = Throw (TypeError (serialize_prefix key (class_name c) +:+ "Invalid type")))
  /\ (forall buffer offset s1,
        Deserialize_member (class_name c) buffer offset key (mkDef TString None) s1
        = (s1, Throw (TypeError (deserialize_prefix key (class_name c) +:+ "Invalid type")))).
Proof.
  intros Hin.
  assert (Hdes : forall buffer offset s1,
            Deserialize_member (class_name c) buffer offset key (mkDef TString None) s1
            = (s1, Throw (TypeError (deserialize_prefix key (class_name c)
                                     +:+ "Invalid type")))) by reflexivity.
  split; [reflexivity|]. split; [|split; [|split; [|exact Hdes]]].
  - eapply serialize_throws; [|exact Hin].
    intros buffer offset. unfold serialize_member.
    cbn [sizeof isSerialDef def_type isSerialType isSerialPrimitive isSerializeable orb
         sizeof_loop sizeof_type bind]. run_guards.
    destruct (get_property this key); exact I.
  - unfold Deserialize. eapply Deserialize_loop_throws; [|exact Hin].
    intros offset s0. rewrite Hdes. exact I.
  - intros str buffer offset Hv. unfold serialize_member. rewrite Hv. reflexivity.
Qed.

Lemma text_without_length_rejected_witness :
  sizeof (OfDef (mkDef TString None)) = Normal 1%nat
  /\ throws (serialize ∅ (serialClass "T" [("t"%string, mkDef TString None)])
               {[ "t"%string := VString (js_string "a") ]})
  /\ throws (Deserialize (serialClass "T" [("t"%string, mkDef TString None)])
               (ArrayBuffer [97]) (new_instance ∅)).2.
Proof.
  destruct (text_without_length_rejected ∅
              (serialClass "T" [("t"%string, mkDef TString None)])
              {[ "t"%string := VString (js_string "a") ]}
              (ArrayBuffer [97]) (new_instance ∅) "t") as (Hsize & Hser & Hdes & _).
  - apply list_elem_of_here.
  - split; [exact Hsize|]. split; [exact Hser|exact Hdes].
Defined.

Lemma flatMap_cons_Normal prefix el els arrayData :
  flatMap prefix (el :: els) = Normal arrayData ->
  exists x xs, coerce_element prefix el = Normal x /\ arrayData = x :: xs.
Proof.
  cbn [flatMap]. destruct (coerce_element prefix el) as [x|]; [|discriminate].
  cbn [bind]. destruct (flatMap prefix els) as [xs|]; [|discriminate].
  cbn [bind]. intros [= <-]. eauto.
Qed.

(** X9.  A repeated numeric field whose array starts with a bigint cannot be
    serialized, whatever its kind: the elements go through a [Uint8Array]
    or a float accessor, which convert them to numbers.  This holds for
    BigInt64 and BigUint64, whose elements [Deserialize] returns as
    bigints. *)
Theorem serialize_rejects_bigint_array (h : heap) (c : SerialStatic) (this : object)
    (key : string) (p : SerialPrimitive) (n : nat) (l : loc) (z : Z) (els : list value) :
  (key, mkDef (TPrim p) (Some (S n))) ∈ class_serial c ->
  get_property this key = VArray l ->
  h !! l = Some (VBigInt z :: els) ->
  throws (serialize h c this).
Proof.
  intros Hin Hv Hl. eapply serialize_throws; [|exact Hin].
  intros data offset. unfold serialize_member.
  cbn [sizeof isSerialDef def_type isSerialType isSerialPrimitive orb sizeof_loop
       sizeof_type bind]. run_guards. rewrite Hv. cbn [typeof js_type_eqb isArray negb andb].
  cbn [elements_of]. rewrite Hl. cbn [default from_option id].
  destruct (flatMap _ (VBigInt z :: els)) as [arrayData|] eqn:Hfm; [|exact I].
  apply flatMap_cons_Normal in Hfm as (x & xs & Hx & ->).
  cbn [coerce_element] in Hx. injection Hx as <-. cbn [bind].
  assert (Hsize : (0 + primitive_size p * S n = S (primitive_size p * S n - 1))%nat).
  { pose proof (primitive_size_pos p). nia. }
  rewrite Hsize. cbn [take].
  destruct p; cbn [set_floats lookup list_lookup DataView_set NumericToRawBytes ToNumber bind
                   Uint8Array_set set_elements];
    try exact I;
    unfold Uint8Array_set;
    match goal with
    | |- context [if ?b then _ else _] => destruct b; exact I
    end.
Qed.

(** A class with one field [v: BigInt64 x 2] holding [[1n, 2n]]. *)
Lemma serialize_rejects_bigint_array_witness :
  throws (serialize {[ 1%positive := [VBigInt 1; VBigInt 2] ]}
            (serialClass "B" [("v"%string, mkDef (TPrim BigInt64) (Some 2%nat))])
            {[ "v"%string := VArray 1 ]}).
Proof.
  apply (serialize_rejects_bigint_array {[ 1%positive := [VBigInt 1; VBigInt 2] ]}
           (serialClass "B" [("v"%string, mkDef (TPrim BigInt64) (Some 2%nat))])
           {[ "v"%string := VArray 1 ]} "v" BigInt64 1 1%positive 1 [VBigInt 2]).
  - apply list_elem_of_here.
  - reflexivity.
  - reflexivity.
Defined.

(** X10.  The slot of a text field holds the character codes of the text, cut
    to [length] characters or padded with zero bytes up to [length], for a
    text of one-byte characters. *)
Theorem serialize_text_slot (h : heap) (c : SerialStatic) (this : object)
    (data : list Z) (pre post : SerialMap) (key : string) (n : nat) (str : list Z) :
  class_serial c = pre ++ (key, mkDef TString (Some n)) :: post ->
  serialize h c this = Normal data ->
  get_property this key = VString str ->
  Forall (fun ch => 0 <= ch < 256) str ->
  slice data (spec_size pre) (spec_size pre + n)
  = take n (str ++ replicate (n - length str) 0).
Proof.
  intros Hm Hser Hv Hbytes.
  destruct (serialize_slot _ _ _ _ _ _ _ _ Hser Hm) as [_ Hchunk].
  pose proof (member_bytes_accepted _ _ _ _ _ _ Hchunk) as Hacc.
  destruct n as [|n]; [discriminate|].
  pose proof (member_bytes_text _ _ _ _ _ _ _ Hchunk Hv Hbytes) as Heq.
  field_size in Heq. rewrite Nat.mul_1_l in Heq. exact Heq.
Qed.

Lemma serialize_text_slot_Test :
  slice expectedSerializedData 10 (10 + 5)
  = take 5 (js_string "test" ++ replicate (5 - length (js_string "test")) 0).
Proof.
  apply (serialize_text_slot test_heap Test test_instance expectedSerializedData
           [ ("prop1"%string, mkDef (TPrim Int16) None);
             ("prop2"%string, mkDef (TPrim Float32) (Some 2%nat)) ]
           [] "prop3" 5 (js_string "test")).
  - reflexivity.
  - vm_compute. reflexivity.
  - reflexivity.
  - change (js_string "test") with [116; 101; 115; 116].
    repeat (apply List.Forall_cons; [lia|]). apply List.Forall_nil.
Defined.

(** ** Composition *)

Lemma isSerialMap_app m1 m2 :
  isSerialMap (m1 ++ m2) = isSerialMap m1 && isSerialMap m2.
Proof. unfold isSerialMap. apply forallb_app. Qed.

(** X13.  The buffer of a class whose entries are those of one class followed
    by those of another is the buffer of the first followed by the buffer
    of the second: [serialize] returns on the whole exactly when it
    returns on both parts. *)
Theorem serialize_app (h : heap) (name : string) (options : SerialClassOptions)
    (m1 m2 : SerialMap) (this : object) (data : list Z) :
  serialize h {| class_name := name; class_options := options; class_serial := m1 ++ m2 |}
    this = Normal data
  <-> exists data1 data2,
        serialize h {| class_name := name; class_options := options; class_serial := m1 |}
          this = Normal data1
        /\ serialize h {| class_name := name; class_options := options; class_serial := m2 |}
             this = Normal data2
        /\ data = data1 ++ data2.
Proof.
  split.
  - intros Hser. pose proof (serialize_Normal_isSerialMap _ _ _ _ Hser) as Hm.
    cbn [class_serial] in Hm. rewrite isSerialMap_app in Hm.
    apply andb_prop in Hm as [Hm1 Hm2].
    rewrite serialize_isSerialMap in Hser
      by (cbn [class_serial]; rewrite isSerialMap_app, Hm1, Hm2; reflexivity).
    cbn [class_serial class_name] in Hser. rewrite members_bytes_app in Hser.
    rewrite !serialize_isSerialMap by assumption. cbn [class_serial class_name].
    destruct (members_bytes h name this m1) as [bs1|]; [|discriminate].
    destruct (members_bytes h name this m2) as [bs2|]; [|discriminate].
    cbn [bind] in Hser. injection Hser as <-. exists bs1, bs2. repeat split.
  - intros (data1 & data2 & H1 & H2 & ->).
    pose proof (serialize_Normal_isSerialMap _ _ _ _ H1) as Hm1.
    pose proof (serialize_Normal_isSerialMap _ _ _ _ H2) as Hm2.
    cbn [class_serial] in Hm1, Hm2.
    rewrite serialize_isSerialMap in H1, H2 by assumption.
    rewrite serialize_isSerialMap
      by (cbn [class_serial]; rewrite isSerialMap_app, Hm1, Hm2; reflexivity).
    cbn [class_serial class_name] in *. rewrite members_bytes_app, H1, H2. reflexivity.
Qed.

Lemma slice_drop {A} (l : list A) k a b :
  slice l (k + a) (k + b) = slice (drop k l) a b.
Proof.
  unfold slice. rewrite drop_drop. f_equal. lia.
Qed.

Lemma DataView_get_drop type buffer k offset le :
  DataView_get type buffer (k + offset) le = DataView_get type (drop k buffer) offset le.
Proof.
  unfold DataView_get. rewrite length_drop.
  pose proof (primitive_size_pos type) as Hpos.
  replace (k + offset + primitive_size type)%nat
    with (k + (offset + primitive_size type))%nat by lia.
  rewrite slice_drop.
  destruct (Nat.ltb_spec (length buffer) (k + (offset + primitive_size type)));
    destruct (Nat.ltb_spec (length buffer - k) (offset + primitive_size type));
    try reflexivity; lia.
Qed.

Lemma get_elements_drop type buffer k offset stride key n : forall i s,
  get_elements type buffer (k + offset) stride key i n s
  = get_elements type (drop k buffer) offset stride key i n s.
Proof.
  induction n as [|n IH]; intros i s; [reflexivity|].
  cbn [get_elements].
  replace (k + offset + i * stride)%nat with (k + (offset + i * stride))%nat by lia.
  rewrite DataView_get_drop.
  destruct (DataView_get type (drop k buffer) _ false) as [v|]; [|reflexivity].
  destruct (set_index key i v s) as [s1 [[]|e]]; [|reflexivity].
  apply IH.
Qed.

Lemma Deserialize_member_drop name buffer k offset key def s :
  Deserialize_member name buffer (k + offset) key def s
  = Deserialize_member name (drop k buffer) offset key def s.
Proof.
  unfold Deserialize_member.
  destruct (sizeof (OfDef def)) as [size|]; [|reflexivity].
  destruct (is_zero (def_length def)); [reflexivity|].
  destruct (negb (isSerialType (def_type def))); [reflexivity|].
  destruct (def_length def) as [[|n]|], (def_type def) as [p| |cn le m|o];
    try reflexivity.
  - rewrite DataView_get_drop. reflexivity.
  - rewrite get_elements_drop. reflexivity.
  - replace (k + offset + size)%nat with (k + (offset + size))%nat by lia.
    rewrite slice_drop. reflexivity.
  - rewrite DataView_get_drop. reflexivity.
Qed.

Lemma Deserialize_loop_drop name buffer k m : forall offset s,
  Deserialize_loop name buffer m (k + offset) s
  = Deserialize_loop name (drop k buffer) m offset s.
Proof.
  induction m as [|[key def] rest IH]; intros offset s; [reflexivity|].
  cbn [Deserialize_loop]. rewrite Deserialize_member_drop.
  destruct (Deserialize_member name (drop k buffer) offset key def s) as [s1 [size|e]];
    [|reflexivity].
  rewrite <- Nat.add_assoc. apply IH.
Qed.

(** X20.  A class whose entries are those of one class followed by those of
    another is decoded as the first class, then as the second on the
    buffer without the bytes of the first, into the same instance; what
    the first part throws ends the call. *)
Theorem Deserialize_app (name : string) (options : SerialClassOptions) (m1 m2 : SerialMap)
    (buffer : list Z) (s : state) :
  Deserialize {| class_name := name; class_options := options; class_serial := m1 ++ m2 |}
    (ArrayBuffer buffer) s
  = match Deserialize {| class_name := name; class_options := options;
                         class_serial := m1 |} (ArrayBuffer buffer) s with
    | (s1, Normal _) =>
        Deserialize {| class_name := name; class_options := options; class_serial := m2 |}
          (ArrayBuffer (drop (spec_size m1) buffer)) s1
    | (s1, Throw e) => (s1, Throw e)
    end.
Proof.
  unfold Deserialize. cbn [class_name class_serial buffer_of].
  rewrite Deserialize_loop_app.
  destruct (Deserialize_loop name buffer m1 0 s) as [s1 [[]|e]]; [|reflexivity].
  cbn [Nat.add]. rewrite <- (Nat.add_0_r (spec_size m1)) at 1.
  apply Deserialize_loop_drop.
Qed.

(** ** Repeated integer fields *)

(** X11.  The slot of a repeated field of an integer kind, or of a text: the
    elements of the array (the characters of the text) are coerced, cut to
    the size of the field in bytes, and each is stored as one byte, the
    number truncated and taken modulo 256; the rest of the slot is
    zero. *)
Theorem serialize_repeated_one_byte_each (h : heap) (c : SerialStatic) (this : object)
    (data : list Z) (pre post : SerialMap) (key : string) (type : SerialType) (n : nat) :
  class_serial c = pre ++ (key, mkDef type (Some n)) :: post ->
  type <> TPrim Float32 -> type <> TPrim Float64 ->
  serialize h c this = Normal data ->
  let size := spec_fieldSize (key, mkDef type (Some n)) in
  exists arrayData xs,
    flatMap (serialize_prefix key (class_name c)) (elements_of h (get_property this key))
    = Normal arrayData
    /\ take size arrayData = Num <$> xs
    /\ slice data (spec_size pre) (spec_size pre + size)
       = (ToUint8 <$> xs) ++ replicate (size - length xs) 0.
Proof.
  intros Hm H32 H64 Hser size.
  destruct (serialize_slot _ _ _ _ _ _ _ _ Hser Hm) as [_ Hchunk].
  pose proof (member_bytes_accepted _ _ _ _ _ _ Hchunk) as Hacc.
  destruct n as [|n]; [destruct type; discriminate|].
  pose proof (member_bytes_length _ _ _ _ _ _ Hchunk) as [_ Hlen].
  destruct (member_bytes_bytes _ _ _ _ _ _ _ H32 H64 Hchunk) as (arrayData & xs & Hfm & Htake & Heq).
  exists arrayData, xs. fold size in Hlen, Heq, Htake. rewrite Hlen in Htake, Heq.
  split; [exact Hfm|]. split; [exact Htake|exact Heq].
Qed.

(** [x: Int16 x 2] holding [[1, 2, 3]]: the slot is [01 02 03 00]. *)
Lemma serialize_repeated_one_byte_each_witness :
  let h : heap := {[ 1%positive := [VNumber (number_of_Z 1); VNumber (number_of_Z 2);
                                    VNumber (number_of_Z 3)] ]} in
  let this : object := {[ "x"%string := VArray 1 ]} in
  exists arrayData xs,
    flatMap (serialize_prefix "x" (class_name Int16Pair))
      (elements_of h (get_property this "x")) = Normal arrayData
    /\ take (spec_fieldSize ("x"%string, mkDef (TPrim Int16) (Some 2%nat))) arrayData
       = Num <$> xs
    /\ slice [1; 2; 3; 0] (spec_size [])
         (spec_size [] + spec_fieldSize ("x"%string, mkDef (TPrim Int16) (Some 2%nat)))
       = (ToUint8 <$> xs)
         ++ replicate (spec_fieldSize ("x"%string, mkDef (TPrim Int16) (Some 2%nat))
                       - length xs) 0.
Proof.
  cbv zeta.
  apply (serialize_repeated_one_byte_each
           {[ 1%positive := [VNumber (number_of_Z 1); VNumber (number_of_Z 2);
                             VNumber (number_of_Z 3)] ]}
           Int16Pair {[ "x"%string := VArray 1 ]} [1; 2; 3; 0] [] [] "x" (TPrim Int16) 2).
  - reflexivity.
  - discriminate.
  - discriminate.
  - vm_compute. reflexivity.
Defined.

(** ** Further properties of [Deserialize] *)

(** X14.  [Deserialize] returns on every buffer of at least [sizeof] bytes for a
    class of accepted entries (scalar numeric, or numeric or text with a
    length of at least 1) with distinct names: filling a new instance, it
    gives each property that the instance does not inherit what its
    accessor reads at the offset of the entry, the sum of the sizes of the
    entries before it. *)
Theorem Deserialize_decodes (c : SerialStatic) (data : BufferSource) (h0 : heap) :
  forallb (fun field => accepted field.2) (class_serial c) = true ->
  NoDup (class_serial c).*1 ->
  (spec_size (class_serial c) <= length (buffer_of data))%nat ->
  exists s',
    Deserialize c data (new_instance h0) = (s', Normal tt)
    /\ forall pre key def post,
         class_serial c = pre ++ (key, def) :: post ->
         inherited key = false ->
         decoded_field (buffer_of data) (spec_size pre) key def s'.
Proof.
  intros Hacc Hnd Hlen. unfold Deserialize.
  destruct (Deserialize_loop_new (class_name c) (buffer_of data) (class_serial c) 0
              (new_instance h0) Hacc Hnd) as (s' & Hloop & Hall).
  - intros k _. apply lookup_empty.
  - lia.
  - exists s'. split; [exact Hloop|].
    intros pre key def post Hm Hinh.
    apply (Hall pre key def post Hm), stored_inherited, Hinh.
Qed.

(** The elements of a repeated field whose name a new instance inherits are
    stored in what it inherits: with [toString: Uint8 x 2], [Deserialize]
    returns and leaves the instance without a property [toString]. *)
Example Deserialize_inherited_name :
  Deserialize InheritedName (ArrayBuffer [1; 2]) (new_instance ∅)
  = (new_instance ∅, Normal tt).
Proof. reflexivity. Qed.

(** [_Test] on a buffer of 16 zero bytes. *)
Lemma Deserialize_decodes_Test :
  exists s',
    Deserialize Test (ArrayBuffer (replicate 16 0)) (new_instance ∅) = (s', Normal tt)
    /\ st_instance s' !! "prop1"%string = Some (VNumber (number_of_Z 0))
    /\ st_instance s' !! "prop3"%string = Some (VString [0]).
Proof.
  destruct (Deserialize_decodes Test (ArrayBuffer (replicate 16 0)) ∅)
    as (s' & Hdes & Hall).
  - reflexivity.
  - apply (bool_decide_unpack (NoDup (class_serial Test).*1)). vm_compute. exact I.
  - cbn. lia.
  - exists s'. split; [exact Hdes|]. split.
    + destruct (Hall [] "prop1"%string (mkDef (TPrim Int16) None)
                  [ ("prop2"%string, mkDef (TPrim Float32) (Some 2%nat));
                    ("prop3"%string, mkDef TString (Some 5%nat)) ] eq_refl eq_refl)
        as (v & Hv & Hk).
      vm_compute in Hv. injection Hv as <-. exact Hk.
    + apply (Hall [ ("prop1"%string, mkDef (TPrim Int16) None);
                    ("prop2"%string, mkDef (TPrim Float32) (Some 2%nat)) ]
               "prop3"%string (mkDef TString (Some 5%nat)) [] eq_refl eq_refl).
Defined.

Lemma slice_app_le {A} (l extra : list A) a b :
  (b <= length l)%nat -> slice (l ++ extra) a b = slice l a b.
Proof.
  intros Hb. unfold slice.
  destruct (decide (a <= length l)%nat) as [Ha|Ha].
  - rewrite drop_app_le by exact Ha. rewrite take_app_le; [reflexivity|].
    rewrite length_drop. lia.
  - replace (b - a)%nat with 0%nat by lia. reflexivity.
Qed.

Lemma DataView_get_app type buffer extra offset le :
  (offset + primitive_size type <= length buffer)%nat ->
  DataView_get type (buffer ++ extra) offset le = DataView_get type buffer offset le.
Proof.
  intros Hle. unfold DataView_get. rewrite length_app.
  destruct (Nat.ltb_spec (length buffer + length extra) (offset + primitive_size type));
    [lia|].
  destruct (Nat.ltb_spec (length buffer) (offset + primitive_size type)); [lia|].
  rewrite slice_app_le by exact Hle. reflexivity.
Qed.

Lemma get_elements_app type buffer extra offset key n : forall i s,
  (offset + (i + n) * primitive_size type <= length buffer)%nat ->
  get_elements type (buffer ++ extra) offset (primitive_size type) key i n s
  = get_elements type buffer offset (primitive_size type) key i n s.
Proof.
  induction n as [|n IH]; intros i s Hle; [reflexivity|].
  cbn [get_elements]. rewrite DataView_get_app by nia.
  destruct (DataView_get type buffer _ false) as [v|]; [|reflexivity].
  destruct (set_index key i v s) as [s1 [[]|e]]; [|reflexivity].
  apply IH. lia.
Qed.

Lemma Deserialize_member_app name buffer extra offset key def s :
  (offset + spec_fieldSize (key, def) <= length buffer)%nat ->
  Deserialize_member name (buffer ++ extra) offset key def s
  = Deserialize_member name buffer offset key def s.
Proof.
  intros Hle. destruct def as [[p| |cn le m|o] [[|n]|]]; try reflexivity.
  - unfold Deserialize_member. rewrite sizeof_OfDef_repeated. run_guards.
    cbv zeta. field_size in Hle.
    replace (primitive_size p * S n / S n)%nat with (primitive_size p)
      by (symmetry; apply Nat.div_mul; lia).
    rewrite get_elements_app by lia. reflexivity.
  - unfold Deserialize_member.
    cbn [sizeof isSerialDef def_type isSerialType isSerialPrimitive orb sizeof_loop
         sizeof_type bind]. run_guards. cbv zeta. field_size in Hle.
    rewrite DataView_get_app by lia. reflexivity.
  - unfold Deserialize_member.
    cbn [sizeof isSerialDef def_type isSerialType isSerialPrimitive isSerializeable orb
         sizeof_loop sizeof_type bind]. run_guards. cbv zeta. field_size in Hle.
    rewrite slice_app_le by (cbn [default from_option id]; lia). reflexivity.
Qed.

Lemma Deserialize_loop_app_buffer name buffer extra m : forall offset s,
  (offset + spec_size m <= length buffer)%nat ->
  Deserialize_loop name (buffer ++ extra) m offset s
  = Deserialize_loop name buffer m offset s.
Proof.
  induction m as [|[k d] rest IH]; intros offset s Hle; [reflexivity|].
  cbn [Deserialize_loop]. rewrite spec_size_cons in Hle.
  rewrite Deserialize_member_app by (unfold spec_fieldSize; cbn [snd]; lia).
  destruct (Deserialize_member name buffer offset k d s) as [s1 [size|e]] eqn:E;
    [|reflexivity].
  apply Deserialize_member_size in E. apply (sizeof_OfDef_spec k) in E.
  unfold spec_fieldSize in E. cbn [snd] in E. apply IH. lia.
Qed.

(** X15.  [Deserialize] never reads past the first [sizeof] bytes of the
    buffer: bytes that follow them change neither the instance nor the
    result. *)
Theorem Deserialize_ignores_trailing_bytes (c : SerialStatic) (buffer extra : list Z)
    (s : state) :
  (spec_size (class_serial c) <= length buffer)%nat ->
  Deserialize c (ArrayBuffer (buffer ++ extra)) s = Deserialize c (ArrayBuffer buffer) s.
Proof.
  intros Hle. unfold Deserialize. cbn [buffer_of].
  apply Deserialize_loop_app_buffer. lia.
Qed.

Lemma Deserialize_ignores_trailing_bytes_Test :
  Deserialize Test (ArrayBuffer (expectedSerializedData ++ [1; 2; 3])) (new_instance ∅)
  = Deserialize Test (ArrayBuffer expectedSerializedData) (new_instance ∅).
Proof.
  apply (Deserialize_ignores_trailing_bytes Test expectedSerializedData [1; 2; 3]).
  cbn. lia.
Defined.

(** X16.  [Deserialize] assigns the properties that the class declares and no
    other: whether it returns or throws, a property of the instance that
    is not an entry of the class keeps its value, and an array that no
    declared property of the instance refers to keeps its elements. *)
Theorem Deserialize_frame (c : SerialStatic) (data : BufferSource) (s s' : state)
    (r : completion unit) :
  NoDup (class_serial c).*1 ->
  Deserialize c data s = (s', r) ->
  (forall key0, key0 ∉ (class_serial c).*1 ->
     st_instance s' !! key0 = st_instance s !! key0)
  /\ (forall l0, l0 ∈ dom (st_heap s) ->
        (forall key, key ∈ (class_serial c).*1 ->
           get_property (st_instance s) key <> VArray l0) ->
        st_heap s' !! l0 = st_heap s !! l0).
Proof.
  intros Hnd Hdes. unfold Deserialize in Hdes. split.
  - intros key0 Hk.
    destruct (Deserialize_loop_other _ _ _ _ _ _ _ key0 1%positive Hdes Hnd) as (H & _ & _).
    apply H, Hk.
  - intros l0 Hl0 Hrefs.
    destruct (Deserialize_loop_other _ _ _ _ _ _ _ EmptyString l0 Hdes Hnd) as (_ & _ & H).
    apply H; assumption.
Qed.

(** Decoding the bytes of the test suite into an instance that also holds
    [other] and an array at [list]. *)
Lemma Deserialize_frame_Test :
  let s := {| st_heap := {[ 1%positive := [VBoolean true] ]};
              st_instance := {[ "other"%string := VNumber (number_of_Z 5);
                                "list"%string := VArray 1 ]} |} in
  let s' := (Deserialize Test (ArrayBuffer expectedSerializedData) s).1 in
  st_instance s' !! "other"%string = Some (VNumber (number_of_Z 5))
  /\ st_heap s' !! 1%positive = Some [VBoolean true].
Proof.
  cbv zeta.
  destruct (Deserialize_frame Test (ArrayBuffer expectedSerializedData)
              {| st_heap := {[ 1%positive := [VBoolean true] ]};
                 st_instance := {[ "other"%string := VNumber (number_of_Z 5);
                                   "list"%string := VArray 1 ]} |}
              (Deserialize Test (ArrayBuffer expectedSerializedData)
                 {| st_heap := {[ 1%positive := [VBoolean true] ]};
                    st_instance := {[ "other"%string := VNumber (number_of_Z 5);
                                      "list"%string := VArray 1 ]} |}).1
              (Deserialize Test (ArrayBuffer expectedSerializedData)
                 {| st_heap := {[ 1%positive := [VBoolean true] ]};
                    st_instance := {[ "other"%string := VNumber (number_of_Z 5);
                                      "list"%string := VArray 1 ]} |}).2)
    as [Hkeys Hheap].
  - apply (bool_decide_unpack (NoDup (class_serial Test).*1)). vm_compute. exact I.
  - apply surjective_pairing.
  - split.
    + rewrite (Hkeys "other"%string); [reflexivity|].
      apply (bool_decide_unpack ("other"%string ∉ (class_serial Test).*1)).
      vm_compute. exact I.
    + rewrite (Hheap 1%positive); [reflexivity| |].
      * cbn [st_heap]. rewrite dom_singleton. apply elem_of_singleton. reflexivity.
      * intros key Hkey. cbn [st_instance].
        unfold get_property.
        cbn [class_serial Test serialClass fmap list_fmap fst] in Hkey.
        repeat (apply elem_of_cons in Hkey as [->|Hkey]; [vm_compute; discriminate|]).
        apply elem_of_nil in Hkey. contradiction.
Defined.


(** ** [deserialize] into an instance that holds values already *)





(** X19.  A repeated numeric field cannot be decoded into an instance that
    holds a truthy value other than an array at its property (a number
    that is not zero, a string that is not empty, [true]): the value is
    kept by [instance[key] ||= []], and no element can be stored in it. *)
Theorem deserialize_array_over_primitive (c : SerialStatic) (this : state)
    (data : BufferSource) (pre post : SerialMap) (key : string) (p : SerialPrimitive)
    (n : nat) (v : value) :
  class_serial c = pre ++ (key, mkDef (TPrim p) (Some (S n))) :: post ->
  NoDup (class_serial c).*1 ->
  st_instance this !! key = Some v ->
  truthy v = true ->
  isArray v = false ->
  throws (deserialize c this data).2.
Proof.
  intros Hm Hnd Hv Htruthy Harray. unfold deserialize, Deserialize.
  rewrite Hm in Hnd |- *. rewrite Deserialize_loop_app.
  destruct (Deserialize_loop (class_name c) (buffer_of data) pre 0 this)
    as [s1 [[]|e]] eqn:Hpre; [|exact I].
  rewrite fmap_app, fmap_cons in Hnd. cbn [fst] in Hnd.
  pose proof Hnd as Hnd'. apply NoDup_app in Hnd' as (Hndpre & Hdisj & _).
  destruct (Deserialize_loop_other _ _ _ _ _ _ _ key 1%positive Hpre Hndpre) as (Hsame & _ & _).
  assert (Hkey : key ∉ pre.*1).
  { intros Hin. apply (Hdisj key Hin). apply list_elem_of_here. }
  specialize (Hsame Hkey). rewrite Hv in Hsame.
  cbn [Deserialize_loop]. unfold Deserialize_member.
  rewrite sizeof_OfDef_repeated. run_guards. cbv zeta.
  assert (Hget : get_property (st_instance s1) key = v).
  { unfold get_property. rewrite Hsame. reflexivity. }
  rewrite or_assign_array_kept by (rewrite Hget; exact Htruthy).
  cbn [get_elements].
  destruct (DataView_get p (buffer_of data) _ false) as [x|]; [|exact I].
  unfold set_index. rewrite Hsame.
  destruct v; try exact I. discriminate.
Qed.

(** The bytes of the test suite decoded into an instance whose [prop2]
    holds the number 5. *)
Lemma deserialize_array_over_primitive_Test :
  throws (deserialize Test
            {| st_heap := ∅;
               st_instance := {[ "prop2"%string := VNumber (number_of_Z 5) ]} |}
            (ArrayBuffer expectedSerializedData)).2.
Proof.
  apply (deserialize_array_over_primitive Test
           {| st_heap := ∅;
              st_instance := {[ "prop2"%string := VNumber (number_of_Z 5) ]} |}
           (ArrayBuffer expectedSerializedData)
           [ ("prop1"%string, mkDef (TPrim Int16) None) ]
           [ ("prop3"%string, mkDef TString (Some 5%nat)) ]
           "prop2" Float32 1 (VNumber (number_of_Z 5))).
  - reflexivity.
  - apply (bool_decide_unpack (NoDup (class_serial Test).*1)). vm_compute. exact I.
  - reflexivity.
  - reflexivity.
  - reflexivity.
Defined.

(** ** Values out of the range of their kind *)





(** ** From bytes to values and back *)



















(** ** The decorators *)

Lemma Map_set_new m key def :
  key ∉ m.*1 -> Map_set m key def = m ++ [(key, def)].
Proof.
  induction m as [|[k d] rest IH]; intros Hk; [reflexivity|].
  cbn [Map_set]. rewrite fmap_cons in Hk. cbn [fst] in Hk.
  apply not_elem_of_cons in Hk as [Hne Hk].
  destruct (String.eqb_spec k key) as [->|_]; [contradiction|].
  rewrite IH by exact Hk. reflexivity.
Qed.

Lemma Map_set_keys m key def :
  key ∈ m.*1 -> (Map_set m key def).*1 = m.*1.
Proof.
  induction m as [|[k d] rest IH]; intros Hk.
  - apply elem_of_nil in Hk. contradiction.
  - cbn [Map_set]. destruct (String.eqb_spec k key) as [->|Hne]; [reflexivity|].
    rewrite !fmap_cons in *. cbn [fst] in *.
    apply elem_of_cons in Hk as [->|Hk]; [contradiction|].
    rewrite IH by exact Hk. reflexivity.
Qed.

Lemma Map_set_NoDup m key def :
  NoDup m.*1 -> NoDup (Map_set m key def).*1.
Proof.
  intros Hnd. destruct (decide (key ∈ m.*1)) as [Hk|Hk].
  - rewrite Map_set_keys by exact Hk. exact Hnd.
  - rewrite Map_set_new by exact Hk. rewrite fmap_app. apply NoDup_app.
    split; [exact Hnd|]. split; [|apply NoDup_singleton].
    intros k Hin Hin'. cbn in Hin'. apply list_elem_of_singleton in Hin' as ->.
    contradiction.
Qed.

Lemma Map_set_here m key def : (key, def) ∈ Map_set m key def.
Proof.
  induction m as [|[k d] rest IH]; cbn [Map_set]; [apply list_elem_of_here|].
  destruct (String.eqb k key); [apply list_elem_of_here|].
  apply list_elem_of_further, IH.
Qed.

Lemma Map_set_other m key def k d :
  k <> key -> (k, d) ∈ Map_set m key def <-> (k, d) ∈ m.
Proof.
  intros Hne. induction m as [|[k0 d0] rest IH]; cbn [Map_set].
  - split; intros Hin.
    + apply list_elem_of_singleton in Hin. congruence.
    + apply elem_of_nil in Hin. contradiction.
  - destruct (String.eqb_spec k0 key) as [->|Hk0].
    + rewrite !elem_of_cons. split; (intros [Heq|Hin]; [congruence|right; exact Hin]).
    + rewrite !elem_of_cons, IH. reflexivity.
Qed.

Lemma Map_set_Forall (P : string * SerialDef -> Prop) m key def :
  Forall P m -> P (key, def) -> Forall P (Map_set m key def).
Proof.
  intros Hm Hdef. induction Hm as [|[k d] rest Hk Hrest IH]; cbn [Map_set].
  - apply List.Forall_cons; [exact Hdef|apply List.Forall_nil].
  - destruct (String.eqb k key).
    + apply List.Forall_cons; assumption.
    + apply List.Forall_cons; assumption.
Qed.

Lemma isSerialMap_Forall m :
  isSerialMap m = true <-> Forall (fun entry => isSerialDef entry.2 = true) m.
Proof.
  unfold isSerialMap. rewrite forallb_forall, Forall_forall.
  split; intros H x Hx; apply H; [apply list_elem_of_In|apply list_elem_of_In]; exact Hx.
Qed.

Lemma isSerialMap_entry m key def :
  (key, def) ∈ m -> isSerialDef def = false -> isSerialMap m = false.
Proof.
  intros Hin Hdef. destruct (isSerialMap m) eqn:Hm; [|reflexivity].
  apply isSerialMap_Forall in Hm. rewrite Forall_forall in Hm.
  specialize (Hm _ Hin). cbn [snd] in Hm. congruence.
Qed.

(** The decorator of a member whose type passes [isSerialType]. *)
Lemma _decorateSerialMember_valid type length value property target :
  isSerialType type = true ->
  _decorateSerialMember (Some type) length value property target
  = ({| cls_name := cls_name target;
        cls_serial :=
          Some (match cls_serial target with
                | Some (options, _) =>
                    if isSerializeableStatic_target target then options else defaultOptions
                | None => defaultOptions
                end,
                Map_set (cls_entries target) property
                  (mkDef type (if is_set length then length else None))) |},
     Normal tt).
Proof.
  intros Htype. unfold _decorateSerialMember. rewrite Htype.
  destruct (isSerializeableStatic_target target) eqn:Hstatic.
  - unfold isSerializeableStatic_target, static_of in Hstatic. unfold cls_entries.
    destruct (cls_serial target) as [[options m]|]; [reflexivity|discriminate].
  - unfold _decorateSerialClass, cls_entries.
    destruct (cls_serial target) as [[options m]|]; reflexivity.
Qed.

Lemma decorate_members_fold members : forall target options m,
  cls_serial target = Some (options, m) ->
  isSerialMap m = true ->
  Forall (fun member => isSerialDef member.2 = true) members ->
  decorate_members members target
  = ({| cls_name := cls_name target;
        cls_serial :=
          Some (options,
                fold_left (fun m member =>
                             Map_set m member.1
                               (mkDef (def_type member.2)
                                  (if is_set (def_length member.2)
                                   then def_length member.2 else None)))
                  members m) |},
     Normal tt).
Proof.
  induction members as [|[property [type length]] rest IH]; intros target options m Hs Hm Hall.
  - cbn [decorate_members fold_left]. destruct target as [name serial].
    cbn [cls_serial cls_name] in *. rewrite Hs. reflexivity.
  - apply Forall_cons in Hall as [Htype Hall]. cbn [snd] in Htype.
    cbn [decorate_members]. rewrite (_decorateSerialMember_valid _ _ _ _ _ Htype).
    unfold isSerializeableStatic_target, static_of, cls_entries. rewrite Hs.
    cbn [isSerializeableStatic class_type class_serial]. rewrite Hm.
    erewrite IH; [reflexivity|reflexivity| |exact Hall].
    apply isSerialMap_Forall, Map_set_Forall; [|exact Htype].
    apply isSerialMap_Forall, Hm.
Qed.

Lemma fold_Map_set_invariant (P : string * SerialDef -> Prop) members : forall m,
  Forall P m ->
  Forall (fun member =>
            P (member.1, mkDef (def_type member.2)
                           (if is_set (def_length member.2)
                            then def_length member.2 else None))) members ->
  NoDup m.*1 ->
  let m' := fold_left (fun m member =>
                         Map_set m member.1
                           (mkDef (def_type member.2)
                              (if is_set (def_length member.2)
                               then def_length member.2 else None)))
              members m in
  Forall P m' /\ NoDup m'.*1.
Proof.
  induction members as [|member rest IH]; intros m Hm Hall Hnd; cbn [fold_left].
  - split; assumption.
  - apply Forall_cons in Hall as [Hmember Hall].
    apply IH; [apply Map_set_Forall; assumption|exact Hall|apply Map_set_NoDup, Hnd].
Qed.

Lemma fold_Map_set_new members : forall m,
  NoDup (m.*1 ++ members.*1) ->
  fold_left (fun m member =>
               Map_set m member.1
                 (mkDef (def_type member.2)
                    (if is_set (def_length member.2)
                     then def_length member.2 else None)))
    members m
  = m ++ ((fun member =>
             (member.1, mkDef (def_type member.2)
                          (if is_set (def_length member.2)
                           then def_length member.2 else None))) <$> members).
Proof.
  induction members as [|member rest IH]; intros m Hnd; cbn [fold_left].
  - rewrite app_nil_r. reflexivity.
  - rewrite fmap_cons in Hnd. rewrite fmap_cons.
    rewrite Map_set_new.
    + rewrite IH.
      * rewrite <- app_assoc. reflexivity.
      * rewrite fmap_app. cbn [fmap list_fmap fst]. rewrite <- app_assoc. exact Hnd.
    + apply NoDup_app in Hnd as (_ & Hdisj & _). intros Hin.
      apply (Hdisj _ Hin). apply list_elem_of_here.
Qed.

(** X22.  A class whose members are all decorated with a primitive type or
    ['string'] is serializable: starting from a class without
    [__serial__], the decorators return, and the class they leave has the
    default options, passes [isSerializeableStatic], has distinct
    property names and no entry of length 0, so that [sizeof] returns the
    sum of its field sizes.  A length of 0 given to a decorator is
    dropped: the entry is a scalar.  With distinct property names, the
    entries are the members in the order of their declaration. *)
Theorem decorate_members_serializable (name : string) (member : string * SerialDef)
    (members : list (string * SerialDef)) :
  Forall (fun member => isSerialDef member.2 = true) (member :: members) ->
  exists c,
    decorate_members (member :: members) {| cls_name := name; cls_serial := None |}
    = ({| cls_name := name; cls_serial := Some (class_options c, class_serial c) |},
       Normal tt)
    /\ class_name c = name
    /\ class_options c = defaultOptions
    /\ isSerializeableStatic (class_type c) = true
    /\ NoDup (class_serial c).*1
    /\ Forall (fun field => is_zero (def_length field.2) = false) (class_serial c)
    /\ sizeof (OfStatic c) = Normal (spec_size (class_serial c))
    /\ (NoDup (member :: members).*1 ->
        class_serial c
        = (fun member =>
             (member.1, mkDef (def_type member.2)
                          (if is_set (def_length member.2)
                           then def_length member.2 else None)))
          <$> (member :: members)).
Proof.
  intros Hall. pose proof Hall as Hall'.
  apply Forall_cons in Hall' as [Htype Hrest].
  destruct member as [property [type length]]. cbn [snd] in Htype.
  set (m' := fold_left (fun m member =>
                          Map_set m member.1
                            (mkDef (def_type member.2)
                               (if is_set (def_length member.2)
                                then def_length member.2 else None)))
               ((property, mkDef type length) :: members) []).
  exists {| class_name := name; class_options := defaultOptions; class_serial := m' |}.
  cbn [class_name class_options class_serial].
  assert (Hinv : Forall (fun field => isSerialDef field.2 = true
                                      /\ is_zero (def_length field.2) = false) m'
                 /\ NoDup m'.*1).
  { apply (fold_Map_set_invariant
             (fun field => isSerialDef field.2 = true
                           /\ is_zero (def_length field.2) = false)).
    - apply List.Forall_nil.
    - apply Forall_forall. intros [k [t l]] Hin. rewrite Forall_forall in Hall.
      specialize (Hall _ Hin). cbn [fst snd def_type def_length] in *.
      split; [exact Hall|]. destruct l as [[|n]|]; reflexivity.
    - apply NoDup_nil_2. }
  destruct Hinv as [Hinv Hnd].
  assert (Hserial : isSerialMap m' = true).
  { apply isSerialMap_Forall. eapply Forall_impl; [exact Hinv|]. intros f [H _]. exact H. }
  split; [|split; [reflexivity|split; [reflexivity|split; [exact Hserial|
           split; [exact Hnd|split; [|split]]]]]].
  - cbn [decorate_members]. rewrite (_decorateSerialMember_valid _ _ _ _ _ Htype).
    cbn [cls_serial cls_entries cls_name].
    erewrite decorate_members_fold; [reflexivity|reflexivity| |exact Hrest].
    apply isSerialMap_Forall. apply List.Forall_cons; [exact Htype|apply List.Forall_nil].
  - eapply Forall_impl; [exact Hinv|]. intros f [_ H]. exact H.
  - cbn [sizeof isSerializeableStatic class_type class_serial class_options]. rewrite Hserial.
    rewrite (sizeof_loop_isSerialMap _ 0 Hserial). reflexivity.
  - intros Hnames. subst m'. rewrite fold_Map_set_new; [reflexivity|exact Hnames].
Qed.

(** The members of [_Test], decorated in order, give the class [_Test]. *)
Lemma decorate_members_serializable_Test :
  decorate_members (class_serial Test) {| cls_name := "_Test"; cls_serial := None |}
  = ({| cls_name := "_Test"; cls_serial := Some (defaultOptions, class_serial Test) |},
     Normal tt)
  /\ sizeof (OfStatic Test) = Normal (spec_size (class_serial Test)).
Proof.
  destruct (decorate_members_serializable "_Test"
              ("prop1"%string, mkDef (TPrim Int16) None)
              [ ("prop2"%string, mkDef (TPrim Float32) (Some 2%nat));
                ("prop3"%string, mkDef TString (Some 5%nat)) ])
    as (c & Hdec & Hname & Hopt & _ & _ & _ & Hsize & Hentries).
  - repeat (apply List.Forall_cons; [reflexivity|]). apply List.Forall_nil.
  - assert (Hm : class_serial c = class_serial Test).
    { rewrite Hentries; [reflexivity|].
      apply (bool_decide_unpack (NoDup (class_serial Test).*1)). vm_compute. exact I. }
    rewrite Hopt, Hm in Hdec. split; [exact Hdec|].
    destruct c as [n o m]. cbn [class_name class_options class_serial] in *.
    subst n o m. exact Hsize.
Defined.

(** X23.  Decorating one more member of a serializable class, with a type that
    passes [isSerialType]: the decorator returns and the class stays
    serializable, with the same options.  The entry of the property is the
    one given, a length of 0 counting as no length; the other entries are
    kept.  A new property goes after the entries there are, which keep
    their offsets, and [sizeof] grows by the size of the new field; a
    property that has an entry keeps its place. *)
Theorem serialMember_records (target : Class) (c : SerialStatic) (type : SerialType)
    (length : option nat) (value : option Class) (property : string) :
  static_of target = Some c ->
  isSerializeableStatic (class_type c) = true ->
  isSerialType type = true ->
  let def := mkDef type (if is_set length then length else None) in
  exists c',
    _decorateSerialMember (Some type) length value property target
    = ({| cls_name := class_name c;
          cls_serial := Some (class_options c, class_serial c') |}, Normal tt)
    /\ class_name c' = class_name c
    /\ class_options c' = class_options c
    /\ isSerializeableStatic (class_type c') = true
    /\ (property, def) ∈ class_serial c'
    /\ (forall k d, k <> property -> (k, d) ∈ class_serial c' <-> (k, d) ∈ class_serial c)
    /\ (property ∈ (class_serial c).*1 -> (class_serial c').*1 = (class_serial c).*1)
    /\ (property ∉ (class_serial c).*1 ->
        class_serial c' = class_serial c ++ [(property, def)]
        /\ sizeof (OfStatic c')
           = Normal (spec_size (class_serial c) + spec_fieldSize (property, def))%nat).
Proof.
  intros Hstatic Hc Htype def.
  exists {| class_name := class_name c; class_options := class_options c;
            class_serial := Map_set (class_serial c) property def |}.
  cbn [class_name class_options class_serial].
  assert (Hm : isSerialMap (Map_set (class_serial c) property def) = true).
  { apply isSerialMap_Forall, Map_set_Forall; [|exact Htype].
    apply isSerialMap_Forall, Hc. }
  split; [|split; [reflexivity|split; [reflexivity|split; [exact Hm|
           split; [apply Map_set_here|split; [|split]]]]]].
  - rewrite (_decorateSerialMember_valid _ _ _ _ _ Htype).
    unfold isSerializeableStatic_target, cls_entries. rewrite Hstatic, Hc.
    unfold static_of in Hstatic.
    destruct (cls_serial target) as [[options m]|]; [|discriminate].
    injection Hstatic as <-. reflexivity.
  - intros k d Hk. apply Map_set_other, Hk.
  - apply Map_set_keys.
  - intros Hnew. rewrite (Map_set_new _ _ _ Hnew). split; [reflexivity|].
    cbn [sizeof isSerializeableStatic class_type class_serial class_options].
    rewrite (Map_set_new _ _ _ Hnew) in Hm. rewrite Hm.
    rewrite (sizeof_loop_isSerialMap _ 0 Hm). f_equal.
    rewrite spec_size_app. unfold spec_size at 2.
    cbn [fmap list_fmap sum_list sum_list_with id]. lia.
Qed.

(** One more member, [extra: Uint8] with a length of 0, on [_Test]:
    [sizeof] goes from 15 to 16. *)
Lemma serialMember_records_Test :
  exists c',
    _decorateSerialMember (Some (TPrim Uint8)) (Some 0%nat) None "extra"
      {| cls_name := "_Test"; cls_serial := Some (defaultOptions, class_serial Test) |}
    = ({| cls_name := "_Test"; cls_serial := Some (defaultOptions, class_serial c') |},
       Normal tt)
    /\ class_serial c'
       = class_serial Test ++ [("extra"%string, mkDef (TPrim Uint8) None)]
    /\ sizeof (OfStatic c') = Normal 16%nat.
Proof.
  destruct (serialMember_records
              {| cls_name := "_Test"; cls_serial := Some (defaultOptions, class_serial Test) |}
              Test (TPrim Uint8) (Some 0%nat) None "extra" eq_refl eq_refl eq_refl)
    as (c' & Hdec & _ & _ & _ & _ & _ & _ & Hnew).
  exists c'. split; [exact Hdec|].
  apply Hnew.
  apply (bool_decide_unpack ("extra"%string ∉ (class_serial Test).*1)). vm_compute. exact I.
Defined.

(** X24.  A member decorator given a type that does not pass [isSerialType] (a
    class, a string that names no type, or no type at all) throws unless
    the prototype holds, at the property, an object of a serializable
    class.  The entries of the class are as they were, but the class has
    [__serial__] afterwards. *)
Theorem serialMember_not_serializable (type : option SerialType) (length : option nat)
    (value : option Class) (property : string) (target : Class) :
  match type with Some type => isSerialType type = false | None => True end ->
  match value with Some K => isSerializeableStatic_target K = false | None => True end ->
  exists target',
    _decorateSerialMember type length value property target
    = (target', Throw (not_serializable property (cls_name target)))
    /\ cls_name target' = cls_name target
    /\ cls_entries target' = cls_entries target
    /\ is_Some (cls_serial target').
Proof.
  intros Htype Hvalue. unfold _decorateSerialMember.
  assert (Hchecked : match type with
                     | Some type => if isSerialType type then Some type else None
                     | None => None
                     end = None).
  { destruct type as [t|]; [rewrite Htype|]; reflexivity. }
  rewrite Hchecked.
  assert (Hinferred : match value with
                      | Some K =>
                          if isSerializeableStatic_target K
                          then class_type <$> static_of K else None
                      | None => None
                      end = None).
  { destruct value as [K|]; [rewrite Hvalue|]; reflexivity. }
  rewrite Hinferred.
  destruct (isSerializeableStatic_target target) eqn:Hstatic.
  - exists target. split; [reflexivity|]. split; [reflexivity|]. split; [reflexivity|].
    unfold isSerializeableStatic_target, static_of in Hstatic.
    destruct (cls_serial target) as [[options m]|]; [eexists; reflexivity|discriminate].
  - eexists. split; [reflexivity|]. split; [reflexivity|]. split; [reflexivity|].
    eexists. reflexivity.
Qed.

(** [@serialMember(_Test)] on a member of a class without [__serial__],
    nothing being on the prototype. *)
Lemma serialMember_not_serializable_class :
  exists target',
    _decorateSerialMember (Some (class_type Test)) None None "inner"
      {| cls_name := "Outer"; cls_serial := None |}
    = (target', Throw (not_serializable "inner" "Outer"))
    /\ cls_name target' = "Outer"%string
    /\ cls_entries target' = []
    /\ is_Some (cls_serial target').
Proof.
  apply (serialMember_not_serializable (Some (class_type Test)) None None "inner"
           {| cls_name := "Outer"; cls_serial := None |}).
  - reflexivity.
  - exact I.
Defined.

(** X25.  When the type of a member is inferred from an object on the
    prototype, the entry holds the class of that object, and the class
    being decorated is not serializable afterwards: [sizeof] throws on it,
    and [serialize] throws on every instance, with the message of
    [sizeof(this)] when the instance has no property [type]. *)
Theorem serialMember_inferred_class (type : option SerialType) (length : option nat)
    (K : Class) (k : SerialStatic) (property : string) (target : Class) :
  match type with Some type => isSerialType type = false | None => True end ->
  static_of K = Some k ->
  isSerializeableStatic (class_type k) = true ->
  exists c',
    _decorateSerialMember type length (Some K) property target
    = ({| cls_name := class_name c';
          cls_serial := Some (class_options c', class_serial c') |}, Normal tt)
    /\ class_name c' = cls_name target
    /\ (property, mkDef (class_type k) (if is_set length then length else None))
       ∈ class_serial c'
    /\ isSerializeableStatic (class_type c') = false
    /\ sizeof (OfStatic c') = Throw (not_a_valid_type "Function")
    /\ (forall h this, throws (serialize h c' this))
    /\ (forall h this,
          this !! "type"%string = None ->
          serialize h c' this = Throw (not_a_valid_type (class_name c'))).
Proof.
  intros Htype HK Hk. unfold _decorateSerialMember.
  assert (Hchecked : match type with
                     | Some type => if isSerialType type then Some type else None
                     | None => None
                     end = None).
  { destruct type as [t|]; [rewrite Htype|]; reflexivity. }
  rewrite Hchecked.
  assert (HKs : isSerializeableStatic_target K = true).
  { unfold isSerializeableStatic_target. rewrite HK. exact Hk. }
  rewrite HKs, HK. cbn [fmap option_fmap option_map].
  set (def := mkDef (class_type k) (if is_set length then length else None)).
  assert (Hbad : forall m, isSerialMap (Map_set m property def) = false).
  { intros m. apply (isSerialMap_entry _ property def); [apply Map_set_here|reflexivity]. }
  destruct (isSerializeableStatic_target target) eqn:Hstatic.
  - unfold isSerializeableStatic_target, static_of in Hstatic.
    destruct (cls_serial target) as [[options m]|] eqn:Hserial; [|discriminate].
    exists {| class_name := cls_name target; class_options := options;
              class_serial := Map_set m property def |}.
    cbn [class_name class_options class_serial fmap option_fmap option_map fst snd].
    split; [reflexivity|]. split; [reflexivity|]. split; [apply Map_set_here|].
    cbn [isSerializeableStatic class_type class_serial class_options sizeof class_name].
    rewrite Hbad. split; [reflexivity|]. split; [reflexivity|]. split.
    + intros h this. apply serialize_not_serializable, Hbad.
    + intros h this Hthis. unfold serialize.
      cbn [isSerializeableStatic class_type class_serial class_options sizeof class_name].
      rewrite Hbad, SerialDef_of_instance_None by exact Hthis. reflexivity.
  - exists {| class_name := cls_name target; class_options := defaultOptions;
              class_serial := Map_set (cls_entries target) property def |}.
    cbn [class_name class_options class_serial].
    split; [reflexivity|]. split; [reflexivity|]. split; [apply Map_set_here|].
    cbn [isSerializeableStatic class_type class_serial class_options sizeof class_name].
    rewrite Hbad. split; [reflexivity|]. split; [reflexivity|]. split.
    + intros h this. apply serialize_not_serializable, Hbad.
    + intros h this Hthis. unfold serialize.
      cbn [isSerializeableStatic class_type class_serial class_options sizeof class_name].
      rewrite Hbad, SerialDef_of_instance_None by exact Hthis. reflexivity.
Qed.

(** [@serialMember()] on a member [inner] of a class [Outer] whose
    prototype holds an instance of [_Test] at [inner]. *)
Lemma serialMember_inferred_class_Test :
  exists c',
    _decorateSerialMember None None
      (Some {| cls_name := "_Test"; cls_serial := Some (defaultOptions, class_serial Test) |})
      "inner" {| cls_name := "Outer"; cls_serial := None |}
    = ({| cls_name := class_name c';
          cls_serial := Some (class_options c', class_serial c') |}, Normal tt)
    /\ sizeof (OfStatic c') = Throw (not_a_valid_type "Function")
    /\ throws (serialize ∅ c' {[ "type"%string := VString (js_string "Int8") ]})
    /\ serialize ∅ c' ∅ = Throw (not_a_valid_type (class_name c')).
Proof.
  destruct (serialMember_inferred_class None None
              {| cls_name := "_Test"; cls_serial := Some (defaultOptions, class_serial Test) |}
              Test "inner" {| cls_name := "Outer"; cls_serial := None |} I eq_refl eq_refl)
    as (c' & Hdec & _ & _ & _ & Hsize & Hthrows & Hmessage).
  exists c'. split; [exact Hdec|]. split; [exact Hsize|]. split; [apply Hthrows|].
  apply Hmessage. apply lookup_empty.
Defined.

(** X26.  [Deserialize] does not undo what it has assigned: when the
    entry it throws at comes after accepted entries that the buffer
    covers, the new instance it leaves holds the decoded value of each of
    them that it does not inherit. *)
Theorem Deserialize_keeps_assigned (c : SerialStatic) (data : BufferSource) (h0 : heap)
    (pre post : SerialMap) (key : string) (def : SerialDef) :
  class_serial c = pre ++ (key, def) :: post ->
  NoDup (class_serial c).*1 ->
  forallb (fun field => accepted field.2) pre = true ->
  (spec_size pre <= length (buffer_of data))%nat ->
  (forall s, throws (Deserialize_member (class_name c) (buffer_of data) (spec_size pre)
                       key def s).2) ->
  exists s' e,
    Deserialize c data (new_instance h0) = (s', Throw e)
    /\ forall pre1 key1 def1 post1,
         pre = pre1 ++ (key1, def1) :: post1 ->
         inherited key1 = false ->
         decoded_field (buffer_of data) (spec_size pre1) key1 def1 s'.
Proof.
  intros Hm Hnd Hacc Hle Hthrows. unfold Deserialize. rewrite Hm in Hnd |- *.
  rewrite fmap_app, fmap_cons in Hnd. cbn [fst] in Hnd.
  pose proof Hnd as Hnd'. apply NoDup_app in Hnd' as (Hndpre & Hdisj & _).
  destruct (Deserialize_loop_new (class_name c) (buffer_of data) pre 0 (new_instance h0)
              Hacc Hndpre) as (s1 & Hloop & Hall).
  { intros k _. apply lookup_empty. }
  { lia. }
  rewrite Deserialize_loop_app, Hloop. cbn [Deserialize_loop Nat.add].
  specialize (Hthrows s1).
  destruct (Deserialize_member (class_name c) (buffer_of data) (spec_size pre) key def s1)
    as [s2 [size|e]] eqn:Hmember; [contradiction|].
  exists s2, e. split; [reflexivity|].
  intros pre1 key1 def1 post1 Hpre Hinh.
  destruct (Deserialize_member_other _ _ _ _ _ _ _ _ Hmember) as (Hkeys & _ & Hheap).
  assert (Hkey : key ∉ pre.*1).
  { intros Hin. apply (Hdisj key Hin). apply list_elem_of_here. }
  assert (Hnone : st_instance s1 !! key = None).
  { destruct (Deserialize_loop_other _ _ _ _ _ _ _ key 1%positive Hloop Hndpre) as (H & _ & _).
    rewrite (H Hkey). apply lookup_empty. }
  apply (decoded_field_stable _ _ _ _ s1).
  - apply (Hall pre1 key1 def1 post1 Hpre), stored_inherited, Hinh.
  - apply Hkeys. intros ->. apply Hkey. rewrite Hpre, fmap_app, fmap_cons.
    apply elem_of_app. right. apply list_elem_of_here.
  - intros l Hl. apply Hheap; [exact Hl|].
    rewrite (get_property_None _ _ Hnone). discriminate.
Qed.

(** [ZeroRepeat] on one byte: [a] holds 7 when the call throws at [b]. *)
Lemma Deserialize_keeps_assigned_ZeroRepeat :
  exists s' e,
    Deserialize ZeroRepeat (ArrayBuffer [7]) (new_instance ∅) = (s', Throw e)
    /\ st_instance s' !! "a"%string = Some (VNumber (number_of_Z 7)).
Proof.
  destruct (Deserialize_keeps_assigned ZeroRepeat (ArrayBuffer [7]) ∅
              [ ("a"%string, mkDef (TPrim Int8) None) ] []
              "b" (mkDef (TPrim Int8) (Some 0%nat)))
    as (s' & e & Hdes & Hall).
  - reflexivity.
  - apply (bool_decide_unpack (NoDup ["a"%string; "b"%string])). vm_compute. exact I.
  - reflexivity.
  - cbn. lia.
  - intros s. exact I.
  - exists s', e. split; [exact Hdes|].
    destruct (Hall [] "a"%string (mkDef (TPrim Int8) None) [] eq_refl eq_refl)
      as (v & Hv & Hk).
    vm_compute in Hv. injection Hv as <-. exact Hk.
Defined.
